(** * youtube_audio: the streaming player and its session controller

    A shallow embedding of [youtube_audio.py].  The file follows the
    source top-down:

    - the few [numpy] operations the audio callback uses, on arrays kept
      as a shape and a row-major list of samples;
    - [queue.Queue] with its bound, [put] and [get_nowait];
    - [StreamingAudioPlayer]: [__init__], [add_audio], [close] and
      [_audio_callback];
    - [YouTubeAudioPlayer]: [play], [stop] and the worker
      [_stream_and_play];
    - the properties of the delivery pipeline and of the play/stop
      protocol.

    Effects are written in a state-and-exception monad: a Python method
    becomes a function from the object's state to an outcome (a value or
    a raised exception) and the state it leaves behind. *)

From Stdlib Require Import String.
From Stdlib Require Import List Arith ZArith Lia Bool.
From Stdlib Require QArith.
Import ListNotations.

Set Implicit Arguments.

(** ** Exceptions and the monad *)

(** The Python exceptions that the modelled code can raise or catch.
    [Empty] is [queue.Empty]; [AVError] stands for whatever the decoder
    raises on a damaged stream, tagged by an error number. *)
Inductive exn : Type :=
| AssertionError
| IndexError
| ValueError
| AttributeError
| Empty
| AVError (errno : nat).

Inductive outcome (A : Type) : Type :=
| Ok (a : A)
| Raise (e : exn).

Arguments Ok {A} a.
Arguments Raise {A} e.

(** A computation over a state [S]: it always leaves a state behind, also
    when it raises (what was mutated before the raise stays mutated). *)
Definition M (S A : Type) : Type := S -> outcome A * S.

Definition ret {S A : Type} (a : A) : M S A := fun s => (Ok a, s).

Definition raise {S A : Type} (e : exn) : M S A := fun s => (Raise e, s).

Definition bind {S A B : Type} (m : M S A) (k : A -> M S B) : M S B :=
  fun s =>
    match m s with
    | (Ok a, s') => k a s'
    | (Raise e, s') => (Raise e, s')
    end.

Definition get {S : Type} : M S S := fun s => (Ok s, s).

Definition modify {S : Type} (f : S -> S) : M S unit := fun s => (Ok tt, f s).

(** [lift] turns a pure, possibly failing, result into a computation. *)
Definition lift {S A : Type} (o : outcome A) : M S A := fun s => (o, s).

Declare Scope py_scope.
Delimit Scope py_scope with py.
Notation "x <- m ;; k" := (bind m (fun x => k))
  (at level 61, m at next level, right associativity) : py_scope.
Notation "m ;; k" := (bind m (fun _ => k))
  (at level 61, right associativity) : py_scope.
Open Scope py_scope.

(** The Python [assert]. *)
Definition assert {S : Type} (b : bool) : M S unit :=
  if b then ret tt else raise AssertionError.

Ltac run_monad :=
  unfold bind, ret, raise, lift, get, modify, assert in *; simpl in *.

(** ** Shapes *)

Fixpoint shape_eqb (s1 s2 : list nat) : bool :=
  match s1, s2 with
  | [], [] => true
  | a :: s1', b :: s2' => (a =? b) && shape_eqb s1' s2'
  | _, _ => false
  end.

(** ** numpy arrays *)

Section NumPy.

(** Samples are copied around and never computed with; the only sample the
    code itself produces is the [0] of the silence fill. *)
Variable sample : Type.
Variable zero : sample.

(** An array is its shape and its elements in row-major order. *)
Record ndarray : Type := mk_ndarray {
  shape : list nat;
  flat : list sample
}.

(** [len(a)], the size of the first axis. *)
Definition len (a : ndarray) : nat := hd 0 (shape a).

(** Number of elements in one row (one index of the first axis). *)
Definition row_size (a : ndarray) : nat := fold_right Nat.mul 1 (tl (shape a)).

(** [a.shape[i]]: indexing the shape tuple out of range is an
    [IndexError]. *)
Definition shape_at (a : ndarray) (i : nat) : outcome nat :=
  match nth_error (shape a) i with
  | Some d => Ok d
  | None => Raise IndexError
  end.

(** [np.empty((0, 2))]: no rows, two columns, hence no elements. *)
Definition np_empty_0_2 : ndarray := mk_ndarray [0; 2] [].

(** [np.atleast_2d], which [np.vstack] applies to each operand. *)
Definition atleast_2d (a : ndarray) : ndarray :=
  match shape a with
  | [] => mk_ndarray [1; 1] (flat a)
  | [n] => mk_ndarray [1; n] (flat a)
  | _ => a
  end.

(** [np.vstack((a, b))]: stacks along the first axis; the other axes must
    agree, else [ValueError]. *)
Definition vstack (a b : ndarray) : outcome ndarray :=
  let a2 := atleast_2d a in
  let b2 := atleast_2d b in
  if shape_eqb (tl (shape a2)) (tl (shape b2))
  then Ok (mk_ndarray ((len a2 + len b2) :: tl (shape a2)) (flat a2 ++ flat b2))
  else Raise ValueError.

(** [np.concatenate(arrays)] along axis 0: at least one array, none of
    them zero-dimensional, all agreeing on the other axes. *)
Fixpoint concatenate_onto (acc : ndarray) (rest : list ndarray) : outcome ndarray :=
  match rest with
  | [] => Ok acc
  | b :: rest' =>
      match shape b with
      | [] => Raise ValueError
      | _ :: _ =>
          if shape_eqb (tl (shape acc)) (tl (shape b))
          then concatenate_onto
                 (mk_ndarray ((len acc + len b) :: tl (shape acc)) (flat acc ++ flat b))
                 rest'
          else Raise ValueError
      end
  end.

Definition np_concatenate (arrays : list ndarray) : outcome ndarray :=
  match arrays with
  | [] => Raise ValueError
  | a :: rest =>
      match shape a with
      | [] => Raise ValueError
      | _ :: _ => concatenate_onto a rest
      end
  end.

(** [a.transpose()]: rows and columns of a two-dimensional array are
    exchanged; an array of at most one dimension is its own transpose.
    The only arrays the program transposes are those of [to_ndarray]
    below, which have two dimensions; arrays of more dimensions, whose
    axes numpy would reverse, are not modelled and come back as they
    are. *)
Definition transpose (a : ndarray) : ndarray :=
  match shape a with
  | [r; c] =>
      mk_ndarray [c; r]
        (flat_map (fun j => flat_map (fun i =>
                     match nth_error (flat a) (i * c + j) with
                     | Some x => [x]
                     | None => []
                     end) (seq 0 r)) (seq 0 c))
  | _ => a
  end.

(** [a[:n]], the first [n] rows (all of them when [n] exceeds [len a]). *)
Definition rows_to (a : ndarray) (n : nat) : ndarray :=
  mk_ndarray (Nat.min n (len a) :: tl (shape a)) (firstn (n * row_size a) (flat a)).

(** [a[n:]], the rows from index [n] on. *)
Definition rows_from (a : ndarray) (n : nat) : ndarray :=
  mk_ndarray ((len a - n) :: tl (shape a)) (skipn (n * row_size a) (flat a)).

(** [dst[:] = src]: every row of [dst] is overwritten.  The callback
    assigns to [outdata], which is two-dimensional, a source with as many
    rows: there numpy's broadcasting accepts exactly the sources of the
    same shape, and raises [ValueError] on the others. *)
Definition assign_all (dst src : ndarray) : outcome ndarray :=
  if shape_eqb (shape dst) (shape src)
  then Ok (mk_ndarray (shape dst) (flat src))
  else Raise ValueError.

(** [dst[:n] = src]: the first [n] rows are overwritten, the others
    keep what they held. *)
Definition assign_rows_to (dst : ndarray) (n : nat) (src : ndarray) : outcome ndarray :=
  if shape_eqb (shape (rows_to dst n)) (shape src)
  then Ok (mk_ndarray (shape dst) (flat src ++ skipn (n * row_size dst) (flat dst)))
  else Raise ValueError.

(** [dst[n:] = v]: every element of the rows from [n] on becomes [v]. *)
Definition fill_rows_from (dst : ndarray) (n : nat) (v : sample) : ndarray :=
  mk_ndarray (shape dst)
    (firstn (n * row_size dst) (flat dst) ++ repeat v ((len dst - n) * row_size dst)).

(** A decoded [av.AudioFrame]: [frame_rows] planes of [frame_columns]
    samples each, plane after plane ([frame_rows] is 1 for the packed
    sample formats, whose single plane interleaves the channels). *)
Record AudioFrame : Type := mk_AudioFrame {
  frame_rows : nat;
  frame_columns : nat;
  frame_data : list sample
}.

(** [frame.to_ndarray()] *)
Definition to_ndarray (frame : AudioFrame) : ndarray :=
  mk_ndarray [frame_rows frame; frame_columns frame] (frame_data frame).

(** An [N] by 2 array whose data has the size its shape announces. *)
Definition stereo (a : ndarray) : Prop :=
  shape a = [len a; 2] /\ length (flat a) = len a * 2.

Definition is_stereo (a : ndarray) : bool :=
  shape_eqb (shape a) [len a; 2] && (length (flat a) =? len a * 2).

(** ** queue.Queue *)

Record Queue : Type := mk_Queue {
  maxsize : Z;
  items : list ndarray
}.

(** [queue.Queue(maxsize)] *)
Definition new_Queue (size : Z) : Queue := mk_Queue size [].

(** [Queue.full]: [0 < maxsize <= qsize]; a bound of zero or less means
    no bound. *)
Definition full (q : Queue) : bool :=
  (0 <? maxsize q)%Z && (maxsize q <=? Z.of_nat (length (items q)))%Z.

(** [Queue.get_nowait()] *)
Definition get_nowait : M Queue ndarray :=
  fun q =>
    match items q with
    | [] => (Raise Empty, q)
    | a :: rest => (Ok a, mk_Queue (maxsize q) rest)
    end.

(** One attempt of [Queue.put(item)]: [None] when the queue is full, in
    which case the caller stays blocked and the queue is as it was. *)
Definition put (item : ndarray) (q : Queue) : option Queue :=
  if full q then None else Some (mk_Queue (maxsize q) (items q ++ [item])).

End NumPy.

Arguments np_empty_0_2 {sample}.
Arguments new_Queue {sample} size.
Arguments get_nowait {sample}.

(** ** The outside world: sound device streams and threads *)

(** What the program does to the sound device and to its threads, as a
    history (newest event first).  A stream or a thread is named by the
    number it got when it was created. *)
Inductive event : Type :=
| StreamOpened (h : nat) (samplerate : Z) (channels : nat)
| StreamStarted (h : nat)
| StreamStopped (h : nat)
| StreamClosed (h : nat)
| ThreadStarted (t : nat) (start_time_seconds : QArith_base.Q)
| ThreadJoined (t : nat)
| ThreadExited (t : nat)
| ExitWorkerSet (b : bool).

Record world : Type := mk_world {
  hist : list event;
  next_stream : nat;
  next_thread : nat
}.

Definition world0 : world := mk_world [] 0 0.

Definition emit (e : event) : M world unit :=
  modify (fun w => mk_world (e :: hist w) (next_stream w) (next_thread w)).

(** [sd.OutputStream(samplerate=..., channels=..., callback=...)] *)
Definition sd_OutputStream (samplerate : Z) (channels : nat) : M world nat :=
  fun w =>
    let h := next_stream w in
    (Ok h, mk_world (StreamOpened h samplerate channels :: hist w)
                    (S h) (next_thread w)).

(** [threading.Thread(target=..., args=...)]: a new thread object, not
    started yet. *)
Definition threading_Thread : M world nat :=
  fun w =>
    let t := next_thread w in
    (Ok t, mk_world (hist w) (next_stream w) (S t)).

(** The streams that were opened and not closed since, and the threads
    that were started and have not ended since, after a history. *)
Fixpoint open_streams (h : list event) : list nat :=
  match h with
  | [] => []
  | StreamOpened s _ _ :: older => s :: open_streams older
  | StreamClosed s :: older => remove Nat.eq_dec s (open_streams older)
  | _ :: older => open_streams older
  end.

Fixpoint active_streams (h : list event) : list nat :=
  match h with
  | [] => []
  | StreamStarted s :: older => s :: active_streams older
  | StreamStopped s :: older => remove Nat.eq_dec s (active_streams older)
  | StreamClosed s :: older => remove Nat.eq_dec s (active_streams older)
  | _ :: older => active_streams older
  end.

Fixpoint live_threads (h : list event) : list nat :=
  match h with
  | [] => []
  | ThreadStarted t _ :: older => t :: live_threads older
  | ThreadJoined t :: older => remove Nat.eq_dec t (live_threads older)
  | ThreadExited t :: older => remove Nat.eq_dec t (live_threads older)
  | _ :: older => live_threads older
  end.

(** ** StreamingAudioPlayer *)

Section Player.

Variable sample : Type.
Variable zero : sample.

(** The attributes of the object.  [_audio_stream] is the handle of its
    output stream; [_leftover_buffer] is [None] or an array. *)
Record StreamingAudioPlayer : Type := mk_StreamingAudioPlayer {
  _queue : Queue sample;
  _audio_stream : nat;
  _leftover_buffer : option (ndarray sample)
}.

Definition set_leftover_buffer (v : option (ndarray sample)) : M StreamingAudioPlayer unit :=
  modify (fun self => mk_StreamingAudioPlayer (_queue self) (_audio_stream self) v).

Definition set_queue (q : Queue sample) (self : StreamingAudioPlayer) : StreamingAudioPlayer :=
  mk_StreamingAudioPlayer q (_audio_stream self) (_leftover_buffer self).

(** [StreamingAudioPlayer(sample_rate, queue_size)].  Both assertions come
    before anything is created. *)
Definition StreamingAudioPlayer_init (sample_rate queue_size : Z)
  : M world StreamingAudioPlayer :=
  assert (0 <? sample_rate)%Z ;;
  assert (0 <? queue_size)%Z ;;
  let q := new_Queue queue_size in
  h <- sd_OutputStream sample_rate 2 ;;
  emit (StreamStarted h) ;;
  ret (mk_StreamingAudioPlayer q h None).

(** A player as [__init__] leaves it: nothing queued, no leftover. *)
Definition fresh_player (size : Z) (h : nat) : StreamingAudioPlayer :=
  mk_StreamingAudioPlayer (new_Queue size) h None.

(** The default [queue_size=200]. *)
Definition default_queue_size : Z := 200.

(** How far a call to [add_audio] got: it returned, or it is still
    waiting inside [Queue.put] for a free slot. *)
Inductive put_status : Type := Returned | Waiting.

(** The assertion that opens [add_audio]:
    [assert audio_data.shape[1] == 2]. *)
Definition assert_two_columns {S : Type} (audio_data : ndarray sample) : M S unit :=
  columns <- lift (shape_at audio_data 1) ;;
  assert (columns =? 2).

(** [add_audio(audio_data)] *)
Definition add_audio (audio_data : ndarray sample) : M StreamingAudioPlayer put_status :=
  assert_two_columns audio_data ;;
  fun self =>
    match put audio_data (_queue self) with
    | Some q => (Ok Returned, set_queue q self)
    | None => (Ok Waiting, self)
    end.

(** [close()] *)
Definition close (self : StreamingAudioPlayer) : M world unit :=
  emit (StreamStopped (_audio_stream self)) ;;
  emit (StreamClosed (_audio_stream self)).

(** [self._queue.get_nowait()] *)
Definition queue_get_nowait : M StreamingAudioPlayer (ndarray sample) :=
  fun self =>
    match get_nowait (_queue self) with
    | (r, q) => (r, set_queue q self)
    end.

(** [try: body except queue.Empty: handler] *)
Definition try_except_Empty {S A : Type} (body handler : M S A) : M S A :=
  fun s =>
    match body s with
    | (Raise Empty, s') => handler s'
    | r => r
    end.

(** Lines 71 to 83 of [_audio_callback]: the buffer made of the leftover
    of the previous call, if it has rows, and of at most one chunk taken
    from the queue without waiting. *)
Definition accumulation_buffer : M StreamingAudioPlayer (ndarray sample) :=
  let buffer := np_empty_0_2 in
  self <- get ;;
  buffer <- match _leftover_buffer self with
            | Some leftover =>
                if 0 <? len leftover
                then stacked <- lift (vstack buffer leftover) ;;
                     set_leftover_buffer None ;;
                     ret stacked
                else ret buffer
            | None => ret buffer
            end ;;
  try_except_Empty
    (audio_data <- queue_get_nowait ;;
     lift (vstack buffer audio_data))
    (ret buffer).

(** [_audio_callback(outdata, frames, time, status)]: the returned array
    is [outdata] as the callback leaves it. *)
Definition _audio_callback (outdata : ndarray sample) : M StreamingAudioPlayer (ndarray sample) :=
  buffer <- accumulation_buffer ;;
  if len outdata <=? len buffer
  then out <- lift (assign_all outdata (rows_to buffer (len outdata))) ;;
       set_leftover_buffer (Some (rows_from buffer (len outdata))) ;;
       ret out
  else out <- lift (assign_rows_to outdata (len buffer) buffer) ;;
       ret (fill_rows_from out (len buffer) zero).

(** *** The object while __init__ runs

    Line 43 starts the stream, and from then on the sound device may call
    [_audio_callback]; [_leftover_buffer] is created at line 46 only.
    [Started] is the object in between, which has no such attribute yet;
    [Built] is the object that [__init__] returns. *)
Inductive construction : Type :=
| Started (q : Queue sample) (audio_stream : nat)
| Built (self : StreamingAudioPlayer).

(** Lines 35 to 43 of [__init__]. *)
Definition StreamingAudioPlayer_init_started (sample_rate queue_size : Z)
  : M world construction :=
  assert (0 <? sample_rate)%Z ;;
  assert (0 <? queue_size)%Z ;;
  let q := new_Queue queue_size in
  h <- sd_OutputStream sample_rate 2 ;;
  emit (StreamStarted h) ;;
  ret (Started q h).

(** Lines 46 to 48: [self._leftover_buffer = None]. *)
Definition create_leftover_buffer (c : construction) : construction :=
  match c with
  | Started q h => Built (mk_StreamingAudioPlayer q h None)
  | Built self => Built (mk_StreamingAudioPlayer (_queue self) (_audio_stream self) None)
  end.

(** [_audio_callback] on the object at either stage.  Of the attributes,
    [self._leftover_buffer] is read first, at line 74: on a [Started]
    object this raises [AttributeError], and nothing has been changed by
    then. *)
Definition _audio_callback_at (outdata : ndarray sample) (c : construction)
  : outcome (ndarray sample) * construction :=
  match c with
  | Started _ _ => (Raise AttributeError, c)
  | Built self =>
      match _audio_callback outdata self with
      | (r, self') => (r, Built self')
      end
  end.

(** ** YouTubeAudioPlayer *)

(** The attributes of the object.  [_sample_rate] is
    [self._audio_stream.sample_rate], fixed by the decoder when the object
    is built.  [_player] and [_exit_worker] do not exist before the first
    [play()]: they are [None] until then. *)
Record YouTubeAudioPlayer : Type := mk_YouTubeAudioPlayer {
  _CHUNK_SIZE : nat;
  _sample_rate : Z;
  _stream_thread : option nat;
  _player : option StreamingAudioPlayer;
  _exit_worker : option bool
}.

(** [YouTubeAudioPlayer(url)], given the sample rate of the audio stream
    that the resolver and the decoder found behind [url]. *)
Definition YouTubeAudioPlayer_init (sample_rate : Z) : YouTubeAudioPlayer :=
  mk_YouTubeAudioPlayer 1 sample_rate None None None.

(** The object together with the world it acts on. *)
Record program : Type := mk_program {
  self_ : YouTubeAudioPlayer;
  outside : world
}.

Definition program0 (sample_rate : Z) : program :=
  mk_program (YouTubeAudioPlayer_init sample_rate) world0.

Definition in_world {A : Type} (m : M world A) : M program A :=
  fun p =>
    match m (outside p) with
    | (r, w) => (r, mk_program (self_ p) w)
    end.

Definition set_player (v : StreamingAudioPlayer) : M program unit :=
  modify (fun p =>
    let s := self_ p in
    mk_program
      (mk_YouTubeAudioPlayer (_CHUNK_SIZE s) (_sample_rate s) (_stream_thread s)
                             (Some v) (_exit_worker s))
      (outside p)).

Definition set_stream_thread (t : nat) : M program unit :=
  modify (fun p =>
    let s := self_ p in
    mk_program
      (mk_YouTubeAudioPlayer (_CHUNK_SIZE s) (_sample_rate s) (Some t)
                             (_player s) (_exit_worker s))
      (outside p)).

(** [self._exit_worker = b]; the write is also put in the history, where
    its place among the other events can be read off. *)
Definition set_exit_worker (b : bool) : M program unit :=
  modify (fun p =>
    let s := self_ p in
    mk_program
      (mk_YouTubeAudioPlayer (_CHUNK_SIZE s) (_sample_rate s) (_stream_thread s)
                             (_player s) (Some b))
      (outside p)) ;;
  in_world (emit (ExitWorkerSet b)).

(** Reading [self._player]: an [AttributeError] while it does not exist. *)
Definition get_player : M program StreamingAudioPlayer :=
  fun p =>
    match _player (self_ p) with
    | Some v => (Ok v, p)
    | None => (Raise AttributeError, p)
    end.

(** [stop()].  [join()] returns once the thread has ended, which is what
    [ThreadJoined] records. *)
Definition stop : M program unit :=
  p <- get ;;
  match _stream_thread (self_ p) with
  | Some t =>
      set_exit_worker true ;;
      in_world (emit (ThreadJoined t)) ;;
      player <- get_player ;;
      in_world (close player)
  | None => ret tt
  end.

(** [play(start_time_seconds)].  The worker is the thread that runs
    [_stream_and_play(start_time_seconds)]; that it is a daemon thread
    plays no part here. *)
Definition play (start_time_seconds : QArith_base.Q) : M program unit :=
  stop ;;
  p <- get ;;
  player <- in_world (StreamingAudioPlayer_init (_sample_rate (self_ p))
                                                default_queue_size) ;;
  set_player player ;;
  set_exit_worker false ;;
  t <- in_world threading_Thread ;;
  set_stream_thread t ;;
  in_world (emit (ThreadStarted t start_time_seconds)).

(** What can happen to a [YouTubeAudioPlayer]: its two methods are
    called, or its worker thread ends by itself (end of the stream, a
    cancellation it has seen, an exception). *)
Inductive call : Type :=
| Play (start_time_seconds : QArith_base.Q)
| Stop
| WorkerEnds.

Definition worker_ends : M program unit :=
  p <- get ;;
  match live_threads (hist (outside p)) with
  | t :: _ => in_world (emit (ThreadExited t))
  | [] => ret tt
  end.

Definition do_call (c : call) : M program unit :=
  match c with
  | Play t => play t
  | Stop => stop
  | WorkerEnds => worker_ends
  end.

(** A sequence of calls; it stops at the first one that raises. *)
Fixpoint do_calls (cs : list call) : M program unit :=
  match cs with
  | [] => ret tt
  | c :: rest => do_call c ;; do_calls rest
  end.

(** ** The worker: _stream_and_play *)

(** The decoder is outside the program.  A packet is given as what
    [packet.decode()] yields (its frames, or the exception it raises),
    and the stream as the packets that [demux] produces after the seek.
    A completed [add_audio] is recorded in [sent]: how long the call
    waited for a free slot is decided by the consumer, not by this
    loop. *)
Record worker : Type := mk_worker {
  chunk : list (ndarray sample);
  sent : list (ndarray sample);
  reads : nat
}.

(** How a pass through a loop body ends: it falls through to the next
    iteration, or the function returns. *)
Inductive flow : Type := Continue | Return.

(** The number of frames in the packets that decode. *)
Definition frames_decoded (packets : list (outcome (list (AudioFrame sample)))) : nat :=
  fold_right (fun packet n =>
                match packet with
                | Ok frames => length frames + n
                | Raise _ => n
                end) 0 packets.

Section Worker.

(** [exit_worker_at k] is what the [k]-th read of [self._exit_worker]
    finds: the flag is written by the thread that calls [stop()]. *)
Variable exit_worker_at : nat -> bool.
Variable CHUNK_SIZE : nat.

Definition read_exit_worker : M worker bool :=
  fun w => (Ok (exit_worker_at (reads w)),
            mk_worker (chunk w) (sent w) (S (reads w))).

Definition chunk_append (a : ndarray sample) : M worker unit :=
  modify (fun w => mk_worker (chunk w ++ [a]) (sent w) (reads w)).

Definition chunk_clear : M worker unit :=
  modify (fun w => mk_worker [] (sent w) (reads w)).

(** [self._player.add_audio(audio_data_combined)], once it has returned. *)
Definition player_add_audio (a : ndarray sample) : M worker unit :=
  assert_two_columns a ;;
  modify (fun w => mk_worker (chunk w) (sent w ++ [a]) (reads w)).

(** [for x in xs: body(x)], where the body can [return] from the
    function. *)
Fixpoint for_each {A : Type} (body : A -> M worker flow) (xs : list A) : M worker flow :=
  match xs with
  | [] => ret Continue
  | x :: rest =>
      f <- body x ;;
      match f with
      | Return => ret Return
      | Continue => for_each body rest
      end
  end.

(** The body of [for frame in packet.decode():]. *)
Definition frame_body (frame : AudioFrame sample) : M worker flow :=
  exit <- read_exit_worker ;;
  if (exit : bool) then ret Return
  else
    let audio_data := to_ndarray frame in
    let audio_data := transpose audio_data in
    chunk_append audio_data ;;
    w <- get ;;
    (if length (chunk w) =? CHUNK_SIZE
     then audio_data_combined <- lift (np_concatenate (chunk w)) ;;
          player_add_audio audio_data_combined ;;
          chunk_clear
     else ret tt) ;;
    ret Continue.

(** The body of [for packet in self._container.demux(self._audio_stream):]. *)
Definition packet_body (packet : outcome (list (AudioFrame sample))) : M worker flow :=
  frames <- lift packet ;;
  for_each frame_body frames.

Definition for_packets (packets : list (outcome (list (AudioFrame sample)))) : M worker flow :=
  for_each packet_body packets.

(** [_stream_and_play(start_time_seconds)] on the packets the decoder
    yields from the seek point on; [chunk = []] at the start. *)
Definition _stream_and_play (packets : list (outcome (list (AudioFrame sample))))
  : outcome flow * worker :=
  for_packets packets (mk_worker [] [] 0).

(** The worker thread.  [play()] gives [_stream_and_play] to a
    [threading.Thread] as its target (lines 137 to 141).  The thread runs
    the target and ends when the target returns or raises: an exception
    of the target is caught by the thread and handed to
    [threading.excepthook], and reaches no other thread.  The result is
    what the hook was given, if anything, and the worker as the target
    left it. *)
Definition Thread_run (packets : list (outcome (list (AudioFrame sample))))
  : M program (option exn * worker) :=
  match _stream_and_play packets with
  | (r, w) =>
      worker_ends ;;
      ret (match r with
           | Ok _ => None
           | Raise e => Some e
           end, w)
  end.

End Worker.

End Player.

Arguments mk_StreamingAudioPlayer {sample}.
Arguments get_player {sample}.
Arguments stop {sample}.
Arguments play {sample}.
Arguments worker_ends {sample}.
Arguments do_call {sample}.
Arguments do_calls {sample}.
Arguments program0 {sample}.
Arguments YouTubeAudioPlayer_init {sample}.
Arguments StreamingAudioPlayer_init {sample}.
Arguments StreamingAudioPlayer_init_started {sample}.
Arguments accumulation_buffer {sample}.

(** ** Histories and sessions *)

Section Session.

Variable sample : Type.

(** The history in the order things happened. *)
Definition happened (p : program sample) : list event :=
  rev (hist (outside p)).

(** At most one worker thread alive, at most one output stream open, at
    most one started. *)
Definition at_most_one (h : list event) : Prop :=
  length (live_threads h) <= 1
  /\ length (open_streams h) <= 1
  /\ length (active_streams h) <= 1.

(** [P] held after every event of the history [h], and before the first. *)
Definition at_every_instant (P : list event -> Prop) (h : list event) : Prop :=
  forall newer older, h = newer ++ older -> P older.

(** [l] is empty, or it is exactly the one element [x] names. *)
Definition only (l : list nat) (x : option nat) : Prop :=
  l = [] \/ exists v, x = Some v /\ l = [v].

(** The stream of the current session: the one of [_player], once there
    is a thread. *)
Definition session_stream (s : YouTubeAudioPlayer sample) : option nat :=
  match _stream_thread s, _player s with
  | Some _, Some player => Some (_audio_stream player)
  | _, _ => None
  end.

(** What holds between any two calls: the only thread that may be alive
    is [_stream_thread], the only stream that may be open or started is
    the one of [_player], and there never was more than one of each. *)
Definition session_inv (rate : Z) (p : program sample) : Prop :=
  _sample_rate (self_ p) = rate
  /\ (forall t, _stream_thread (self_ p) = Some t ->
              exists player, _player (self_ p) = Some player)
  /\ only (live_threads (hist (outside p))) (_stream_thread (self_ p))
  /\ only (open_streams (hist (outside p))) (session_stream (self_ p))
  /\ only (active_streams (hist (outside p))) (session_stream (self_ p))
  /\ at_every_instant at_most_one (hist (outside p)).

(** The state [stop()] leaves when there is a thread to join. *)
Definition stopped (p : program sample) (t : nat) (player : StreamingAudioPlayer sample) : program sample :=
  mk_program
    (mk_YouTubeAudioPlayer (_CHUNK_SIZE (self_ p)) (_sample_rate (self_ p))
       (Some t) (Some player) (Some true))
    (mk_world
       (StreamClosed (_audio_stream player) :: StreamStopped (_audio_stream player)
          :: ThreadJoined t :: ExitWorkerSet true :: hist (outside p))
       (next_stream (outside p)) (next_thread (outside p))).

(** The state the second half of [play()] leaves, from the state [p]
    that its call of [stop()] left. *)
Definition started (p : program sample) (start_time_seconds : QArith_base.Q) : program sample :=
  let w := outside p in
  mk_program
    (mk_YouTubeAudioPlayer (_CHUNK_SIZE (self_ p)) (_sample_rate (self_ p))
       (Some (next_thread w))
       (Some (fresh_player sample default_queue_size (next_stream w)))
       (Some false))
    (mk_world
       (ThreadStarted (next_thread w) start_time_seconds
          :: ExitWorkerSet false
          :: StreamStarted (next_stream w)
          :: StreamOpened (next_stream w) (_sample_rate (self_ p)) 2
          :: hist w)
       (S (next_stream w)) (S (next_thread w))).

(** How many times the stream [h] was closed in a history. *)
Fixpoint times_closed (h : nat) (l : list event) : nat :=
  match l with
  | [] => 0
  | StreamClosed h' :: older =>
      (if h =? h' then 1 else 0) + times_closed h older
  | _ :: older => times_closed h older
  end.

End Session.

(** The state after [play(0)] and [stop()] on a new player. *)
Definition played_and_stopped : program Z :=
  snd (do_calls [Play (QArith_base.Qmake 0 1); Stop] (program0 44100)).

(** ** Runs of the delivery pipeline *)

Section Delivery.

Variable sample : Type.
Variable zero : sample.

(** The two things that happen to a [StreamingAudioPlayer] while it
    plays: the producer's [add_audio(chunk)] returns, or the sound device
    calls [_audio_callback] with a block [outdata] to fill. *)
Inductive action : Type :=
| Enqueue (chunk : ndarray sample)
| Request (outdata : ndarray sample).

(** One action carried out: the blocks it delivered to the device and the
    player afterwards.  [None] when the action raises, or when
    [add_audio] has to wait (the producer then stays where it is, and the
    action is not part of the run at this point). *)
Definition step (a : action) (self : StreamingAudioPlayer sample)
  : option (list (ndarray sample) * StreamingAudioPlayer sample) :=
  match a with
  | Enqueue c =>
      match add_audio c self with
      | (Ok Returned, self') => Some ([], self')
      | _ => None
      end
  | Request outdata =>
      match _audio_callback zero outdata self with
      | (Ok out, self') => Some ([out], self')
      | _ => None
      end
  end.

Fixpoint run (acts : list action) (self : StreamingAudioPlayer sample)
  : option (list (ndarray sample) * StreamingAudioPlayer sample) :=
  match acts with
  | [] => Some ([], self)
  | a :: rest =>
      match step a self with
      | Some (o, self') =>
          match run rest self' with
          | Some (os, final) => Some (o ++ os, final)
          | None => None
          end
      | None => None
      end
  end.

(** A request underruns when the accumulation buffer is shorter than the
    block to fill. *)
Definition underruns (outdata : ndarray sample) (self : StreamingAudioPlayer sample) : bool :=
  match accumulation_buffer self with
  | (Ok buffer, _) => len buffer <? len outdata
  | (Raise _, _) => false
  end.

Fixpoint never_underruns (acts : list action) (self : StreamingAudioPlayer sample) : Prop :=
  match acts with
  | [] => True
  | a :: rest =>
      match a with
      | Request outdata => underruns outdata self = false
      | Enqueue _ => True
      end /\
      match step a self with
      | Some (_, self') => never_underruns rest self'
      | None => True
      end
  end.

(** The chunks a run enqueues, in order. *)
Definition enqueued (acts : list action) : list (ndarray sample) :=
  flat_map (fun a => match a with Enqueue c => [c] | Request _ => [] end) acts.

(** The samples of a sequence of arrays, one array after the other. *)
Definition samples_of (l : list (ndarray sample)) : list sample :=
  flat_map (@flat sample) l.

Definition leftover_samples (self : StreamingAudioPlayer sample) : list sample :=
  match _leftover_buffer self with
  | Some l => flat l
  | None => []
  end.

(** The samples of the chunk at the head of the queue, if there is one. *)
Definition head_samples (q : Queue sample) : list sample :=
  match items q with
  | [] => []
  | c :: _ => flat c
  end.

(** What the player holds and has not delivered yet. *)
Definition pending (self : StreamingAudioPlayer sample) : list sample :=
  leftover_samples self ++ samples_of (items (_queue self)).

(** The leftover slot holds no frame: it is [None] or an array without
    rows and without data. *)
Definition holds_no_frames (slot : option (ndarray sample)) : Prop :=
  match slot with
  | None => True
  | Some l => len l = 0 /\ flat l = []
  end.

(** The arrays a player holds are all [N] by 2. *)
Definition player_ok (self : StreamingAudioPlayer sample) : Prop :=
  match _leftover_buffer self with
  | Some l => stereo l
  | None => True
  end /\ Forall (@stereo sample) (items (_queue self)).

(** [n] callbacks in a row, each for a block shaped like [outdata], with
    no [add_audio] in between. *)
Fixpoint callbacks (n : nat) (outdata : ndarray sample) (self : StreamingAudioPlayer sample)
  : option (list (ndarray sample) * StreamingAudioPlayer sample) :=
  match n with
  | 0 => Some ([], self)
  | S n' =>
      match _audio_callback zero outdata self with
      | (Ok out, self') =>
          match callbacks n' outdata self' with
          | Some (outs, final) => Some (out :: outs, final)
          | None => None
          end
      | (Raise _, _) => None
      end
  end.

(** The slot after lines 74 to 76: a leftover with rows has been taken
    out, anything else stays. *)
Definition slot_after_take (slot : option (ndarray sample)) : option (ndarray sample) :=
  match slot with
  | Some l => if 0 <? len l then None else Some l
  | None => None
  end.

Definition rows_of_slot (slot : option (ndarray sample)) : nat :=
  match slot with
  | Some l => len l
  | None => 0
  end.

Definition head_rows (q : Queue sample) : nat :=
  match items q with
  | [] => 0
  | c :: _ => len c
  end.

(** The player of the scenario: chunks [A] and [B] queued, in this order,
    in a queue of capacity 2, and no leftover. *)
Definition scenario_player (A B : ndarray sample) : StreamingAudioPlayer sample :=
  mk_StreamingAudioPlayer (mk_Queue 2 [A; B]) 0 None.

(** Nothing queued and no frame left over. *)
Definition drained (self : StreamingAudioPlayer sample) : Prop :=
  items (_queue self) = [] /\ holds_no_frames (_leftover_buffer self).

(** A block of silence shaped like [outdata]. *)
Definition silent_block (outdata : ndarray sample) : ndarray sample :=
  mk_ndarray (shape outdata) (repeat zero (len outdata * 2)).

(** What is left to play, as a number that every callback lowers: the
    rows of the leftover, and for each queued chunk its rows and one
    more. *)
Definition backlog (self : StreamingAudioPlayer sample) : nat :=
  rows_of_slot (_leftover_buffer self)
  + fold_right (fun c n => S (len c + n)) 0 (items (_queue self)).

End Delivery.

Arguments Enqueue {sample}.
Arguments Request {sample}.

(** ** What a block carries *)

Section Payload.

Variable sample : Type.
Variable zero : sample.

(** The rows of a block that the callback fills from the accumulation
    buffer; the rows after them, if any, are the zero fill. *)
Definition payload_rows (outdata : ndarray sample) (self : StreamingAudioPlayer sample) : nat :=
  match accumulation_buffer self with
  | (Ok buffer, _) => Nat.min (len outdata) (len buffer)
  | (Raise _, _) => 0
  end.

(** The samples an action hands to the device that come from enqueued
    audio. *)
Definition payload (a : action sample) (self : StreamingAudioPlayer sample) : list sample :=
  match a with
  | Enqueue _ => []
  | Request outdata =>
      match _audio_callback zero outdata self with
      | (Ok out, _) => firstn (payload_rows outdata self * 2) (flat out)
      | (Raise _, _) => []
      end
  end.

(** The audio a run hands to the device, the zero fill left out. *)
Fixpoint audio_delivered (acts : list (action sample)) (self : StreamingAudioPlayer sample)
  : list sample :=
  match acts with
  | [] => []
  | a :: rest =>
      payload a self
      ++ match step zero a self with
         | Some (_, self') => audio_delivered rest self'
         | None => []
         end
  end.

(** A chunk shorter than the block, followed by the zero fill. *)
Definition padded (outdata c : ndarray sample) : ndarray sample :=
  mk_ndarray (shape outdata) (flat c ++ repeat zero ((len outdata - len c) * 2)).

(** The rows of a sequence of chunks. *)
Definition total_rows (l : list (ndarray sample)) : nat :=
  fold_right (fun c n => len c + n) 0 l.

End Payload.

(** ** Decoded frames *)

Section Frames.

Variable sample : Type.

(** A frame in a planar stereo format: two planes, left then right, of
    [frame_columns] samples each. *)
Definition planar_stereo (f : AudioFrame sample) : Prop :=
  frame_rows f = 2 /\ length (frame_data f) = 2 * frame_columns f.

(** Left and right samples in turn. *)
Fixpoint interleave (l r : list sample) : list sample :=
  match l, r with
  | x :: l', y :: r' => x :: y :: interleave l' r'
  | _, _ => []
  end.

(** Lines 167 and 168: [frame.to_ndarray().transpose()]. *)
Definition frame_audio (f : AudioFrame sample) : ndarray sample :=
  transpose (to_ndarray f).

(** The frames of the packets that decode, in stream order. *)
Definition frames_of (packets : list (outcome (list (AudioFrame sample))))
  : list (AudioFrame sample) :=
  flat_map (fun packet => match packet with
                          | Ok frames => frames
                          | Raise _ => []
                          end) packets.

(** A two-dimensional array whose second dimension is not 2. *)
Definition not_two_wide (a : ndarray sample) : Prop :=
  match shape a with
  | [_; columns] => columns <> 2
  | _ => False
  end.

(** The worker has seen the frames [seen] and cut them into chunks of
    [CHUNK_SIZE] frames: the chunks it has enqueued and the frames that
    wait in [chunk] are stereo arrays and hold, in order, the audio of
    the frames seen; fewer than [CHUNK_SIZE] frames wait. *)
Definition chunked (CHUNK_SIZE : nat) (seen : list (AudioFrame sample))
    (w : worker sample) : Prop :=
  Forall (@stereo sample) (sent w)
  /\ Forall (@stereo sample) (chunk w)
  /\ samples_of (sent w) ++ samples_of (chunk w)
     = flat_map (fun f => flat (frame_audio f)) seen
  /\ length (sent w) * CHUNK_SIZE + length (chunk w) = length seen
  /\ length (chunk w) < CHUNK_SIZE.

End Frames.

(** ** manual_test.py *)

Section ManualTest.

Variable sample : Type.

(** Python's [float(s)] on a line typed by the user: the number, or the
    [ValueError] it raises. *)
Variable float : String.string -> outcome QArith_base.Q.

(** A line that the loop passes on to [play]: it is not [exit], and
    [float] makes a number of it. *)
Definition seeks (line : String.string) (t : QArith_base.Q) : Prop :=
  line <> "exit"%string /\ float line = Ok t.

(** How the prompt loop ends when no exception ends it: by [break] after
    the line [exit], or because [input()] has no more line to give (the
    [EOFError] it raises then is caught nowhere). *)
Inductive main_end : Type := Exited | EndOfInput.

(** The loop [while True: ...] on the lines that [input()] returns one
    after the other. *)
Fixpoint main_loop (lines : list String.string) : M (program sample) main_end :=
  match lines with
  | [] => ret EndOfInput
  | seek_time_seconds :: rest =>
      if negb (String.eqb seek_time_seconds "exit"%string)
      then t <- lift (float seek_time_seconds) ;;
           play t ;;
           main_loop rest
      else stop ;;
           ret Exited
  end.

(** The program, for a player whose decoder reports [sample_rate]. *)
Definition main (sample_rate : Z) (lines : list String.string)
  : outcome main_end * program sample :=
  main_loop lines (program0 sample_rate).

End ManualTest.

(** ** Concrete data

    Small arrays and states on which the statements below are
    exercised.  Samples are integers here. *)

(** Two chunks of three stereo frames. *)
Definition chunkA : ndarray Z := mk_ndarray [3; 2] [1; 2; 3; 4; 5; 6]%Z.

Definition chunkB : ndarray Z := mk_ndarray [3; 2] [7; 8; 9; 10; 11; 12]%Z.

(** [n] stereo frames that all hold the value [v]. *)
Definition tone (v : Z) (n : nat) : ndarray Z :=
  mk_ndarray [n; 2] (repeat v (n * 2)).

(** A block of [n] frames as the device hands it to the callback, still
    holding stale data. *)
Definition block (n : nat) : ndarray Z := tone 99 n.

(** A player with [chunkA] queued, and what is left of it once the
    callback has taken the chunk. *)
Definition demo_player : StreamingAudioPlayer Z :=
  mk_StreamingAudioPlayer (mk_Queue 200 [chunkA]) 0 None.

Definition demo_player_taken : StreamingAudioPlayer Z :=
  mk_StreamingAudioPlayer (mk_Queue 200 []) 0 None.

(** Two chunks enqueued, then three blocks of two frames requested. *)
Definition demo_acts : list (action Z) :=
  [Enqueue chunkA; Enqueue chunkB;
   Request (block 2); Request (block 2); Request (block 2)].

Definition demo_outs : list (ndarray Z) :=
  [mk_ndarray [2; 2] [1; 2; 3; 4]%Z;
   mk_ndarray [2; 2] [5; 6; 7; 8]%Z;
   mk_ndarray [2; 2] [9; 10; 11; 12]%Z].

Definition demo_final : StreamingAudioPlayer Z :=
  mk_StreamingAudioPlayer (mk_Queue 200 []) 0 (Some (mk_ndarray [0; 2] [])).

(** The state after [play(0)] on a new player. *)
Definition playing : program Z :=
  snd (do_calls [Play (QArith_base.Qmake 0 1)] (program0 44100)).

(** Two decoded frames: two planes of three samples each. *)
Definition frameA : AudioFrame Z := mk_AudioFrame 2 3 [1; 3; 5; 2; 4; 6]%Z.

Definition frameB : AudioFrame Z := mk_AudioFrame 2 3 [7; 9; 11; 8; 10; 12]%Z.

(** The flag is found clear three times and set from then on. *)
Definition set_at_third_read (k : nat) : bool := 3 <=? k.

Definition never_set (k : nat) : bool := false.

(** The worker after two packets, of two frames and of one, with chunks
    of two frames: one chunk enqueued, one frame waiting. *)
Definition demo_worker : worker Z :=
  mk_worker [mk_ndarray [3; 2] [1; 2; 3; 4; 5; 6]%Z]
            [mk_ndarray [6; 2] [1; 2; 3; 4; 5; 6; 7; 8; 9; 10; 11; 12]%Z]
            3.

(** A run with two underruns: the first block is asked for when only
    [chunkA] is there, the last one when one frame is left. *)
Definition demo_acts_short : list (action Z) :=
  [Enqueue chunkA; Request (block 4); Enqueue chunkB;
   Request (block 2); Request (block 2)].

Definition demo_outs_short : list (ndarray Z) :=
  [mk_ndarray [4; 2] [1; 2; 3; 4; 5; 6; 0; 0]%Z;
   mk_ndarray [2; 2] [7; 8; 9; 10]%Z;
   mk_ndarray [2; 2] [11; 12; 0; 0]%Z].

(** A player with both chunks queued. *)
Definition demo_player2 : StreamingAudioPlayer Z :=
  mk_StreamingAudioPlayer (mk_Queue 200 [chunkA; chunkB]) 0 None.

(** A frame of a mono stream: one plane of three samples. *)
Definition frameMono : AudioFrame Z := mk_AudioFrame 1 3 [1; 2; 3]%Z.

(** A [float] that knows two numbers. *)
Definition demo_float (line : String.string) : outcome QArith_base.Q :=
  if String.eqb line "0"%string then Ok (QArith_base.Qmake 0 1)
  else if String.eqb line "50"%string then Ok (QArith_base.Qmake 50 1)
  else Raise ValueError.

(** An array of three dimensions whose second dimension is 2. *)
Definition cube : ndarray Z := mk_ndarray [1; 2; 2] [1; 2; 3; 4]%Z.

(** A player whose queue of capacity 2 is full. *)
Definition demo_player_full : StreamingAudioPlayer Z :=
  mk_StreamingAudioPlayer (mk_Queue 2 [chunkA; chunkB]) 0 None.

(** * Properties *)

(** ** Shapes and stereo arrays *)

Lemma shape_eqb_refl (s : list nat) : shape_eqb s s = true.
Proof.
  induction s as [|a s IH]; simpl; [reflexivity|].
  now rewrite Nat.eqb_refl, IH.
Qed.

Lemma shape_eqb_eq (s1 s2 : list nat) : shape_eqb s1 s2 = true <-> s1 = s2.
Proof.
  split; [|intros ->; apply shape_eqb_refl].
  revert s2; induction s1 as [|a s1 IH]; intros [|b s2]; simpl;
    try reflexivity; try discriminate.
  intros H. apply andb_prop in H as [Hab Hs].
  apply Nat.eqb_eq in Hab. apply IH in Hs. congruence.
Qed.

Section DeliveryFacts.

Variable sample : Type.
Variable zero : sample.

Implicit Types (a b buffer outdata : ndarray sample).
Implicit Types (self : StreamingAudioPlayer sample).

Lemma is_stereo_spec a : is_stereo a = true <-> stereo a.
Proof.
  unfold is_stereo, stereo. rewrite andb_true_iff, shape_eqb_eq, Nat.eqb_eq.
  tauto.
Qed.

Lemma stereo_intro (n : nat) (l : list sample) :
  length l = n * 2 -> stereo (mk_ndarray [n; 2] l).
Proof. intros H. split; simpl; [reflexivity | exact H]. Qed.

Lemma stereo_row_size a : stereo a -> row_size a = 2.
Proof. intros [Hs _]. unfold row_size. rewrite Hs. reflexivity. Qed.

Lemma stereo_no_rows a : stereo a -> len a = 0 -> flat a = [].
Proof.
  intros [_ Hl] H0. rewrite H0 in Hl. now apply length_zero_iff_nil.
Qed.

Lemma stereo_empty : stereo (@np_empty_0_2 sample).
Proof. now apply stereo_intro. Qed.

Lemma stereo_inv a :
  stereo a -> exists n l, a = mk_ndarray [n; 2] l /\ length l = n * 2.
Proof.
  destruct a as [s l]. unfold stereo, len. simpl. intros [Hs Hl].
  exists (hd 0 s), l. split; [congruence | exact Hl].
Qed.

Lemma vstack_stereo a b :
  stereo a -> stereo b ->
  vstack a b = Ok (mk_ndarray [len a + len b; 2] (flat a ++ flat b)).
Proof.
  intros Ha Hb.
  destruct (stereo_inv Ha) as (n & l & -> & _).
  destruct (stereo_inv Hb) as (n' & l' & -> & _).
  reflexivity.
Qed.

Lemma stereo_rows_from a n : stereo a -> stereo (rows_from a n).
Proof.
  intros Ha. pose proof (stereo_row_size Ha) as Hr. destruct Ha as [Hs Hl].
  unfold rows_from. rewrite Hr, Hs. simpl. apply stereo_intro.
  rewrite length_skipn, Hl. lia.
Qed.

(** ** The accumulation buffer *)

(** On a well-formed player the first half of the callback never raises:
    it yields the leftover followed by the head chunk, takes that chunk
    (and only that one) off the queue, and empties the leftover slot. *)
Lemma accumulation_buffer_spec self :
  player_ok self ->
  exists buffer,
    accumulation_buffer self =
      (Ok buffer,
       mk_StreamingAudioPlayer
         (mk_Queue (maxsize (_queue self)) (tl (items (_queue self))))
         (_audio_stream self)
         (slot_after_take (_leftover_buffer self)))
    /\ stereo buffer
    /\ flat buffer = leftover_samples self ++ head_samples (_queue self)
    /\ len buffer = rows_of_slot (_leftover_buffer self) + head_rows (_queue self).
Proof.
  destruct self as [[m its] h slot]. unfold player_ok, leftover_samples,
    head_samples, head_rows. simpl. intros [Hslot Hits].
  assert (Hhead : match its with [] => True | c :: _ => stereo c end)
    by (destruct Hits; trivial).
  clear Hits.
  unfold accumulation_buffer, try_except_Empty, queue_get_nowait, get_nowait,
    set_leftover_buffer, set_queue. run_monad.
  destruct slot as [l|]; simpl.
  - destruct (stereo_inv Hslot) as (n & fl & -> & Hfl). unfold len. simpl.
    destruct (0 <? n) eqn:Hrows; simpl.
    + destruct its as [|c its']; simpl.
      * eexists; repeat split; simpl; try reflexivity.
        -- exact Hfl.
        -- now rewrite app_nil_r.
        -- unfold len; simpl; lia.
      * destruct (stereo_inv Hhead) as (n' & fl' & -> & Hfl'). simpl.
        eexists; repeat split; simpl; try reflexivity.
        rewrite length_app. unfold len. simpl. lia.
    + apply Nat.ltb_ge in Hrows. assert (H0 : n = 0) by lia. subst n.
      apply length_zero_iff_nil in Hfl. subst fl.
      destruct its as [|c its']; simpl.
      * eexists; repeat split; simpl; reflexivity.
      * destruct (stereo_inv Hhead) as (n' & fl' & -> & Hfl'). simpl.
        eexists; repeat split; simpl; try reflexivity. exact Hfl'.
  - destruct its as [|c its']; simpl.
    + eexists; repeat split; simpl; reflexivity.
    + destruct (stereo_inv Hhead) as (n' & fl' & -> & Hfl'). simpl.
      eexists; repeat split; simpl; try reflexivity. exact Hfl'.
Qed.

Lemma slot_after_take_holds_no_frames (slot : option (ndarray sample)) :
  match slot with Some l => stereo l | None => True end ->
  holds_no_frames (slot_after_take slot).
Proof.
  destruct slot as [l|]; simpl; [|trivial].
  intros Hl. destruct (0 <? len l) eqn:Hrows; simpl; [trivial|].
  apply Nat.ltb_ge in Hrows. assert (H0 : len l = 0) by lia.
  split; [exact H0 | now apply stereo_no_rows].
Qed.

(** ** The two branches of the callback *)

(** Enough data: whatever the shape of [outdata], a callback that returns
    has written the first rows of the buffer and kept the others. *)
Lemma callback_enough self outdata buffer self1 out self' :
  accumulation_buffer self = (Ok buffer, self1) ->
  len outdata <= len buffer ->
  _audio_callback zero outdata self = (Ok out, self') ->
  out = mk_ndarray (shape outdata) (firstn (len outdata * row_size buffer) (flat buffer))
  /\ self' = mk_StreamingAudioPlayer (_queue self1) (_audio_stream self1)
                (Some (rows_from buffer (len outdata))).
Proof.
  intros Hacc Hle. unfold _audio_callback, set_leftover_buffer. run_monad.
  rewrite Hacc. apply Nat.leb_le in Hle. rewrite Hle.
  unfold assign_all. simpl.
  destruct (shape_eqb _ _); simpl; intros H; inversion H; subst.
  split; reflexivity.
Qed.

(** Enough data, on a block of the stream's shape: the callback returns. *)
Lemma callback_enough_returns self outdata buffer self1 :
  accumulation_buffer self = (Ok buffer, self1) ->
  stereo buffer ->
  shape outdata = [len outdata; 2] ->
  len outdata <= len buffer ->
  _audio_callback zero outdata self =
    (Ok (mk_ndarray (shape outdata) (firstn (len outdata * 2) (flat buffer))),
     mk_StreamingAudioPlayer (_queue self1) (_audio_stream self1)
       (Some (rows_from buffer (len outdata)))).
Proof.
  intros Hacc Hb Hout Hle. unfold _audio_callback, set_leftover_buffer. run_monad.
  rewrite Hacc. pose proof Hle as Hle'. apply Nat.leb_le in Hle'. rewrite Hle'.
  unfold assign_all, rows_to. simpl. rewrite (stereo_row_size Hb).
  destruct Hb as [Hs _]. rewrite Hs at 1. simpl.
  rewrite Nat.min_l by exact Hle. rewrite Hout at 1.
  rewrite shape_eqb_refl. reflexivity.
Qed.

(** Not enough data: the buffer, then zeros up to the end of the block;
    the player is as the first half of the callback left it. *)
Lemma callback_underrun self outdata buffer self1 :
  accumulation_buffer self = (Ok buffer, self1) ->
  stereo buffer ->
  shape outdata = [len outdata; 2] ->
  len buffer < len outdata ->
  _audio_callback zero outdata self =
    (Ok (mk_ndarray (shape outdata)
           (flat buffer ++ repeat zero ((len outdata - len buffer) * 2))),
     self1).
Proof.
  intros Hacc Hb Hout Hlt. unfold _audio_callback. run_monad.
  rewrite Hacc. pose proof Hlt as Hlt'. apply Nat.leb_gt in Hlt'. rewrite Hlt'.
  destruct (stereo_inv Hb) as (k & fl & -> & Hfl).
  destruct outdata as [so fo]. unfold len in *. simpl in *.
  unfold assign_rows_to, rows_to, fill_rows_from, len, row_size. simpl.
  rewrite Hout. simpl. rewrite Nat.min_l by lia.
  rewrite !Nat.eqb_refl. simpl.
  rewrite firstn_app, firstn_all2 by lia.
  replace (k * 2 - length fl) with 0 by lia. simpl. rewrite app_nil_r.
  reflexivity.
Qed.

(** ** Underrun *)

(** C3.  A callback asked for [len outdata] frames whose accumulation
    buffer has only [len buffer] of them, fewer than asked, returns a
    block that starts with the frames of the buffer and is zero from
    there to its end, whatever [outdata] held before; afterwards the
    leftover slot holds no frame.  With an empty queue and a leftover
    slot that holds no frame the whole block is zero. *)
Theorem underrun_is_silence self outdata buffer self1 :
  player_ok self ->
  shape outdata = [len outdata; 2] ->
  accumulation_buffer self = (Ok buffer, self1) ->
  len buffer < len outdata ->
  exists out self',
    _audio_callback zero outdata self = (Ok out, self')
    /\ shape out = shape outdata
    /\ length (flat out) = len outdata * 2
    /\ firstn (len buffer * 2) (flat out) = flat buffer
    /\ skipn (len buffer * 2) (flat out)
       = repeat zero ((len outdata - len buffer) * 2)
    /\ holds_no_frames (_leftover_buffer self')
    /\ (items (_queue self) = [] -> holds_no_frames (_leftover_buffer self) ->
        flat out = repeat zero (len outdata * 2)).
Proof.
  intros Hok Hout Hacc Hlt.
  destruct (accumulation_buffer_spec Hok) as (b & Hb & Hst & Hflat & Hlen).
  rewrite Hacc in Hb. inversion Hb; subst b self1. clear Hb.
  rewrite (callback_underrun self outdata Hacc Hst Hout Hlt).
  destruct Hst as [_ Hfl].
  eexists _, _. split; [reflexivity|]. simpl.
  repeat split.
  - rewrite length_app, repeat_length, Hfl. nia.
  - rewrite firstn_app, firstn_all2 by lia.
    replace (len buffer * 2 - length (flat buffer)) with 0 by lia.
    simpl. apply app_nil_r.
  - rewrite skipn_app, skipn_all2 by lia.
    replace (len buffer * 2 - length (flat buffer)) with 0 by lia.
    reflexivity.
  - apply slot_after_take_holds_no_frames, Hok.
  - intros Hq Hslot. rewrite Hflat. unfold leftover_samples, head_samples.
    unfold rows_of_slot, head_rows in Hlen. rewrite Hq in Hlen |- *.
    destruct (_leftover_buffer self) as [l|]; simpl in Hslot, Hlen |- *.
    + destruct Hslot as [Hrows ->]. rewrite Hlen, Hrows. simpl.
      rewrite Nat.sub_0_r. reflexivity.
    + rewrite Hlen, Nat.sub_0_r. reflexivity.
Qed.

(** ** Leftover *)

(** C2.  A callback asked for [len outdata] frames whose accumulation
    buffer is longer writes the first [len outdata] frames of the buffer
    and stores the others as the leftover; at the next call, whatever the
    queue then holds, the accumulation buffer starts with exactly these
    frames, and the chunk fetched by that call, if any, comes after
    them. *)
Theorem leftover_carries_over self outdata buffer self1 :
  player_ok self ->
  shape outdata = [len outdata; 2] ->
  accumulation_buffer self = (Ok buffer, self1) ->
  len outdata < len buffer ->
  exists out self' leftover,
    _audio_callback zero outdata self = (Ok out, self')
    /\ flat out = firstn (len outdata * 2) (flat buffer)
    /\ length (flat out) = len outdata * 2
    /\ _leftover_buffer self' = Some leftover
    /\ len leftover = len buffer - len outdata
    /\ flat leftover = skipn (len outdata * 2) (flat buffer)
    /\ forall q : Queue sample,
         Forall (@stereo sample) (items q) ->
         exists buffer' self2,
           accumulation_buffer (set_queue q self') = (Ok buffer', self2)
           /\ flat buffer' = flat leftover ++ head_samples q
           /\ len buffer' = len leftover + head_rows q
           /\ items (_queue self2) = tl (items q).
Proof.
  intros Hok Hout Hacc Hlt.
  destruct (accumulation_buffer_spec Hok) as (b & Hb & Hst & _ & _).
  rewrite Hacc in Hb. inversion Hb; subst b self1. clear Hb.
  assert (Hle : len outdata <= len buffer) by lia.
  rewrite (callback_enough_returns self outdata Hacc Hst Hout Hle).
  pose proof (stereo_rows_from (len outdata) Hst) as Hleft.
  pose proof (stereo_row_size Hst) as Hrs.
  eexists _, _, (rows_from buffer (len outdata)).
  split; [reflexivity|]. simpl.
  split; [reflexivity|].
  split. { rewrite length_firstn. destruct Hst as [_ Hfl]. lia. }
  split; [reflexivity|].
  split; [reflexivity|].
  split. { now rewrite Hrs. }
  intros q Hq.
  set (next := set_queue q _).
  assert (Hnext : player_ok next) by (split; [exact Hleft | exact Hq]).
  destruct (accumulation_buffer_spec Hnext) as (b' & Hb' & _ & Hflat' & Hlen').
  exists b'. eexists. split; [exact Hb'|].
  split; [exact Hflat' | split; [exact Hlen' | reflexivity]].
Qed.

(** ** Conservation of frames along a run *)

Lemma samples_of_app (l1 l2 : list (ndarray sample)) :
  samples_of (l1 ++ l2) = samples_of l1 ++ samples_of l2.
Proof. unfold samples_of. apply flat_map_app. Qed.

Lemma pending_head_tail self :
  pending self
  = (leftover_samples self ++ head_samples (_queue self))
      ++ samples_of (tl (items (_queue self))).
Proof.
  unfold pending, head_samples, samples_of.
  destruct (items (_queue self)); simpl.
  - now rewrite !app_nil_r.
  - now rewrite app_assoc.
Qed.

(** An [add_audio] that returns has appended its array to the queue. *)
Lemma add_audio_returned self c self' :
  add_audio c self = (Ok Returned, self') ->
  self' = set_queue (mk_Queue (maxsize (_queue self)) (items (_queue self) ++ [c])) self.
Proof.
  unfold add_audio, assert_two_columns, put. run_monad.
  destruct (shape_at c 1) as [n|e]; simpl; [|discriminate].
  destruct (n =? 2); simpl; [|discriminate].
  destruct (full (_queue self)); intros H; inversion H. reflexivity.
Qed.

(** One step of a run that does not underrun neither loses nor invents a
    sample. *)
Lemma step_conserves (a : action sample) self o self' :
  player_ok self ->
  Forall (@stereo sample) (enqueued [a]) ->
  step zero a self = Some (o, self') ->
  match a with
  | Request outdata => underruns outdata self = false
  | Enqueue _ => True
  end ->
  samples_of o ++ pending self' = pending self ++ samples_of (enqueued [a])
  /\ player_ok self'.
Proof.
  intros Hok Hst Hstep Hnu. destruct a as [c|outdata]; simpl in *.
  - destruct (add_audio c self) as [[[|]|] s2] eqn:Hadd; try discriminate.
    inversion Hstep; subst o s2. apply add_audio_returned in Hadd. subst self'.
    unfold pending, leftover_samples. simpl.
    rewrite samples_of_app, app_assoc. split; [reflexivity|].
    destruct Hok as [Hl Hq]. split; [exact Hl|]. simpl.
    apply Forall_app. split; [exact Hq | exact Hst].
  - destruct (_audio_callback zero outdata self) as [[out|] s2] eqn:Hcb;
      try discriminate.
    inversion Hstep; subst o s2. clear Hstep.
    destruct (accumulation_buffer_spec Hok) as (b & Hb & Hsb & Hflat & _).
    unfold underruns in Hnu. rewrite Hb in Hnu. apply Nat.ltb_ge in Hnu.
    destruct (callback_enough self outdata Hb Hnu Hcb) as [-> ->].
    rewrite (pending_head_tail self), <- Hflat.
    unfold pending, leftover_samples, samples_of. simpl.
    rewrite !app_nil_r, app_assoc, firstn_skipn.
    split; [reflexivity|]. split; simpl.
    + now apply stereo_rows_from.
    + destruct Hok as [_ Hq]. destruct (items (_queue self)); simpl;
        [constructor | now inversion Hq].
Qed.

Lemma enqueued_cons (a : action sample) (acts : list (action sample)) :
  enqueued (a :: acts) = enqueued [a] ++ enqueued acts.
Proof. unfold enqueued. simpl. now rewrite app_nil_r. Qed.

Lemma run_conserves (acts : list (action sample)) : forall self outs final,
  player_ok self ->
  Forall (@stereo sample) (enqueued acts) ->
  run zero acts self = Some (outs, final) ->
  never_underruns zero acts self ->
  samples_of outs ++ pending final = pending self ++ samples_of (enqueued acts)
  /\ player_ok final.
Proof.
  induction acts as [|a acts IH]; intros self outs final Hok Hst Hrun Hnu.
  - simpl in Hrun. inversion Hrun; subst. simpl. rewrite app_nil_r. now split.
  - simpl in Hrun, Hnu. destruct Hnu as [Hnow Hlater].
    destruct (step zero a self) as [[o s1]|] eqn:Hstep; [|discriminate].
    destruct (run zero acts s1) as [[os fin]|] eqn:Hrest; [|discriminate].
    inversion Hrun; subst outs fin. clear Hrun.
    rewrite enqueued_cons in Hst. apply Forall_app in Hst as [Hsta Hstr].
    destruct (step_conserves a Hok Hsta Hstep Hnow) as [Hone Hok1].
    destruct (IH s1 os final Hok1 Hstr Hrest Hlater) as [Hmany Hokf].
    split; [|exact Hokf].
    rewrite enqueued_cons, !samples_of_app, <- app_assoc, Hmany.
    rewrite !app_assoc. f_equal. exact Hone.
Qed.

(** C1.  Take a player as [__init__] leaves it and any run of completed
    [add_audio] calls and callbacks in which no callback underruns.  The
    frames written to the device, block after block, followed by the
    frames the player still holds (leftover, then queue), are the frames
    of the enqueued chunks in the order they were enqueued: nothing is
    lost, repeated or reordered.  Hence once the player holds nothing,
    what was written is exactly what was enqueued. *)
Theorem no_duplication_no_loss (acts : list (action sample)) (size : Z) (h : nat)
    (outs : list (ndarray sample)) (final : StreamingAudioPlayer sample) :
  Forall (@stereo sample) (enqueued acts) ->
  run zero acts (fresh_player sample size h) = Some (outs, final) ->
  never_underruns zero acts (fresh_player sample size h) ->
  samples_of outs ++ pending final = samples_of (enqueued acts)
  /\ (pending final = [] -> samples_of outs = samples_of (enqueued acts)).
Proof.
  intros Hst Hrun Hnu.
  assert (Hok : player_ok (fresh_player sample size h))
    by (split; simpl; [trivial | constructor]).
  destruct (run_conserves acts Hok Hst Hrun Hnu) as [Hcons _].
  unfold pending at 2 in Hcons. simpl in Hcons.
  split; [exact Hcons|].
  intros Hnone. rewrite Hnone, app_nil_r in Hcons. exact Hcons.
Qed.

(** ** One fetch per callback *)

(** On a well-formed player and a block of the stream's shape the callback
    always returns, with a full block; it has taken the head of the queue
    if there was one and nothing else, and the player is well formed
    again. *)
Lemma callback_total self outdata :
  player_ok self ->
  shape outdata = [len outdata; 2] ->
  exists out self',
    _audio_callback zero outdata self = (Ok out, self')
    /\ shape out = shape outdata
    /\ length (flat out) = len outdata * 2
    /\ _queue self' = mk_Queue (maxsize (_queue self)) (tl (items (_queue self)))
    /\ player_ok self'.
Proof.
  intros Hok Hout.
  destruct (accumulation_buffer_spec Hok) as (b & Hb & Hst & _ & _).
  assert (Htl : Forall (@stereo sample) (tl (items (_queue self)))).
  { destruct Hok as [_ Hq]. destruct (items (_queue self)); simpl;
      [constructor | now inversion Hq]. }
  destruct (Nat.le_gt_cases (len outdata) (len b)) as [Hle|Hlt].
  - rewrite (callback_enough_returns self outdata Hb Hst Hout Hle).
    eexists _, _. split; [reflexivity|]. simpl.
    split; [reflexivity|]. split.
    { rewrite length_firstn. destruct Hst as [_ Hfl]. lia. }
    split; [reflexivity|]. split; simpl; [|exact Htl].
    now apply stereo_rows_from.
  - rewrite (callback_underrun self outdata Hb Hst Hout Hlt).
    eexists _, _. split; [reflexivity|]. simpl.
    split; [reflexivity|]. split.
    { rewrite length_app, repeat_length. destruct Hst as [_ Hfl]. nia. }
    split; [reflexivity|]. split; simpl; [|exact Htl].
    destruct Hok as [Hl _]. destruct (_leftover_buffer self) as [l|]; simpl;
      [|trivial].
    destruct (0 <? len l); simpl; [trivial | exact Hl].
Qed.

(** C4, as the code has it.  A callback never waits: on a well-formed
    player it returns, having taken the head of the queue when there is
    one and nothing when the queue is empty.  With two chunks of 100
    frames queued and blocks of 150 frames, the first callback therefore
    has only chunk [A] to deliver: it writes [A] and then 50 frames of
    zeros, leaves no leftover and leaves [B] in the queue; the second
    writes [B] and then 50 frames of zeros. *)
Theorem one_fetch_per_callback (A B outdata : ndarray sample) :
  stereo A -> stereo B -> len A = 100 -> len B = 100 ->
  shape outdata = [150; 2] ->
  (forall self block,
      player_ok self -> shape block = [len block; 2] ->
      exists out self',
        _audio_callback zero block self = (Ok out, self')
        /\ items (_queue self') = tl (items (_queue self)))
  /\ exists out1 self1 out2 self2,
       _audio_callback zero outdata (scenario_player A B) = (Ok out1, self1)
       /\ flat out1 = flat A ++ repeat zero (50 * 2)
       /\ _leftover_buffer self1 = None
       /\ items (_queue self1) = [B]
       /\ _audio_callback zero outdata self1 = (Ok out2, self2)
       /\ flat out2 = flat B ++ repeat zero (50 * 2)
       /\ _leftover_buffer self2 = None
       /\ items (_queue self2) = [].
Proof.
  intros HA HB HlenA HlenB Hout. split.
  - intros self block Hok Hblock.
    destruct (callback_total block Hok Hblock) as (out & self' & Hcb & _ & _ & Hq & _).
    exists out, self'. split; [exact Hcb|]. rewrite Hq. reflexivity.
  - assert (Hshape : shape outdata = [len outdata; 2])
      by (unfold len; rewrite Hout; reflexivity).
    assert (Hlen : len outdata = 150) by (unfold len; rewrite Hout; reflexivity).
    assert (Hok0 : player_ok (scenario_player A B))
      by (split; simpl; [trivial | auto using Forall_cons, Forall_nil]).
    destruct (accumulation_buffer_spec Hok0) as (b1 & Hb1 & Hst1 & Hflat1 & Hlen1).
    simpl in Hb1, Hflat1, Hlen1. unfold head_rows in Hlen1. simpl in Hlen1.
    unfold leftover_samples, head_samples in Hflat1. simpl in Hflat1.
    assert (Hlt1 : len b1 < len outdata) by lia.
    pose proof (callback_underrun _ outdata Hb1 Hst1 Hshape Hlt1) as Hcb1.
    set (self1 := mk_StreamingAudioPlayer (mk_Queue 2 [B]) 0 None) in *.
    assert (Hok1 : player_ok self1)
      by (split; simpl; [trivial | auto using Forall_cons, Forall_nil]).
    destruct (accumulation_buffer_spec Hok1) as (b2 & Hb2 & Hst2 & Hflat2 & Hlen2).
    simpl in Hb2, Hflat2, Hlen2. unfold head_rows in Hlen2. simpl in Hlen2.
    unfold leftover_samples, head_samples in Hflat2. simpl in Hflat2.
    assert (Hlt2 : len b2 < len outdata) by lia.
    pose proof (callback_underrun _ outdata Hb2 Hst2 Hshape Hlt2) as Hcb2.
    eexists _, self1, _, _.
    split; [exact Hcb1|]. split.
    { simpl. rewrite Hflat1, Hlen1, Hlen, HlenA. reflexivity. }
    split; [reflexivity|]. split; [reflexivity|].
    split; [exact Hcb2|]. split.
    { simpl. rewrite Hflat2, Hlen2, Hlen, HlenB. reflexivity. }
    split; reflexivity.
Qed.

End DeliveryFacts.

(** ** The play/stop protocol *)

Lemma at_every_instant_nil (P : list event -> Prop) :
  P [] -> at_every_instant P [].
Proof.
  intros HP newer older H. symmetry in H. apply app_eq_nil in H as [_ ->].
  exact HP.
Qed.

Lemma at_every_instant_cons (P : list event -> Prop) (e : event) (h : list event) :
  P (e :: h) -> at_every_instant P h -> at_every_instant P (e :: h).
Proof.
  intros HP Hh newer older H. destruct newer as [|e' newer]; simpl in H.
  - subst older. exact HP.
  - inversion H; subst. eapply Hh. reflexivity.
Qed.

Lemma remove_the_one (t : nat) (l : list nat) :
  l = [] \/ l = [t] -> remove Nat.eq_dec t l = [].
Proof.
  intros [-> | ->]; simpl; [reflexivity|].
  destruct (Nat.eq_dec t t); [reflexivity | congruence].
Qed.

Section ControllerFacts.

Variable sample : Type.

Implicit Types (p : program sample) (w : world).

(** *** What [__init__], [stop] and [play] compute *)

Lemma StreamingAudioPlayer_init_ok (sample_rate queue_size : Z) w :
  (0 < sample_rate)%Z -> (0 < queue_size)%Z ->
  StreamingAudioPlayer_init (sample:=sample) sample_rate queue_size w
  = (Ok (fresh_player sample queue_size (next_stream w)),
     mk_world (StreamStarted (next_stream w)
                 :: StreamOpened (next_stream w) sample_rate 2 :: hist w)
              (S (next_stream w)) (next_thread w)).
Proof.
  intros Hr Hq. unfold StreamingAudioPlayer_init, sd_OutputStream, emit.
  run_monad. apply Z.ltb_lt in Hr, Hq. rewrite Hr, Hq. reflexivity.
Qed.

Lemma StreamingAudioPlayer_init_asserts (sample_rate queue_size : Z) w :
  (sample_rate <= 0 \/ queue_size <= 0)%Z ->
  StreamingAudioPlayer_init (sample:=sample) sample_rate queue_size w
  = (Raise AssertionError, w).
Proof.
  intros H. unfold StreamingAudioPlayer_init. run_monad.
  destruct (0 <? sample_rate)%Z eqn:Hr; simpl; [|reflexivity].
  destruct (0 <? queue_size)%Z eqn:Hq; simpl; [|reflexivity].
  apply Z.ltb_lt in Hr, Hq. lia.
Qed.

Lemma stop_idle p :
  _stream_thread (self_ p) = None -> stop p = (Ok tt, p).
Proof.
  destruct p as [[cs sr th pl ex] w]. simpl. intros ->. reflexivity.
Qed.

Lemma stop_joins p t player :
  _stream_thread (self_ p) = Some t ->
  _player (self_ p) = Some player ->
  stop p = (Ok tt, stopped p t player).
Proof.
  destruct p as [[cs sr th pl ex] w]. simpl. intros -> ->. reflexivity.
Qed.

Lemma play_after_stop p p1 (start_time_seconds : QArith_base.Q) :
  stop p = (Ok tt, p1) ->
  (0 < _sample_rate (self_ p1))%Z ->
  play start_time_seconds p = (Ok tt, started p1 start_time_seconds).
Proof.
  intros Hstop Hrate. unfold play. unfold bind at 1. rewrite Hstop.
  unfold set_player, set_exit_worker, set_stream_thread, in_world,
    threading_Thread, emit. run_monad.
  rewrite (@StreamingAudioPlayer_init_ok _ default_queue_size (outside p1) Hrate)
    by reflexivity.
  reflexivity.
Qed.

Lemma play_bad_rate p p1 (start_time_seconds : QArith_base.Q) :
  stop p = (Ok tt, p1) ->
  (_sample_rate (self_ p1) <= 0)%Z ->
  play start_time_seconds p = (Raise AssertionError, p1).
Proof.
  intros Hstop Hrate. unfold play. unfold bind at 1. rewrite Hstop.
  unfold in_world. run_monad.
  rewrite StreamingAudioPlayer_init_asserts by (left; exact Hrate).
  destruct p1; reflexivity.
Qed.

(** *** The session invariant *)

Lemma only_none (l : list nat) : only l None -> l = [].
Proof. intros [-> | (v & Hv & _)]; [reflexivity | discriminate]. Qed.

Lemma only_remove (l : list nat) (v : nat) :
  only l (Some v) -> remove Nat.eq_dec v l = [].
Proof.
  intros [-> | (v' & Hv & ->)]; apply remove_the_one; [now left|].
  right. congruence.
Qed.

Lemma session_inv_now (rate : Z) p :
  session_inv rate p -> at_most_one (hist (outside p)).
Proof.
  intros (_ & _ & _ & _ & _ & H). apply (H []). reflexivity.
Qed.

Lemma session_inv_program0 (rate : Z) : session_inv rate (@program0 sample rate).
Proof.
  unfold session_inv. simpl.
  split; [reflexivity|]. split; [discriminate|].
  split; [now left|]. split; [now left|]. split; [now left|].
  apply at_every_instant_nil. unfold at_most_one. simpl. lia.
Qed.

(** [stop()] always returns; afterwards no thread is alive and no stream
    is open, and the attributes other than the flag are untouched. *)
Lemma stop_preserves (rate : Z) p :
  session_inv rate p ->
  exists p1,
    stop p = (Ok tt, p1)
    /\ session_inv rate p1
    /\ live_threads (hist (outside p1)) = []
    /\ open_streams (hist (outside p1)) = []
    /\ active_streams (hist (outside p1)) = []
    /\ _stream_thread (self_ p1) = _stream_thread (self_ p)
    /\ _player (self_ p1) = _player (self_ p).
Proof.
  intros Hinv. pose proof (session_inv_now Hinv) as (Hl1 & Ho1 & Ha1).
  destruct Hinv as (Hrate & Hpl & Hlive & Hopen & Hact & Hever).
  destruct (_stream_thread (self_ p)) as [t|] eqn:Ht.
  - destruct (Hpl t eq_refl) as (player & Hplayer).
    exists (stopped p t player). split; [now apply stop_joins|].
    unfold session_stream in Hopen, Hact. rewrite Ht, Hplayer in Hopen, Hact.
    assert (Hl : remove Nat.eq_dec t (live_threads (hist (outside p))) = [])
      by now apply only_remove.
    assert (Ho : remove Nat.eq_dec (_audio_stream player)
                   (open_streams (hist (outside p))) = [])
      by now apply only_remove.
    assert (Ha : remove Nat.eq_dec (_audio_stream player)
                   (active_streams (hist (outside p))) = [])
      by now apply only_remove.
    assert (Hinv1 : session_inv rate (stopped p t player)).
    { unfold session_inv, stopped; simpl. rewrite Hl, Ho, Ha. simpl.
      split; [exact Hrate|]. split; [eauto|].
      split; [now left|]. split; [now left|]. split; [now left|].
      repeat apply at_every_instant_cons; try exact Hever;
        unfold at_most_one; simpl; rewrite ?Hl, ?Ho, ?Ha; simpl;
        repeat split; lia. }
    split; [exact Hinv1|]. unfold stopped; simpl. rewrite Hl, Ho, Ha. simpl.
    rewrite Hplayer. repeat split; reflexivity.
  - exists p. split; [now apply stop_idle|].
    unfold session_stream in Hopen, Hact. rewrite Ht in Hopen, Hact.
    apply only_none in Hlive, Hopen, Hact.
    split.
    { unfold session_inv, session_stream. rewrite Ht, Hlive, Hopen, Hact.
      split; [exact Hrate|]. split; [discriminate|].
      split; [now left|]. split; [now left|]. split; [now left|].
      exact Hever. }
    repeat split; assumption.
Qed.

(** After the second half of [play()] the new thread and the new stream
    are the only ones. *)
Lemma started_inv (rate : Z) p1 (start_time_seconds : QArith_base.Q) :
  session_inv rate p1 ->
  live_threads (hist (outside p1)) = [] ->
  open_streams (hist (outside p1)) = [] ->
  active_streams (hist (outside p1)) = [] ->
  session_inv rate (started p1 start_time_seconds).
Proof.
  intros (Hrate & _ & _ & _ & _ & Hever) Hl Ho Ha.
  unfold session_inv, started, session_stream; simpl. rewrite Hl, Ho, Ha.
  split; [exact Hrate|]. split; [eauto|].
  split; [right; eauto|]. split; [right; eauto|]. split; [right; eauto|].
  repeat apply at_every_instant_cons; try exact Hever;
    unfold at_most_one; simpl; rewrite ?Hl, ?Ho, ?Ha; simpl;
    repeat split; lia.
Qed.

Lemma do_call_preserves (rate : Z) (c : call) p r p' :
  session_inv rate p ->
  do_call c p = (r, p') ->
  session_inv rate p'.
Proof.
  intros Hinv Hcall. destruct c as [start| |]; simpl in Hcall.
  - destruct (stop_preserves Hinv) as (p1 & Hstop & Hinv1 & Hl & Ho & Ha & _).
    destruct (Z.lt_ge_cases 0 (_sample_rate (self_ p1))) as [Hpos|Hneg].
    + erewrite play_after_stop in Hcall; [|exact Hstop|exact Hpos].
      inversion Hcall; subst. now apply started_inv.
    + erewrite play_bad_rate in Hcall; [|exact Hstop|exact Hneg].
      inversion Hcall; subst. exact Hinv1.
  - destruct (stop_preserves Hinv) as (p1 & Hstop & Hinv1 & _).
    rewrite Hstop in Hcall. inversion Hcall; subst. exact Hinv1.
  - pose proof (session_inv_now Hinv) as (_ & Ho1 & Ha1).
    destruct Hinv as (Hrate & Hpl & Hlive & Hopen & Hact & Hever).
    unfold worker_ends, in_world, emit in Hcall. run_monad.
    destruct Hlive as [Hl | (t & Ht & Hl)]; rewrite Hl in Hcall;
      inversion Hcall; subst; clear Hcall.
    + unfold session_inv. rewrite Hl.
      split; [reflexivity|]. split; [exact Hpl|]. split; [now left|].
      split; [exact Hopen|]. split; [exact Hact | exact Hever].
    + unfold session_inv; simpl. rewrite Hl. simpl.
      destruct (Nat.eq_dec t t) as [_|Hne]; [|congruence].
      split; [reflexivity|]. split; [exact Hpl|]. split; [now left|].
      split; [exact Hopen|]. split; [exact Hact|].
      apply at_every_instant_cons; [|exact Hever].
      unfold at_most_one; simpl. rewrite Hl. simpl.
      destruct (Nat.eq_dec t t) as [_|Hne]; [|congruence]. simpl.
      repeat split; lia.
Qed.

Lemma do_calls_preserve (rate : Z) (cs : list call) : forall p r p',
  session_inv rate p ->
  do_calls cs p = (r, p') ->
  session_inv rate p'.
Proof.
  induction cs as [|c cs IH]; intros p r p' Hinv Hrun; simpl in Hrun.
  - inversion Hrun; subst. exact Hinv.
  - unfold bind in Hrun. destruct (do_call c p) as [[[]|e] p1] eqn:Hc.
    + eapply IH; [|exact Hrun]. eapply do_call_preserves; eassumption.
    + inversion Hrun; subst. eapply do_call_preserves; eassumption.
Qed.

(** *** stop *)

(** C6.  When there is a worker thread, [stop()] does three things in
    this order: it sets the cancellation flag, it joins the worker, and
    only then it stops and closes the output stream; when the release
    starts the worker is no longer among the live threads. *)
Theorem stop_sets_flag_joins_then_releases p (t : nat)
    (player : StreamingAudioPlayer sample) :
  _stream_thread (self_ p) = Some t ->
  _player (self_ p) = Some player ->
  exists p',
    stop p = (Ok tt, p')
    /\ happened p'
       = happened p ++ [ExitWorkerSet true; ThreadJoined t;
                        StreamStopped (_audio_stream player);
                        StreamClosed (_audio_stream player)]
    /\ _exit_worker (self_ p') = Some true
    /\ ~ In t (live_threads
                 (ThreadJoined t :: ExitWorkerSet true :: hist (outside p))).
Proof.
  intros Ht Hp. exists (stopped p t player).
  split; [now apply stop_joins|]. split; [|split; [reflexivity|]].
  - unfold happened, stopped. simpl. rewrite <- !app_assoc. reflexivity.
  - simpl. apply remove_In.
Qed.

(** *** play *)

(** C5.  Take any state reached from a new [YouTubeAudioPlayer] (positive
    sample rate) by calls of [play] and [stop] and by workers ending, in
    which [_stream_thread] is set.  Then [play(t2)] returns and has done,
    in this order: the whole of [stop()] (flag set, old worker joined,
    old stream stopped and closed), then the new stream opened and
    started, the flag cleared and the new worker started.  When it
    returns the new worker is the only live thread and the new stream the
    only stream open and started.  At every instant up to then, and at
    every instant of whatever calls follow, at most one worker is alive
    and at most one stream is open or started. *)
Theorem play_replaces_session (rate : Z) (cs : list call) p (t : nat)
    (t2 : QArith_base.Q) :
  (0 < rate)%Z ->
  do_calls cs (program0 rate) = (Ok tt, p) ->
  _stream_thread (self_ p) = Some t ->
  exists old p',
    _player (self_ p) = Some old
    /\ play t2 p = (Ok tt, p')
    /\ happened p'
       = happened p ++ [ExitWorkerSet true; ThreadJoined t;
                        StreamStopped (_audio_stream old);
                        StreamClosed (_audio_stream old);
                        StreamOpened (next_stream (outside p)) rate 2;
                        StreamStarted (next_stream (outside p));
                        ExitWorkerSet false;
                        ThreadStarted (next_thread (outside p)) t2]
    /\ _stream_thread (self_ p') = Some (next_thread (outside p))
    /\ live_threads (hist (outside p')) = [next_thread (outside p)]
    /\ open_streams (hist (outside p')) = [next_stream (outside p)]
    /\ active_streams (hist (outside p')) = [next_stream (outside p)]
    /\ at_every_instant at_most_one (hist (outside p'))
    /\ forall cs' r q,
         do_calls cs' p' = (r, q) ->
         at_every_instant at_most_one (hist (outside q)).
Proof.
  intros Hrate Hreach Ht.
  pose proof (do_calls_preserve cs (session_inv_program0 rate) Hreach) as Hinv.
  pose proof Hinv as (Hr & Hpl & _).
  destruct (Hpl t Ht) as (old & Hold).
  pose proof (stop_joins p Ht Hold) as Hstop.
  destruct (stop_preserves Hinv) as (p1 & Hstop1 & Hinv1 & Hl & Ho & Ha & _).
  rewrite Hstop in Hstop1. inversion Hstop1; subst p1. clear Hstop1.
  assert (Hpos : (0 < _sample_rate (self_ (stopped p t old)))%Z)
    by (simpl; rewrite Hr; exact Hrate).
  pose proof (started_inv t2 Hinv1 Hl Ho Ha) as Hinv'.
  exists old, (started (stopped p t old) t2).
  split; [exact Hold|].
  split; [now apply play_after_stop|].
  split.
  { unfold happened, started, stopped. simpl. rewrite Hr, <- !app_assoc.
    reflexivity. }
  split; [reflexivity|].
  unfold started at 1 2 3. simpl hist. simpl live_threads.
  simpl open_streams. simpl active_streams.
  change (hist (outside (stopped p t old)))
    with (StreamClosed (_audio_stream old) :: StreamStopped (_audio_stream old)
            :: ThreadJoined t :: ExitWorkerSet true :: hist (outside p))
    in Hl, Ho, Ha.
  simpl in Hl, Ho, Ha. rewrite Hl, Ho, Ha.
  split; [reflexivity|]. split; [reflexivity|]. split; [reflexivity|].
  split.
  { destruct Hinv' as (_ & _ & _ & _ & _ & H). exact H. }
  intros cs' r q Hq.
  pose proof (do_calls_preserve cs' Hinv' Hq) as (_ & _ & _ & _ & _ & H).
  exact H.
Qed.

End ControllerFacts.

(** *** stop on a player that was stopped before *)

(** A [stop()] on a player that never played changes nothing. *)
Lemma stop_never_played (sample : Type) (rate : Z) :
  stop (@program0 sample rate) = (Ok tt, program0 rate).
Proof. reflexivity. Qed.

(** C7, on the code.  After [play(0)] and [stop()], a second [stop()]
    is not a no-op: [_stream_thread] is still set, so the whole sequence
    runs again, and the stream that was closed once is stopped and
    closed a second time. *)
Theorem second_stop_releases_again :
  _stream_thread (self_ played_and_stopped) = Some 0
  /\ times_closed 0 (hist (outside played_and_stopped)) = 1
  /\ fst (stop played_and_stopped) = Ok tt
  /\ happened (snd (stop played_and_stopped))
     = happened played_and_stopped
         ++ [ExitWorkerSet true; ThreadJoined 0; StreamStopped 0; StreamClosed 0]
  /\ times_closed 0 (hist (outside (snd (stop played_and_stopped)))) = 2.
Proof. repeat split. Qed.

(** ** The decode loop *)

Section WorkerFacts.

Variable sample : Type.
Variable zero : sample.
Variable exit_worker_at : nat -> bool.
Variable CHUNK_SIZE : nat.

Implicit Types (w : worker sample).

(** A loop over [xs ++ ys] is the loop over [xs] and, if that did not
    return or raise, the loop over [ys]. *)
Lemma for_each_app (A : Type) (body : A -> M (worker sample) flow) (xs ys : list A) :
  forall w,
    for_each body (xs ++ ys) w
    = match for_each body xs w with
      | (Ok Continue, w') => for_each body ys w'
      | r => r
      end.
Proof.
  induction xs as [|x xs IH]; intros w; simpl; [reflexivity|].
  unfold bind. destruct (body x w) as [[[|]|e] w1]; [apply IH | reflexivity..].
Qed.

(** One pass through the body for a frame reads the flag exactly once,
    before anything else: if it finds the flag set nothing but the count
    of reads changes. *)
Lemma frame_body_return (frame : AudioFrame sample) w :
  exit_worker_at (reads w) = true ->
  frame_body exit_worker_at CHUNK_SIZE frame w
  = (Ok Return, mk_worker (chunk w) (sent w) (S (reads w))).
Proof.
  intros H. unfold frame_body, read_exit_worker. run_monad. rewrite H.
  reflexivity.
Qed.

Lemma frame_body_continue (frame : AudioFrame sample) w w' :
  frame_body exit_worker_at CHUNK_SIZE frame w = (Ok Continue, w') ->
  exit_worker_at (reads w) = false /\ reads w' = S (reads w).
Proof.
  unfold frame_body, read_exit_worker, chunk_append, chunk_clear,
    player_add_audio, assert_two_columns. run_monad.
  destruct (exit_worker_at (reads w)); [discriminate|].
  cbn [chunk sent reads].
  destruct (length (chunk w ++ [transpose (to_ndarray frame)]) =? CHUNK_SIZE).
  - destruct (np_concatenate _) as [combined|e]; [|discriminate].
    destruct (shape_at combined 1) as [n|e]; [|discriminate].
    destruct (n =? 2); unfold ret, raise; cbn; intros H; inversion H.
    split; reflexivity.
  - intros H; inversion H. split; reflexivity.
Qed.

Lemma for_frames_continue (frames : list (AudioFrame sample)) : forall w w',
  for_each (frame_body exit_worker_at CHUNK_SIZE) frames w = (Ok Continue, w') ->
  reads w' = reads w + length frames
  /\ forall k, reads w <= k < reads w' -> exit_worker_at k = false.
Proof.
  induction frames as [|f frames IH]; intros w w' H; simpl in H.
  - inversion H; subst. split; [simpl; lia | intros k Hk; lia].
  - unfold bind in H.
    destruct (frame_body exit_worker_at CHUNK_SIZE f w) as [[[|]|e] w1] eqn:Hf;
      try discriminate.
    apply frame_body_continue in Hf as [Hflag Hreads].
    apply IH in H as [Hlen Hfalse]. split; [simpl; lia|].
    intros k Hk. destruct (Nat.eq_dec k (reads w)) as [->|Hne];
      [exact Hflag | apply Hfalse; lia].
Qed.

Lemma for_packets_continue (packets : list (outcome (list (AudioFrame sample)))) :
  forall w w',
    for_packets exit_worker_at CHUNK_SIZE packets w = (Ok Continue, w') ->
    reads w' = reads w + frames_decoded packets
    /\ forall k, reads w <= k < reads w' -> exit_worker_at k = false.
Proof.
  unfold for_packets.
  induction packets as [|pk packets IH]; intros w w' H; simpl in H.
  - inversion H; subst. split; [simpl; lia | intros k Hk; lia].
  - unfold bind, packet_body, lift in H. unfold bind in H.
    destruct pk as [frames|e]; [|discriminate].
    destruct (for_each _ frames w) as [[[|]|e] w1] eqn:Hf; try discriminate.
    apply for_frames_continue in Hf as [Hlen1 Hfalse1].
    apply IH in H as [Hlen Hfalse]. split; [simpl; lia|].
    intros k Hk. destruct (Nat.lt_ge_cases k (reads w1));
      [apply Hfalse1 | apply Hfalse]; lia.
Qed.

(** A packet whose frames are all passed through behaves, alone, like
    its frames. *)
Lemma for_packets_one (frames : list (AudioFrame sample)) w :
  for_packets exit_worker_at CHUNK_SIZE [Ok frames] w
  = for_each (frame_body exit_worker_at CHUNK_SIZE) frames w.
Proof.
  unfold for_packets. simpl. unfold bind, packet_body, lift. unfold bind.
  destruct (for_each _ frames w) as [[[|]|e] w1]; reflexivity.
Qed.

(** C8.  Let the loop run through some packets and the first frames
    [fs1] of the next one without returning, and let the next read of the
    flag find it set.  There has been one read of the flag per frame so
    far, each before the frame was accumulated and each finding the flag
    clear.  On the next frame [f] the loop returns at once: [f] is not
    accumulated, the partial chunk is not enqueued, and what was enqueued
    is what was enqueued before [f], whatever follows [f] in the
    stream. *)
Theorem cancel_is_checked_before_each_frame
    (before after : list (outcome (list (AudioFrame sample))))
    (fs1 fs2 : list (AudioFrame sample)) (f : AudioFrame sample) w1 :
  _stream_and_play exit_worker_at CHUNK_SIZE (before ++ [Ok fs1]) = (Ok Continue, w1) ->
  exit_worker_at (reads w1) = true ->
  reads w1 = frames_decoded (before ++ [Ok fs1])
  /\ (forall k, k < reads w1 -> exit_worker_at k = false)
  /\ _stream_and_play exit_worker_at CHUNK_SIZE
       (before ++ Ok (fs1 ++ f :: fs2) :: after)
     = (Ok Return, mk_worker (chunk w1) (sent w1) (S (reads w1))).
Proof.
  unfold _stream_and_play. intros Hrun Hflag.
  destruct (for_packets_continue _ _ Hrun) as [Hreads Hfalse].
  simpl in Hreads. split; [exact Hreads|].
  split; [intros k Hk; apply Hfalse; simpl; lia|].
  unfold for_packets in *. rewrite for_each_app in Hrun |- *.
  destruct (for_each _ before _) as [[[|]|e] wb]; try discriminate.
  fold (for_packets exit_worker_at CHUNK_SIZE [Ok fs1] wb) in Hrun.
  rewrite for_packets_one in Hrun.
  simpl. unfold bind, packet_body, lift. unfold bind.
  rewrite for_each_app, Hrun. simpl. unfold bind.
  rewrite (frame_body_return f _ Hflag). reflexivity.
Qed.

(** Where the decoder raises, the loop stops with that exception and in
    the state it would have had if the stream had ended there: nothing
    more is enqueued, the partial chunk stays where it is, and no packet
    after the failure is looked at. *)
Lemma decode_failure_stops_worker
    (before after : list (outcome (list (AudioFrame sample)))) (e : exn) w1 :
  _stream_and_play exit_worker_at CHUNK_SIZE before = (Ok Continue, w1) ->
  _stream_and_play exit_worker_at CHUNK_SIZE (before ++ Raise e :: after)
  = (Raise e, w1).
Proof.
  unfold _stream_and_play, for_packets. intros Hrun.
  rewrite for_each_app, Hrun. reflexivity.
Qed.

End WorkerFacts.

(** ** Draining the player *)

Section DrainFacts.

Variable sample : Type.
Variable zero : sample.

Implicit Types (self : StreamingAudioPlayer sample) (outdata : ndarray sample).

Lemma backlog_zero self : player_ok self -> backlog self = 0 -> drained self.
Proof.
  unfold backlog, drained, player_ok. intros [Hl _] H.
  destruct (items (_queue self)); simpl in H; [|lia].
  split; [reflexivity|].
  destruct (_leftover_buffer self) as [l|]; simpl in *; [|trivial].
  split; [lia | apply stereo_no_rows; [exact Hl | lia]].
Qed.

Lemma rows_after_take (slot : option (ndarray sample)) :
  rows_of_slot (slot_after_take slot) = 0.
Proof.
  destruct slot as [l|]; simpl; [|reflexivity].
  destruct (0 <? len l) eqn:H; simpl; [reflexivity|].
  apply Nat.ltb_ge in H. lia.
Qed.

(** A callback for a block with at least one row lowers a positive
    backlog. *)
Lemma callback_lowers_backlog self outdata :
  player_ok self ->
  shape outdata = [len outdata; 2] ->
  0 < len outdata ->
  0 < backlog self ->
  exists out self',
    _audio_callback zero outdata self = (Ok out, self')
    /\ player_ok self'
    /\ backlog self' < backlog self.
Proof.
  intros Hok Hout Hpos Hback.
  destruct (callback_total zero outdata Hok Hout)
    as (out & self' & Hcb & _ & _ & Hq & Hok').
  exists out, self'. split; [exact Hcb|]. split; [exact Hok'|].
  destruct (accumulation_buffer_spec Hok) as (b & Hb & Hst & _ & Hlen).
  unfold backlog in *. rewrite Hq. simpl. unfold head_rows in Hlen.
  destruct (Nat.le_gt_cases (len outdata) (len b)) as [Hle|Hlt].
  - destruct (callback_enough zero self outdata Hb Hle Hcb) as [_ ->]. simpl.
    unfold rows_from, len at 1. simpl.
    destruct (items (_queue self)) as [|c rest]; simpl in *; lia.
  - rewrite (callback_underrun zero self outdata Hb Hst Hout Hlt) in Hcb.
    inversion Hcb; subst self'. simpl. rewrite rows_after_take.
    destruct (items (_queue self)) as [|c rest]; simpl in *; lia.
Qed.

(** Hence the player is drained after finitely many callbacks, if nothing
    more is enqueued. *)
Lemma player_drains outdata :
  shape outdata = [len outdata; 2] ->
  0 < len outdata ->
  forall n self,
    player_ok self -> backlog self <= n ->
    exists k outs final,
      callbacks zero k outdata self = Some (outs, final)
      /\ player_ok final /\ drained final.
Proof.
  intros Hout Hpos. induction n as [|n IH]; intros self Hok Hn.
  - exists 0, [], self. split; [reflexivity|]. split; [exact Hok|].
    apply backlog_zero; [exact Hok | lia].
  - destruct (Nat.eq_dec (backlog self) 0) as [H0|Hne].
    + exists 0, [], self. split; [reflexivity|]. split; [exact Hok|].
      now apply backlog_zero.
    + destruct (@callback_lowers_backlog self outdata Hok Hout Hpos)
        as (out & self' & Hcb & Hok' & Hlt); [lia|].
      destruct (IH self' Hok') as (k & outs & final & Hk & Hokf & Hd); [lia|].
      exists (S k), (out :: outs), final. simpl. rewrite Hcb, Hk.
      split; [reflexivity|]. split; assumption.
Qed.

(** A drained player answers every callback with silence and stays
    drained. *)
Lemma drained_is_silent self outdata :
  player_ok self -> drained self ->
  shape outdata = [len outdata; 2] ->
  exists self',
    _audio_callback zero outdata self = (Ok (silent_block zero outdata), self')
    /\ player_ok self' /\ drained self'.
Proof.
  intros Hok [Hq Hslot] Hout.
  destruct (accumulation_buffer_spec Hok) as (b & Hb & Hst & Hflat & Hlen).
  unfold head_rows, head_samples, leftover_samples in Hflat, Hlen.
  rewrite Hq in Hflat, Hlen.
  assert (Hrows : rows_of_slot (_leftover_buffer self) = 0).
  { destruct (_leftover_buffer self); simpl in *; [apply Hslot | reflexivity]. }
  assert (Hnone : flat b = []).
  { rewrite Hflat. destruct (_leftover_buffer self); simpl in *;
      [destruct Hslot as [_ ->]|]; reflexivity. }
  destruct (callback_total zero outdata Hok Hout)
    as (out & self' & Hcb & _ & _ & Hq' & Hok').
  destruct (Nat.eq_dec (len outdata) 0) as [H0|Hne].
  - assert (Hle : len outdata <= len b) by lia.
    destruct (callback_enough zero self outdata Hb Hle Hcb) as [-> ->].
    eexists. split.
    { rewrite Hcb. unfold silent_block. rewrite Hnone, H0. simpl.
      reflexivity. }
    split; [rewrite H0 in Hok'; exact Hok'|]. split; simpl; [now rewrite Hq|].
    rewrite Hnone. unfold len at 1. simpl.
    split; [lia | reflexivity].
  - assert (Hlt : len b < len outdata) by lia.
    rewrite (callback_underrun zero self outdata Hb Hst Hout Hlt) in Hcb |- *.
    inversion Hcb; subst out self'. eexists. split.
    { unfold silent_block. rewrite Hnone, Hlen, Hrows. simpl.
      rewrite Nat.sub_0_r. reflexivity. }
    split; [exact Hok'|]. split; simpl; [now rewrite Hq|].
    apply slot_after_take_holds_no_frames, Hok.
Qed.

Lemma drained_stays_silent outdata :
  shape outdata = [len outdata; 2] ->
  forall m self,
    player_ok self -> drained self ->
    exists final,
      callbacks zero m outdata self = Some (repeat (silent_block zero outdata) m, final)
      /\ drained final.
Proof.
  intros Hout. induction m as [|m IH]; intros self Hok Hd.
  - exists self. split; [reflexivity | exact Hd].
  - destruct (@drained_is_silent self outdata Hok Hd Hout) as (self' & Hcb & Hok' & Hd').
    destruct (IH self' Hok' Hd') as (final & Hrest & Hdf).
    exists final. simpl. rewrite Hcb, Hrest. split; [reflexivity | exact Hdf].
Qed.

End DrainFacts.

(** ** play and the end of the worker, from any state between calls *)

Section SessionSteps.

Variable sample : Type.

Implicit Types (p : program sample) (w : world).

(** With a positive sample rate [play] returns; the thread and the stream
    it has started are then the only ones. *)
Lemma play_returns (rate : Z) p (start_time_seconds : QArith_base.Q) :
  (0 < rate)%Z ->
  session_inv rate p ->
  exists p1,
    play start_time_seconds p = (Ok tt, p1)
    /\ session_inv rate p1
    /\ _exit_worker (self_ p1) = Some false
    /\ (exists t, live_threads (hist (outside p1)) = [t])
    /\ (exists h, open_streams (hist (outside p1)) = [h]
                  /\ active_streams (hist (outside p1)) = [h]).
Proof.
  intros Hrate Hinv.
  destruct (stop_preserves Hinv) as (p0 & Hstop & Hinv0 & Hl & Ho & Ha & _).
  assert (Hpos : (0 < _sample_rate (self_ p0))%Z).
  { destruct Hinv0 as (Hr & _). rewrite Hr. exact Hrate. }
  exists (started p0 start_time_seconds).
  split; [now apply play_after_stop|].
  split; [now apply started_inv|].
  split; [reflexivity|].
  unfold started. simpl. rewrite Hl, Ho, Ha. split; eauto.
Qed.

Lemma worker_ends_returns (rate : Z) p :
  session_inv rate p ->
  exists p1,
    worker_ends p = (Ok tt, p1)
    /\ (live_threads (hist (outside p1)) = []
        \/ p1 = p).
Proof.
  intros (_ & _ & Hlive & _).
  unfold worker_ends, in_world, emit. run_monad.
  destruct Hlive as [Hl | (t & Ht & Hl)]; rewrite Hl.
  - exists p. split; [reflexivity | now right].
  - eexists. split; [reflexivity|]. left. simpl. rewrite Hl. simpl.
    destruct (Nat.eq_dec t t); [reflexivity | congruence].
Qed.

End SessionSteps.

(** ** What the callbacks hand over, underruns included *)

Section PayloadFacts.

Variable sample : Type.
Variable zero : sample.

Implicit Types (self : StreamingAudioPlayer sample) (outdata : ndarray sample).

(** A callback that underruns and returns was given a block of the
    stream's shape. *)
Lemma callback_underrun_shape self outdata buffer self1 out self' :
  accumulation_buffer self = (Ok buffer, self1) ->
  stereo buffer ->
  len buffer < len outdata ->
  _audio_callback zero outdata self = (Ok out, self') ->
  shape outdata = [len outdata; 2].
Proof.
  intros Hacc Hb Hlt. unfold _audio_callback. run_monad. rewrite Hacc.
  pose proof Hlt as Hlt'. apply Nat.leb_gt in Hlt'. rewrite Hlt'.
  unfold assign_rows_to.
  destruct (shape_eqb (shape (rows_to outdata (len buffer))) (shape buffer)) eqn:He;
    simpl; [|discriminate].
  intros _. apply shape_eqb_eq in He. destruct Hb as [Hs _]. rewrite Hs in He.
  unfold rows_to in He. simpl in He. inversion He as [[Hmin Htl]].
  unfold len in *. destruct (shape outdata) as [|n rest]; simpl in *; [lia|].
  now subst rest.
Qed.

Lemma leftover_samples_after_take self (q : Queue sample) :
  player_ok self ->
  leftover_samples
    (mk_StreamingAudioPlayer q (_audio_stream self)
       (slot_after_take (_leftover_buffer self))) = [].
Proof.
  intros [Hl _]. pose proof (slot_after_take_holds_no_frames _ Hl) as H.
  unfold leftover_samples. simpl.
  destruct (slot_after_take (_leftover_buffer self)); [apply H | reflexivity].
Qed.

(** One step of any run hands over, zero fill apart, exactly what leaves
    the player. *)
Lemma step_payload_conserves (a : action sample) self o self' :
  player_ok self ->
  Forall (@stereo sample) (enqueued [a]) ->
  step zero a self = Some (o, self') ->
  payload zero a self ++ pending self' = pending self ++ samples_of (enqueued [a])
  /\ player_ok self'.
Proof.
  intros Hok Hst Hstep. destruct a as [c|outdata].
  - destruct (@step_conserves sample zero (Enqueue c) self o self' Hok Hst Hstep I)
      as [Hc Hok'].
    simpl in Hstep.
    destruct (add_audio c self) as [[[|]|] s2]; try discriminate.
    inversion Hstep; subst o s2. simpl in Hc |- *. now split.
  - simpl in Hstep |- *.
    destruct (_audio_callback zero outdata self) as [[out|] s2] eqn:Hcb;
      try discriminate.
    inversion Hstep; subst o s2. clear Hstep.
    destruct (accumulation_buffer_spec Hok) as (b & Hb & Hsb & Hflat & _).
    unfold payload_rows. rewrite Hb.
    assert (Htl : Forall (@stereo sample) (tl (items (_queue self)))).
    { destruct Hok as [_ Hq]. destruct (items (_queue self)); simpl;
        [constructor | now inversion Hq]. }
    destruct (Nat.le_gt_cases (len outdata) (len b)) as [Hle|Hlt].
    + destruct (callback_enough zero self outdata Hb Hle Hcb) as [-> ->].
      rewrite Nat.min_l by exact Hle. simpl.
      rewrite (stereo_row_size Hsb), firstn_firstn, Nat.min_id.
      rewrite (pending_head_tail self), <- Hflat.
      unfold pending, leftover_samples, samples_of. simpl.
      rewrite (stereo_row_size Hsb), !app_nil_r, app_assoc, firstn_skipn.
      split; [reflexivity|]. split; simpl; [now apply stereo_rows_from | exact Htl].
    + pose proof (@callback_underrun_shape self outdata b _ out self' Hb Hsb Hlt Hcb)
        as Hout.
      rewrite (callback_underrun zero self outdata Hb Hsb Hout Hlt) in Hcb.
      inversion Hcb; subst out self'. clear Hcb.
      rewrite Nat.min_r by lia. simpl.
      destruct Hsb as [_ Hfl].
      rewrite firstn_app, firstn_all2 by lia.
      replace (len b * 2 - length (flat b)) with 0 by lia. simpl.
      rewrite !app_nil_r.
      rewrite (pending_head_tail self), <- Hflat.
      unfold pending at 1. rewrite (@leftover_samples_after_take self _ Hok). simpl.
      split; [reflexivity|]. split; simpl; [|exact Htl].
      destruct Hok as [Hl _]. destruct (_leftover_buffer self) as [l|]; simpl;
        [|trivial].
      destruct (0 <? len l); simpl; [trivial | exact Hl].
Qed.

Lemma run_payload_conserves (acts : list (action sample)) : forall self outs final,
  player_ok self ->
  Forall (@stereo sample) (enqueued acts) ->
  run zero acts self = Some (outs, final) ->
  audio_delivered zero acts self ++ pending final
  = pending self ++ samples_of (enqueued acts).
Proof.
  induction acts as [|a acts IH]; intros self outs final Hok Hst Hrun.
  - simpl in Hrun. inversion Hrun; subst. simpl. now rewrite app_nil_r.
  - simpl in Hrun. cbn [audio_delivered].
    destruct (step zero a self) as [[o s1]|] eqn:Hstep; [|discriminate].
    destruct (run zero acts s1) as [[os fin]|] eqn:Hrest; [|discriminate].
    inversion Hrun; subst outs fin. clear Hrun.
    rewrite enqueued_cons in Hst. apply Forall_app in Hst as [Hsta Hstr].
    destruct (@step_payload_conserves a self o s1 Hok Hsta Hstep) as [Hone Hok1].
    pose proof (IH s1 os final Hok1 Hstr Hrest) as Hmany.
    rewrite enqueued_cons, samples_of_app, <- app_assoc, Hmany.
    rewrite !app_assoc. f_equal. exact Hone.
Qed.

End PayloadFacts.

(** ** A decode failure *)

Section DecodeFailure.

Variable sample : Type.
Variable zero : sample.
Variable exit_worker_at : nat -> bool.
Variable CHUNK_SIZE : nat.

Implicit Types (self : StreamingAudioPlayer sample) (outdata : ndarray sample).

(** *** Runs that end in callbacks only *)

Lemma run_app (acts1 acts2 : list (action sample)) : forall self outs1 mid outs2 final,
  run zero acts1 self = Some (outs1, mid) ->
  run zero acts2 mid = Some (outs2, final) ->
  run zero (acts1 ++ acts2) self = Some (outs1 ++ outs2, final).
Proof.
  induction acts1 as [|a acts1 IH]; intros self outs1 mid outs2 final H1 H2;
    simpl in H1 |- *.
  - inversion H1; subst. exact H2.
  - destruct (step zero a self) as [[o s1]|]; [|discriminate].
    destruct (run zero acts1 s1) as [[os m1]|] eqn:Hrest; [|discriminate].
    inversion H1; subst outs1 m1. clear H1.
    rewrite (IH s1 os mid outs2 final Hrest H2). now rewrite app_assoc.
Qed.

Lemma callbacks_as_run (k : nat) outdata : forall self,
  callbacks zero k outdata self = run zero (repeat (Request outdata) k) self.
Proof.
  induction k as [|k IH]; intros self; simpl; [reflexivity|].
  destruct (_audio_callback zero outdata self) as [[out|e] s1]; [|reflexivity].
  rewrite IH. destruct (run zero (repeat (Request outdata) k) s1) as [[os f]|];
    reflexivity.
Qed.

Lemma enqueued_requests (k : nat) outdata :
  enqueued (repeat (Request outdata) k) = [].
Proof.
  induction k as [|k IH]; simpl; [reflexivity | exact IH].
Qed.

Lemma run_player_ok (acts : list (action sample)) : forall self outs final,
  player_ok self ->
  Forall (@stereo sample) (enqueued acts) ->
  run zero acts self = Some (outs, final) ->
  player_ok final.
Proof.
  induction acts as [|a acts IH]; intros self outs final Hok Hst Hrun;
    simpl in Hrun.
  - inversion Hrun; subst. exact Hok.
  - destruct (step zero a self) as [[o s1]|] eqn:Hstep; [|discriminate].
    destruct (run zero acts s1) as [[os fin]|] eqn:Hrest; [|discriminate].
    inversion Hrun; subst outs fin. clear Hrun.
    rewrite enqueued_cons in Hst. apply Forall_app in Hst as [Hsta Hstr].
    destruct (@step_payload_conserves sample zero a self o s1 Hok Hsta Hstep)
      as [_ Hok1].
    exact (IH s1 os final Hok1 Hstr Hrest).
Qed.

Lemma drained_pending self : drained self -> pending self = [].
Proof.
  unfold drained, pending, leftover_samples. intros [-> Hslot]. simpl.
  destruct (_leftover_buffer self) as [l|]; simpl in *;
    [destruct Hslot as [_ ->]|]; reflexivity.
Qed.

(** On a drained player the accumulation buffer is empty: a callback for
    a block with rows takes the underrun branch. *)
Lemma drained_underruns self outdata :
  drained self -> 0 < len outdata -> underruns outdata self = true.
Proof.
  destruct self as [[m its] h slot]. unfold drained. simpl.
  intros [-> Hslot] Hpos.
  unfold underruns, accumulation_buffer, try_except_Empty, queue_get_nowait,
    get_nowait, set_queue.
  run_monad.
  destruct slot as [l|]; simpl in *.
  - destruct Hslot as [Hl _]. rewrite Hl. simpl. now apply Nat.ltb_lt.
  - now apply Nat.ltb_lt.
Qed.

Lemma drained_stays_drained outdata :
  shape outdata = [len outdata; 2] ->
  0 < len outdata ->
  forall m self,
    player_ok self -> drained self ->
    exists final,
      callbacks zero m outdata self = Some (repeat (silent_block zero outdata) m, final)
      /\ drained final
      /\ underruns outdata final = true.
Proof.
  intros Hout Hpos m self Hok Hd.
  destruct (@drained_stays_silent sample zero outdata Hout m self Hok Hd)
    as (final & Hcb & Hdf).
  exists final. split; [exact Hcb|]. split; [exact Hdf|].
  now apply drained_underruns.
Qed.

(** *** The thread that runs the worker *)

(** Between calls, the end of the worker thread leaves no thread alive. *)
Lemma worker_ends_no_thread (rate : Z) (p : program sample) :
  session_inv rate p ->
  exists p1,
    worker_ends p = (Ok tt, p1)
    /\ session_inv rate p1
    /\ live_threads (hist (outside p1)) = [].
Proof.
  intros Hinv.
  destruct (worker_ends_returns Hinv) as (p1 & Hw & Hcase).
  exists p1. split; [exact Hw|].
  split; [exact (@do_call_preserves sample rate WorkerEnds p (Ok tt) p1 Hinv Hw)|].
  destruct Hcase as [Hl | ->]; [exact Hl|].
  destruct Hinv as (_ & _ & Hlive & _).
  destruct Hlive as [Hl | (t & _ & Hl)]; [exact Hl|].
  revert Hw. unfold worker_ends, in_world, emit. run_monad. rewrite Hl.
  intros Hw. inversion Hw as [Hp].
  apply (f_equal (fun q => length (hist (outside q)))) in Hp.
  simpl in Hp. lia.
Qed.

(** C9.  Where the decoder raises in mid-stream, all goes on as if the
    stream had ended at that place.

    The worker stops there, in the state it would have had at the end of
    the stream: what it had enqueued stays enqueued, the frames waiting
    in [chunk] are not enqueued, and nothing after the failure is decoded,
    whatever follows in the stream.

    The exception ends the thread and nothing else.  Run as the target
    of the worker thread, the failing stream and the stream that ends at
    that place leave the program in the same state, in which no thread is
    alive; they differ in what [threading.excepthook] is given.  A later
    [stop()] returns, and so does a later [play()].

    The player plays what was enqueued.  Whenever the callbacks came
    while the worker was running, callbacks alone drain the player after
    the failure: over the whole session the device is handed the samples
    of the chunks that the worker had enqueued, each once and in order,
    and no sample of the frames waiting in [chunk]; from then on every
    callback takes the underrun branch and every block is silence. *)
Theorem decode_failure_is_end_of_stream
    (before after : list (outcome (list (AudioFrame sample)))) (e : exn)
    (w1 : worker sample) :
  _stream_and_play exit_worker_at CHUNK_SIZE before = (Ok Continue, w1) ->
  Forall (@stereo sample) (sent w1) ->
  _stream_and_play exit_worker_at CHUNK_SIZE (before ++ Raise e :: after)
  = (Raise e, w1)
  /\ (forall (rate : Z) (cs : list call) r (p : program sample),
        (0 < rate)%Z ->
        do_calls cs (program0 rate) = (r, p) ->
        exists p1,
          Thread_run exit_worker_at CHUNK_SIZE (before ++ Raise e :: after) p
          = (Ok (Some e, w1), p1)
          /\ Thread_run exit_worker_at CHUNK_SIZE before p = (Ok (None, w1), p1)
          /\ live_threads (hist (outside p1)) = []
          /\ (exists p2, stop p1 = (Ok tt, p2))
          /\ (forall start_time_seconds, exists p3,
                play start_time_seconds p1 = (Ok tt, p3)))
  /\ (forall (acts : list (action sample)) (size : Z) (h : nat)
             (outs : list (ndarray sample)) self outdata,
        enqueued acts = sent w1 ->
        run zero acts (fresh_player sample size h) = Some (outs, self) ->
        shape outdata = [len outdata; 2] ->
        0 < len outdata ->
        exists k outs' final,
          callbacks zero k outdata self = Some (outs', final)
          /\ drained final
          /\ audio_delivered zero (acts ++ repeat (Request outdata) k)
               (fresh_player sample size h)
             = samples_of (sent w1)
          /\ forall m, exists final',
               callbacks zero m outdata final
               = Some (repeat (silent_block zero outdata) m, final')
               /\ drained final'
               /\ underruns outdata final' = true).
Proof.
  intros Hnat Hsent.
  pose proof (@decode_failure_stops_worker sample exit_worker_at CHUNK_SIZE
                before after e w1 Hnat) as Hfail.
  split; [exact Hfail|]. split.
  - intros rate cs r p Hrate Hreach.
    pose proof (do_calls_preserve cs (session_inv_program0 sample rate) Hreach)
      as Hinv.
    destruct (worker_ends_no_thread Hinv) as (p1 & Hw & Hinv1 & Hlive).
    exists p1.
    split; [unfold Thread_run; rewrite Hfail; unfold bind, ret; now rewrite Hw|].
    split; [unfold Thread_run; rewrite Hnat; unfold bind, ret; now rewrite Hw|].
    split; [exact Hlive|]. split.
    + destruct (stop_preserves Hinv1) as (p2 & Hstop & _). now exists p2.
    + intros start_time_seconds.
      destruct (@play_returns sample rate p1 start_time_seconds Hrate Hinv1)
        as (p3 & Hplay & _).
      now exists p3.
  - intros acts size h outs self outdata Henq Hrun Hout Hpos.
    assert (Hst : Forall (@stereo sample) (enqueued acts))
      by (rewrite Henq; exact Hsent).
    assert (Hok0 : player_ok (fresh_player sample size h))
      by (split; simpl; [trivial | constructor]).
    pose proof (@run_player_ok acts _ outs self Hok0 Hst Hrun) as Hok.
    destruct (@player_drains sample zero outdata Hout Hpos (backlog self) self
                Hok (le_n _))
      as (k & outs' & final & Hk & Hokf & Hd).
    exists k, outs', final. split; [exact Hk|]. split; [exact Hd|]. split.
    + pose proof Hk as Hk'. rewrite callbacks_as_run in Hk'.
      pose proof (@run_app acts _ _ outs self outs' final Hrun Hk') as Hall.
      assert (Hst' : Forall (@stereo sample)
                       (enqueued (acts ++ repeat (Request outdata) k))).
      { unfold enqueued. rewrite flat_map_app. fold (enqueued acts).
        fold (enqueued (repeat (Request outdata) k)).
        now rewrite enqueued_requests, app_nil_r. }
      pose proof (@run_payload_conserves sample zero _ _ _ _ Hok0 Hst' Hall)
        as Hcons.
      rewrite (drained_pending Hd), app_nil_r in Hcons. rewrite Hcons.
      unfold enqueued at 1. rewrite flat_map_app. fold (enqueued acts).
      fold (enqueued (repeat (Request outdata) k)).
      rewrite enqueued_requests, app_nil_r, Henq. reflexivity.
    + intros m.
      exact (@drained_stays_drained outdata Hout Hpos m final Hokf Hd).
Qed.

End DecodeFailure.

(** ** The assertions of StreamingAudioPlayer *)

Section Assertions.

Variable sample : Type.

(** C10.  [add_audio] on an array whose second dimension is not 2 raises
    [AssertionError] and leaves the player, hence its queue, as it was.
    On an array with two columns it appends that very array to the queue
    and returns, or, the queue being full, waits without touching
    anything.  [StreamingAudioPlayer(sample_rate, queue_size)] with a
    sample rate or a queue size that is not positive raises
    [AssertionError] and leaves the world as it was: no stream has been
    opened. *)
Theorem assertions_guard_the_player :
  (forall (audio_data : ndarray sample) (self : StreamingAudioPlayer sample)
          (columns : nat),
      shape_at audio_data 1 = Ok columns -> columns <> 2 ->
      add_audio audio_data self = (Raise AssertionError, self))
  /\ (forall (audio_data : ndarray sample) (self : StreamingAudioPlayer sample),
        shape_at audio_data 1 = Ok 2 ->
        add_audio audio_data self
        = if full (_queue self)
          then (Ok Waiting, self)
          else (Ok Returned,
                set_queue (mk_Queue (maxsize (_queue self))
                                    (items (_queue self) ++ [audio_data])) self))
  /\ (forall (sample_rate queue_size : Z) (w : world),
        (sample_rate <= 0 \/ queue_size <= 0)%Z ->
        StreamingAudioPlayer_init (sample:=sample) sample_rate queue_size w
        = (Raise AssertionError, w)).
Proof.
  split; [|split].
  - intros audio_data self columns Hshape Hne.
    unfold add_audio, assert_two_columns. run_monad. rewrite Hshape. simpl.
    apply Nat.eqb_neq in Hne. rewrite Hne. reflexivity.
  - intros audio_data self Hshape.
    unfold add_audio, assert_two_columns, put. run_monad. rewrite Hshape. simpl.
    destruct (full (_queue self)); reflexivity.
  - intros sample_rate queue_size w H.
    now apply StreamingAudioPlayer_init_asserts.
Qed.

End Assertions.

(** * The statements on concrete data *)

Lemma stereo_chunkA : stereo chunkA.
Proof. split; reflexivity. Defined.

Lemma stereo_chunkB : stereo chunkB.
Proof. split; reflexivity. Defined.

Lemma demo_player_ok : player_ok demo_player.
Proof.
  split; simpl; [exact I|].
  apply Forall_cons; [exact stereo_chunkA | apply Forall_nil].
Defined.

(** The run [demo_acts]: six frames in, six frames out, in order. *)
Lemma no_duplication_no_loss_witness :
  Forall (@stereo Z) (enqueued demo_acts)
  /\ run 0%Z demo_acts (fresh_player Z 200 0) = Some (demo_outs, demo_final)
  /\ never_underruns 0%Z demo_acts (fresh_player Z 200 0)
  /\ samples_of demo_outs ++ pending demo_final = samples_of (enqueued demo_acts)
  /\ (pending demo_final = [] ->
      samples_of demo_outs = samples_of (enqueued demo_acts)).
Proof.
  assert (H1 : Forall (@stereo Z) (enqueued demo_acts)).
  { simpl. apply Forall_cons; [exact stereo_chunkA|].
    apply Forall_cons; [exact stereo_chunkB | apply Forall_nil]. }
  assert (H2 : run 0%Z demo_acts (fresh_player Z 200 0)
               = Some (demo_outs, demo_final)) by reflexivity.
  assert (H3 : never_underruns 0%Z demo_acts (fresh_player Z 200 0)).
  { simpl. repeat split. }
  split; [exact H1|]. split; [exact H2|]. split; [exact H3|].
  exact (@no_duplication_no_loss Z 0%Z demo_acts 200%Z 0 demo_outs demo_final
           H1 H2 H3).
Defined.

(** Three frames available, two asked for: one frame is carried over. *)
Lemma leftover_carries_over_witness :
  player_ok demo_player
  /\ shape (block 2) = [len (block 2); 2]
  /\ accumulation_buffer demo_player = (Ok chunkA, demo_player_taken)
  /\ len (block 2) < len chunkA
  /\ exists out self' leftover,
       _audio_callback 0%Z (block 2) demo_player = (Ok out, self')
       /\ flat out = firstn (len (block 2) * 2) (flat chunkA)
       /\ length (flat out) = len (block 2) * 2
       /\ _leftover_buffer self' = Some leftover
       /\ len leftover = len chunkA - len (block 2)
       /\ flat leftover = skipn (len (block 2) * 2) (flat chunkA)
       /\ forall q : Queue Z,
            Forall (@stereo Z) (items q) ->
            exists buffer' self2,
              accumulation_buffer (set_queue q self') = (Ok buffer', self2)
              /\ flat buffer' = flat leftover ++ head_samples q
              /\ len buffer' = len leftover + head_rows q
              /\ items (_queue self2) = tl (items q).
Proof.
  assert (H2 : shape (block 2) = [len (block 2); 2]) by reflexivity.
  assert (H3 : accumulation_buffer demo_player = (Ok chunkA, demo_player_taken))
    by reflexivity.
  assert (H4 : len (block 2) < len chunkA) by (unfold len; simpl; lia).
  split; [exact demo_player_ok|]. split; [exact H2|]. split; [exact H3|].
  split; [exact H4|].
  exact (@leftover_carries_over Z 0%Z demo_player (block 2) chunkA
           demo_player_taken demo_player_ok H2 H3 H4).
Defined.

(** Three frames available, four asked for: the fourth is silence. *)
Lemma underrun_is_silence_witness :
  player_ok demo_player
  /\ shape (block 4) = [len (block 4); 2]
  /\ accumulation_buffer demo_player = (Ok chunkA, demo_player_taken)
  /\ len chunkA < len (block 4)
  /\ exists out self',
       _audio_callback 0%Z (block 4) demo_player = (Ok out, self')
       /\ shape out = shape (block 4)
       /\ length (flat out) = len (block 4) * 2
       /\ firstn (len chunkA * 2) (flat out) = flat chunkA
       /\ skipn (len chunkA * 2) (flat out)
          = repeat 0%Z ((len (block 4) - len chunkA) * 2)
       /\ holds_no_frames (_leftover_buffer self')
       /\ (items (_queue demo_player) = [] ->
           holds_no_frames (_leftover_buffer demo_player) ->
           flat out = repeat 0%Z (len (block 4) * 2)).
Proof.
  assert (H2 : shape (block 4) = [len (block 4); 2]) by reflexivity.
  assert (H3 : accumulation_buffer demo_player = (Ok chunkA, demo_player_taken))
    by reflexivity.
  assert (H4 : len chunkA < len (block 4)) by (unfold len; simpl; lia).
  split; [exact demo_player_ok|]. split; [exact H2|]. split; [exact H3|].
  split; [exact H4|].
  exact (@underrun_is_silence Z 0%Z demo_player (block 4) chunkA
           demo_player_taken demo_player_ok H2 H3 H4).
Defined.

Lemma stereo_tone (v : Z) (n : nat) : stereo (tone v n).
Proof. split; [reflexivity | apply repeat_length]. Defined.

(** The scenario as the specification tells it, on two chunks of 100
    frames and a block of 150: the first callback does not deliver chunk
    A followed by the first 50 frames of chunk B. *)
Lemma scenario_first_block_is_not_A_then_half_of_B :
  ~ exists out self',
      _audio_callback 0%Z (block 150) (scenario_player (tone 1 100) (tone 2 100))
      = (Ok out, self')
      /\ flat out = flat (tone 1 100) ++ firstn (50 * 2) (flat (tone 2 100))
      /\ leftover_samples self' = skipn (50 * 2) (flat (tone 2 100)).
Proof.
  intros (out & self' & Hcb & Hflat & _).
  vm_compute in Hcb. inversion Hcb; subst out self'. clear Hcb.
  vm_compute in Hflat.
  apply (f_equal (fun l => nth 200 l 7%Z)) in Hflat. vm_compute in Hflat.
  discriminate Hflat.
Qed.

(** The scenario as the code runs it. *)
Lemma one_fetch_per_callback_witness :
  stereo (tone 1 100) /\ stereo (tone 2 100)
  /\ len (tone 1 100) = 100 /\ len (tone 2 100) = 100
  /\ shape (block 150) = [150; 2]
  /\ (forall self blk,
        player_ok self -> shape blk = [len blk; 2] ->
        exists out self',
          _audio_callback 0%Z blk self = (Ok out, self')
          /\ items (_queue self') = tl (items (_queue self)))
  /\ exists out1 self1 out2 self2,
       _audio_callback 0%Z (block 150) (scenario_player (tone 1 100) (tone 2 100))
       = (Ok out1, self1)
       /\ flat out1 = flat (tone 1 100) ++ repeat 0%Z (50 * 2)
       /\ _leftover_buffer self1 = None
       /\ items (_queue self1) = [tone 2 100]
       /\ _audio_callback 0%Z (block 150) self1 = (Ok out2, self2)
       /\ flat out2 = flat (tone 2 100) ++ repeat 0%Z (50 * 2)
       /\ _leftover_buffer self2 = None
       /\ items (_queue self2) = [].
Proof.
  assert (H3 : len (tone 1 100) = 100) by reflexivity.
  assert (H4 : len (tone 2 100) = 100) by reflexivity.
  assert (H5 : shape (block 150) = [150; 2]) by reflexivity.
  split; [exact (stereo_tone 1 100)|]. split; [exact (stereo_tone 2 100)|].
  split; [exact H3|]. split; [exact H4|]. split; [exact H5|].
  exact (@one_fetch_per_callback Z 0%Z (tone 1 100) (tone 2 100) (block 150)
           (stereo_tone 1 100) (stereo_tone 2 100) H3 H4 H5).
Defined.

(** [stop()] while the first session plays. *)
Lemma stop_sets_flag_joins_then_releases_witness :
  _stream_thread (self_ playing) = Some 0
  /\ _player (self_ playing) = Some (fresh_player Z 200 0)
  /\ exists p',
       stop playing = (Ok tt, p')
       /\ happened p'
          = happened playing
              ++ [ExitWorkerSet true; ThreadJoined 0;
                  StreamStopped (_audio_stream (fresh_player Z 200 0));
                  StreamClosed (_audio_stream (fresh_player Z 200 0))]
       /\ _exit_worker (self_ p') = Some true
       /\ ~ In 0 (live_threads
                    (ThreadJoined 0 :: ExitWorkerSet true :: hist (outside playing))).
Proof.
  assert (H1 : _stream_thread (self_ playing) = Some 0) by reflexivity.
  assert (H2 : _player (self_ playing) = Some (fresh_player Z 200 0))
    by reflexivity.
  split; [exact H1|]. split; [exact H2|].
  exact (@stop_sets_flag_joins_then_releases Z playing 0 (fresh_player Z 200 0)
           H1 H2).
Defined.

(** [play(50)] while the session started by [play(0)] plays. *)
Lemma play_replaces_session_witness :
  (0 < 44100)%Z
  /\ do_calls [Play (QArith_base.Qmake 0 1)] (program0 44100) = (Ok tt, playing)
  /\ _stream_thread (self_ playing) = Some 0
  /\ exists old p',
       _player (self_ playing) = Some old
       /\ play (QArith_base.Qmake 50 1) playing = (Ok tt, p')
       /\ happened p'
          = happened playing
              ++ [ExitWorkerSet true; ThreadJoined 0;
                  StreamStopped (_audio_stream old);
                  StreamClosed (_audio_stream old);
                  StreamOpened (next_stream (outside playing)) 44100 2;
                  StreamStarted (next_stream (outside playing));
                  ExitWorkerSet false;
                  ThreadStarted (next_thread (outside playing))
                                (QArith_base.Qmake 50 1)]
       /\ _stream_thread (self_ p') = Some (next_thread (outside playing))
       /\ live_threads (hist (outside p')) = [next_thread (outside playing)]
       /\ open_streams (hist (outside p')) = [next_stream (outside playing)]
       /\ active_streams (hist (outside p')) = [next_stream (outside playing)]
       /\ at_every_instant at_most_one (hist (outside p'))
       /\ forall cs' r q,
            do_calls cs' p' = (r, q) ->
            at_every_instant at_most_one (hist (outside q)).
Proof.
  assert (H1 : (0 < 44100)%Z) by reflexivity.
  assert (H2 : do_calls [Play (QArith_base.Qmake 0 1)] (program0 44100)
               = (Ok tt, playing)) by reflexivity.
  assert (H3 : _stream_thread (self_ playing) = Some 0) by reflexivity.
  split; [exact H1|]. split; [exact H2|]. split; [exact H3|].
  exact (@play_replaces_session Z 44100%Z [Play (QArith_base.Qmake 0 1)] playing 0
           (QArith_base.Qmake 50 1) H1 H2 H3).
Defined.

(** The flag is set while the second frame of the second packet is next:
    that frame and all that follows are never enqueued. *)
Lemma cancel_is_checked_before_each_frame_witness :
  _stream_and_play set_at_third_read 2 ([Ok [frameA; frameB]] ++ [Ok [frameA]])
  = (Ok Continue, demo_worker)
  /\ set_at_third_read (reads demo_worker) = true
  /\ reads demo_worker = frames_decoded ([Ok [frameA; frameB]] ++ [Ok [frameA]])
  /\ (forall k, k < reads demo_worker -> set_at_third_read k = false)
  /\ _stream_and_play set_at_third_read 2
       ([Ok [frameA; frameB]] ++ Ok ([frameA] ++ frameB :: [frameA]) :: [Ok [frameB]])
     = (Ok Return,
        mk_worker (chunk demo_worker) (sent demo_worker) (S (reads demo_worker))).
Proof.
  assert (H1 : _stream_and_play set_at_third_read 2
                 ([Ok [frameA; frameB]] ++ [Ok [frameA]])
               = (Ok Continue, demo_worker)) by reflexivity.
  assert (H2 : set_at_third_read (reads demo_worker) = true) by reflexivity.
  split; [exact H1|]. split; [exact H2|].
  exact (@cancel_is_checked_before_each_frame Z set_at_third_read 2
           [Ok [frameA; frameB]] [Ok [frameB]] [frameA] [frameA] frameB
           demo_worker H1 H2).
Defined.

(** The decoder fails on the third packet, in a session started by
    [play(0)]: one chunk of six frames is enqueued, one frame waits in
    [chunk].  The device had asked for four frames before the failure;
    the two frames left are played after it. *)
Lemma decode_failure_is_end_of_stream_witness :
  _stream_and_play never_set 2 [Ok [frameA; frameB]; Ok [frameA]]
  = (Ok Continue, demo_worker)
  /\ Forall (@stereo Z) (sent demo_worker)
  /\ _stream_and_play never_set 2
       ([Ok [frameA; frameB]; Ok [frameA]] ++ Raise (AVError 1) :: [Ok [frameB]])
     = (Raise (AVError 1), demo_worker)
  /\ (exists p1,
        Thread_run never_set 2
          ([Ok [frameA; frameB]; Ok [frameA]] ++ Raise (AVError 1) :: [Ok [frameB]])
          playing
        = (Ok (Some (AVError 1), demo_worker), p1)
        /\ Thread_run never_set 2 [Ok [frameA; frameB]; Ok [frameA]] playing
           = (Ok (None, demo_worker), p1)
        /\ live_threads (hist (outside p1)) = []
        /\ (exists p2, stop p1 = (Ok tt, p2))
        /\ (forall start_time_seconds, exists p3,
              play start_time_seconds p1 = (Ok tt, p3)))
  /\ (exists k outs' final,
        callbacks 0%Z k (block 4)
          (mk_StreamingAudioPlayer (mk_Queue 200 []) 0
             (Some (mk_ndarray [2; 2] [9; 10; 11; 12]%Z)))
        = Some (outs', final)
        /\ drained final
        /\ audio_delivered 0%Z
             ([Enqueue (mk_ndarray [6; 2] [1; 2; 3; 4; 5; 6; 7; 8; 9; 10; 11; 12]%Z);
               Request (block 4)] ++ repeat (Request (block 4)) k)
             (fresh_player Z 200 0)
           = [1; 2; 3; 4; 5; 6; 7; 8; 9; 10; 11; 12]%Z
        /\ forall m, exists final',
             callbacks 0%Z m (block 4) final
             = Some (repeat (silent_block 0%Z (block 4)) m, final')
             /\ drained final'
             /\ underruns (block 4) final' = true).
Proof.
  assert (H1 : _stream_and_play never_set 2 [Ok [frameA; frameB]; Ok [frameA]]
               = (Ok Continue, demo_worker)) by reflexivity.
  assert (H2 : Forall (@stereo Z) (sent demo_worker)).
  { simpl. constructor; [split; reflexivity | constructor]. }
  destruct (@decode_failure_is_end_of_stream Z 0%Z never_set 2
              [Ok [frameA; frameB]; Ok [frameA]] [Ok [frameB]] (AVError 1)
              demo_worker H1 H2) as (Hfail & Hthread & Hdrain).
  split; [exact H1|]. split; [exact H2|]. split; [exact Hfail|]. split.
  - apply (Hthread 44100%Z [Play (QArith_base.Qmake 0 1)] (Ok tt) playing);
      [lia | reflexivity].
  - apply (Hdrain
             [Enqueue (mk_ndarray [6; 2] [1; 2; 3; 4; 5; 6; 7; 8; 9; 10; 11; 12]%Z);
              Request (block 4)]
             200%Z 0 [mk_ndarray [4; 2] [1; 2; 3; 4; 5; 6; 7; 8]%Z]
             (mk_StreamingAudioPlayer (mk_Queue 200 []) 0
                (Some (mk_ndarray [2; 2] [9; 10; 11; 12]%Z)))
             (block 4));
      [reflexivity | reflexivity | reflexivity | vm_compute; lia].
Defined.

(** The assertions on a one-column array, a two-column array and a
    negative sample rate. *)
Lemma assertions_guard_the_player_witness :
  add_audio (mk_ndarray [3; 1] [1; 2; 3]%Z) demo_player
  = (Raise AssertionError, demo_player)
  /\ add_audio chunkB demo_player
     = (Ok Returned,
        mk_StreamingAudioPlayer (mk_Queue 200 [chunkA; chunkB]) 0 None)
  /\ StreamingAudioPlayer_init (sample:=Z) (-1) 200 world0
     = (Raise AssertionError, world0).
Proof.
  destruct (assertions_guard_the_player Z) as (Hbad & Hgood & Hinit).
  split; [|split].
  - apply (Hbad (mk_ndarray [3; 1] [1; 2; 3]%Z) demo_player 1);
      [reflexivity | discriminate].
  - rewrite (Hgood chunkB demo_player); reflexivity.
  - apply Hinit. left. lia.
Defined.

(** * Further properties *)

(** ** The queue and its bound *)

Section QueueFacts.

Variable sample : Type.
Variable zero : sample.

Implicit Types (self : StreamingAudioPlayer sample) (outdata : ndarray sample).

(** Whatever the arrays involved, a callback that returns has taken the
    head of the queue, if there was one, and nothing else. *)
Lemma callback_queue self outdata out self' :
  _audio_callback zero outdata self = (Ok out, self') ->
  _queue self' = mk_Queue (maxsize (_queue self)) (tl (items (_queue self))).
Proof.
  destruct self as [[m its] h slot].
  unfold _audio_callback, accumulation_buffer, try_except_Empty,
    queue_get_nowait, get_nowait, set_leftover_buffer, set_queue.
  run_monad.
  repeat match goal with
         | |- context [match ?x with _ => _ end] =>
             lazymatch x with
             | context [match _ with _ => _ end] => fail
             | _ => destruct x; simpl
             end
         end;
    intros H; inversion H; reflexivity.
Qed.

(** An [add_audio] returns only when the queue has room. *)
Lemma add_audio_returned_room self (c : ndarray sample) self' :
  add_audio c self = (Ok Returned, self') -> full (_queue self) = false.
Proof.
  unfold add_audio, assert_two_columns, put. run_monad.
  destruct (shape_at c 1) as [n|e]; simpl; [|discriminate].
  destruct (n =? 2); simpl; [|discriminate].
  destruct (full (_queue self)); [discriminate | reflexivity].
Qed.

Lemma step_keeps_bound (a : action sample) self o self' (size : Z) :
  (0 < size)%Z ->
  maxsize (_queue self) = size ->
  (Z.of_nat (length (items (_queue self))) <= size)%Z ->
  step zero a self = Some (o, self') ->
  maxsize (_queue self') = size
  /\ (Z.of_nat (length (items (_queue self'))) <= size)%Z.
Proof.
  intros Hpos Hmax Hlen Hstep. destruct a as [c|outdata]; simpl in Hstep.
  - destruct (add_audio c self) as [[[|]|] s2] eqn:Hadd; try discriminate.
    inversion Hstep; subst o s2. clear Hstep.
    pose proof (@add_audio_returned_room self c self' Hadd) as Hroom.
    apply add_audio_returned in Hadd. subst self'. simpl.
    split; [exact Hmax|]. unfold full in Hroom. rewrite Hmax in Hroom.
    apply Z.ltb_lt in Hpos. rewrite Hpos in Hroom. simpl in Hroom.
    apply Z.leb_gt in Hroom. rewrite length_app. simpl. lia.
  - destruct (_audio_callback zero outdata self) as [[out|] s2] eqn:Hcb;
      try discriminate.
    inversion Hstep; subst o s2. clear Hstep.
    rewrite (@callback_queue self outdata out self' Hcb). simpl. split; [exact Hmax|].
    destruct (items (_queue self)); simpl in *; lia.
Qed.

Lemma run_keeps_bound (acts : list (action sample)) (size : Z) :
  (0 < size)%Z ->
  forall self outs final,
    maxsize (_queue self) = size ->
    (Z.of_nat (length (items (_queue self))) <= size)%Z ->
    run zero acts self = Some (outs, final) ->
    maxsize (_queue final) = size
    /\ (Z.of_nat (length (items (_queue final))) <= size)%Z.
Proof.
  intros Hpos. induction acts as [|a acts IH]; intros self outs final Hmax Hlen Hrun;
    simpl in Hrun.
  - inversion Hrun; subst. now split.
  - destruct (step zero a self) as [[o s1]|] eqn:Hstep; [|discriminate].
    destruct (run zero acts s1) as [[os fin]|] eqn:Hrest; [|discriminate].
    inversion Hrun; subst outs fin. clear Hrun.
    destruct (@step_keeps_bound a self o s1 size Hpos Hmax Hlen Hstep) as [Hmax1 Hlen1].
    exact (IH s1 os final Hmax1 Hlen1 Hrest).
Qed.

(** X1.  Whatever is enqueued and requested, in whatever order, the
    queue of a player built with a positive [queue_size] never holds more
    than [queue_size] chunks: an [add_audio] that would go beyond does
    not return. *)
Theorem queue_never_exceeds_its_bound (acts : list (action sample)) (size : Z)
    (h : nat) (outs : list (ndarray sample)) (final : StreamingAudioPlayer sample) :
  (0 < size)%Z ->
  run zero acts (fresh_player sample size h) = Some (outs, final) ->
  maxsize (_queue final) = size
  /\ (Z.of_nat (length (items (_queue final))) <= size)%Z.
Proof.
  intros Hpos Hrun.
  apply (@run_keeps_bound acts size Hpos (fresh_player sample size h) outs final
           eq_refl); [simpl; lia | exact Hrun].
Qed.

(** ** Audio through underruns *)

(** X2.  In any run on a new player, underruns included, the samples
    that the callbacks take from their buffers, in the order they are
    written, followed by what the player still holds, are the samples of
    the enqueued chunks in order.  An underrun puts silence after the
    audio of its block; it never drops, repeats or reorders audio. *)
Theorem audio_is_never_lost (acts : list (action sample)) (size : Z) (h : nat)
    (outs : list (ndarray sample)) (final : StreamingAudioPlayer sample) :
  Forall (@stereo sample) (enqueued acts) ->
  run zero acts (fresh_player sample size h) = Some (outs, final) ->
  audio_delivered zero acts (fresh_player sample size h) ++ pending final
  = samples_of (enqueued acts).
Proof.
  intros Hst Hrun.
  assert (Hok : player_ok (fresh_player sample size h))
    by (split; simpl; [trivial | constructor]).
  exact (@run_payload_conserves sample zero acts (fresh_player sample size h)
           outs final Hok Hst Hrun).
Qed.

End QueueFacts.

(** ** What a block holds afterwards *)

Section BlockFacts.

Variable sample : Type.
Variable zero : sample.

Implicit Types (self : StreamingAudioPlayer sample) (outdata c : ndarray sample).

(** X3.  What the callback leaves in a block does not depend on what the
    block held before: every sample of it is overwritten, with audio or
    with zero.  Two blocks of the same shape come back equal, and the
    player ends in the same state. *)
Theorem callback_overwrites_the_block self (block1 block2 : ndarray sample) :
  player_ok self ->
  shape block1 = [len block1; 2] ->
  shape block2 = shape block1 ->
  _audio_callback zero block1 self = _audio_callback zero block2 self.
Proof.
  intros Hok H1 H12.
  assert (Hlen : len block2 = len block1) by (unfold len; now rewrite H12).
  assert (H2 : shape block2 = [len block2; 2]) by (rewrite Hlen, H12; exact H1).
  destruct (accumulation_buffer_spec Hok) as (b & Hb & Hst & _ & _).
  destruct (Nat.le_gt_cases (len block1) (len b)) as [Hle|Hlt].
  - rewrite (callback_enough_returns zero self block1 Hb Hst H1 Hle).
    rewrite (callback_enough_returns zero self block2 Hb Hst H2)
      by (rewrite Hlen; exact Hle).
    now rewrite Hlen, H12.
  - rewrite (callback_underrun zero self block1 Hb Hst H1 Hlt).
    rewrite (callback_underrun zero self block2 Hb Hst H2)
      by (rewrite Hlen; exact Hlt).
    now rewrite Hlen, H12.
Qed.

(** *** Chunks shorter than the block *)

Lemma one_small_chunk self outdata c (rest : list (ndarray sample)) :
  player_ok self ->
  holds_no_frames (_leftover_buffer self) ->
  items (_queue self) = c :: rest ->
  shape outdata = [len outdata; 2] ->
  len c < len outdata ->
  exists self',
    _audio_callback zero outdata self = (Ok (padded zero outdata c), self')
    /\ player_ok self'
    /\ holds_no_frames (_leftover_buffer self')
    /\ items (_queue self') = rest.
Proof.
  intros Hok Hnone Hq Hout Hlt.
  destruct (accumulation_buffer_spec Hok) as (b & Hb & Hst & Hflat & Hlen).
  destruct (callback_total zero outdata Hok Hout)
    as (out & self' & Hcb & _ & _ & Hq' & Hok').
  unfold head_rows, head_samples, leftover_samples in Hflat, Hlen.
  rewrite Hq in Hflat, Hlen.
  assert (Hrows : rows_of_slot (_leftover_buffer self) = 0).
  { destruct (_leftover_buffer self); simpl in *; [apply Hnone | reflexivity]. }
  assert (Hleft : match _leftover_buffer self with
                  | Some l => flat l | None => [] end = []).
  { destruct (_leftover_buffer self); simpl in *; [apply Hnone | reflexivity]. }
  rewrite Hleft in Hflat. rewrite Hrows in Hlen. simpl in Hflat, Hlen.
  assert (Hlt' : len b < len outdata) by lia.
  rewrite (callback_underrun zero self outdata Hb Hst Hout Hlt') in Hcb |- *.
  inversion Hcb; subst out self'. clear Hcb.
  eexists. split.
  { unfold padded. rewrite Hflat, Hlen. reflexivity. }
  split; [exact Hok'|]. split; simpl.
  - apply slot_after_take_holds_no_frames, Hok.
  - now rewrite Hq.
Qed.

(** X4.  With no leftover and a queue of chunks that are each shorter
    than the block asked for, every callback underruns although the
    queue is not empty: it takes one chunk, pads it with zeros and leaves
    the others where they are.  As many callbacks as there are chunks
    empty the queue, one padded chunk per block. *)
Theorem short_chunks_underrun_one_by_one outdata :
  shape outdata = [len outdata; 2] ->
  forall (chunks : list (ndarray sample)) self,
    player_ok self ->
    holds_no_frames (_leftover_buffer self) ->
    items (_queue self) = chunks ->
    Forall (fun c => len c < len outdata) chunks ->
    exists final,
      callbacks zero (length chunks) outdata self
      = Some (map (padded zero outdata) chunks, final)
      /\ items (_queue final) = []
      /\ holds_no_frames (_leftover_buffer final).
Proof.
  intros Hout. induction chunks as [|c rest IH]; intros self Hok Hnone Hq Hshort.
  - exists self. split; [reflexivity|]. now split.
  - inversion Hshort as [|? ? Hc Hrest]; subst.
    destruct (@one_small_chunk self outdata c rest Hok Hnone Hq Hout Hc)
      as (self' & Hcb & Hok' & Hnone' & Hq').
    destruct (IH self' Hok' Hnone' Hq' Hrest) as (final & Hrun & Hqf & Hnf).
    exists final. simpl. rewrite Hcb, Hrun. split; [reflexivity|]. now split.
Qed.

(** *** Chunks longer than the block *)

Lemma one_large_chunk self outdata c (rest : list (ndarray sample)) :
  player_ok self ->
  items (_queue self) = c :: rest ->
  shape outdata = [len outdata; 2] ->
  len outdata <= len c ->
  exists out self',
    _audio_callback zero outdata self = (Ok out, self')
    /\ player_ok self'
    /\ items (_queue self') = rest
    /\ rows_of_slot (_leftover_buffer self') + len outdata
       = rows_of_slot (_leftover_buffer self) + len c
    /\ flat out ++ leftover_samples self' = leftover_samples self ++ flat c.
Proof.
  intros Hok Hq Hout Hle.
  destruct (accumulation_buffer_spec Hok) as (b & Hb & Hst & Hflat & Hlen).
  destruct (callback_total zero outdata Hok Hout)
    as (out & self' & Hcb & _ & _ & Hq' & Hok').
  unfold head_rows, head_samples in Hflat, Hlen. rewrite Hq in Hflat, Hlen.
  assert (Hle' : len outdata <= len b) by lia.
  destruct (callback_enough zero self outdata Hb Hle' Hcb) as [-> ->].
  eexists _, _. split; [exact Hcb|]. split; [exact Hok'|].
  split; [simpl; now rewrite Hq|]. split.
  - simpl. unfold rows_from, len at 1. simpl. lia.
  - unfold leftover_samples at 1. simpl. rewrite firstn_skipn. exact Hflat.
Qed.

(** X5.  The callback takes a chunk off the queue at every call, whatever
    it already holds.  With a queue of chunks that are each at least as
    long as the block, no callback underruns, every block is audio, and
    the leftover grows by the surplus of each chunk: after as many
    callbacks as there were chunks the queue is empty and the leftover
    holds all the rows that arrived beyond the blocks handed out. *)
Theorem long_chunks_pile_up_in_the_leftover outdata :
  shape outdata = [len outdata; 2] ->
  forall (chunks : list (ndarray sample)) self,
    player_ok self ->
    items (_queue self) = chunks ->
    Forall (fun c => len outdata <= len c) chunks ->
    exists outs final,
      callbacks zero (length chunks) outdata self = Some (outs, final)
      /\ items (_queue final) = []
      /\ rows_of_slot (_leftover_buffer final) + length chunks * len outdata
         = rows_of_slot (_leftover_buffer self) + total_rows chunks
      /\ samples_of outs ++ leftover_samples final = pending self.
Proof.
  intros Hout. induction chunks as [|c rest IH]; intros self Hok Hq Hlong.
  - exists [], self. split; [reflexivity|]. split; [exact Hq|].
    split; [simpl; lia|]. unfold pending. rewrite Hq. simpl.
    now rewrite app_nil_r.
  - inversion Hlong as [|? ? Hc Hrest]; subst.
    destruct (@one_large_chunk self outdata c rest Hok Hq Hout Hc)
      as (out & self' & Hcb & Hok' & Hq' & Hrows & Hsamples).
    destruct (IH self' Hok' Hq' Hrest)
      as (outs & final & Hrun & Hqf & Hrowsf & Hsamplesf).
    exists (out :: outs), final. simpl callbacks. rewrite Hcb, Hrun.
    split; [reflexivity|]. split; [exact Hqf|]. split.
    + simpl. lia.
    + unfold pending in Hsamplesf |- *. rewrite Hq, Hq' in *.
      unfold samples_of in *. simpl.
      rewrite <- app_assoc, Hsamplesf, !app_assoc. f_equal. exact Hsamples.
Qed.

End BlockFacts.

(** ** From decoded frames to chunks *)

Section FrameFacts.

Variable sample : Type.

Implicit Types (f : AudioFrame sample) (l r : list sample).

Lemma flat_map_ext_in (A B : Type) (g1 g2 : A -> list B) (xs : list A) :
  (forall x, In x xs -> g1 x = g2 x) -> flat_map g1 xs = flat_map g2 xs.
Proof.
  induction xs as [|x xs IH]; intros H; simpl; [reflexivity|].
  rewrite (H x) by now left. rewrite IH; [reflexivity|].
  intros y Hy. apply H. now right.
Qed.

Lemma interleave_length l : forall r,
  length l = length r -> length (interleave l r) = 2 * length l.
Proof.
  induction l as [|x l IH]; intros [|y r] H; simpl in *; try discriminate;
    [reflexivity|].
  rewrite IH by congruence. lia.
Qed.

(** Reading two lists of the same length index by index, one element of
    each in turn, is interleaving them. *)
Lemma interleave_by_index l : forall r k,
  length l = length r ->
  flat_map (fun j =>
              match nth_error l (j - k) with Some x => [x] | None => [] end
              ++ match nth_error r (j - k) with Some y => [y] | None => [] end)
           (seq k (length l))
  = interleave l r.
Proof.
  induction l as [|x l IH]; intros [|y r] k H; simpl in *; try discriminate;
    [reflexivity|].
  rewrite Nat.sub_diag. simpl. do 2 f_equal.
  rewrite <- (IH r (S k)) by congruence.
  apply flat_map_ext_in. intros j Hj. apply in_seq in Hj.
  replace (j - k) with (S (j - S k)) by lia. reflexivity.
Qed.

(** The transpose of a planar stereo frame: one row per sample time, the
    left sample then the right one. *)
Lemma frame_audio_planar f :
  planar_stereo f ->
  frame_audio f
  = mk_ndarray [frame_columns f; 2]
      (interleave (firstn (frame_columns f) (frame_data f))
                  (skipn (frame_columns f) (frame_data f))).
Proof.
  intros [Hrows Hlen]. unfold frame_audio, to_ndarray, transpose.
  rewrite Hrows. simpl. f_equal.
  set (n := frame_columns f) in *. set (d := frame_data f) in *.
  assert (Hl : length (firstn n d) = n) by (rewrite length_firstn; lia).
  assert (Hr : length (skipn n d) = n) by (rewrite length_skipn; lia).
  rewrite <- (interleave_by_index (firstn n d) (skipn n d) 0) by congruence.
  rewrite Hl. apply flat_map_ext_in. intros j Hj. apply in_seq in Hj.
  rewrite app_nil_r, Nat.sub_0_r, Nat.add_0_r.
  rewrite <- (firstn_skipn n d) at 1 2.
  rewrite nth_error_app1 by lia.
  rewrite nth_error_app2 by lia. rewrite Hl.
  replace (n + j - n) with j by lia. reflexivity.
Qed.

Lemma frame_audio_stereo f : planar_stereo f -> stereo (frame_audio f).
Proof.
  intros Hf. rewrite (frame_audio_planar Hf). apply stereo_intro.
  destruct Hf as [_ Hlen].
  rewrite interleave_length; rewrite length_firstn; [lia|].
  rewrite length_skipn. lia.
Qed.

(** X6.  Lines 167 and 168 turn a planar stereo frame, all left samples
    then all right samples, into the array [add_audio] wants: one row per
    sample time holding the left and the right sample of that time, in
    the order of the frame. *)
Theorem planar_frame_becomes_rows_of_left_and_right f :
  planar_stereo f ->
  frame_audio f
  = mk_ndarray [frame_columns f; 2]
      (interleave (firstn (frame_columns f) (frame_data f))
                  (skipn (frame_columns f) (frame_data f)))
  /\ stereo (frame_audio f)
  /\ len (frame_audio f) = frame_columns f.
Proof.
  intros Hf. split; [now apply frame_audio_planar|].
  split; [now apply frame_audio_stereo|].
  rewrite (frame_audio_planar Hf). reflexivity.
Qed.

End FrameFacts.

(** ** Chunks *)

Section ChunkFacts.

Variable sample : Type.
Variable exit_worker_at : nat -> bool.
Variable CHUNK_SIZE : nat.

Implicit Types (w : worker sample) (f : AudioFrame sample).

Lemma concatenate_onto_stereo (rest : list (ndarray sample)) :
  forall acc,
    stereo acc -> Forall (@stereo sample) rest ->
    exists combined,
      concatenate_onto acc rest = Ok combined
      /\ stereo combined
      /\ flat combined = flat acc ++ samples_of rest.
Proof.
  induction rest as [|b rest IH]; intros acc Hacc Hrest; simpl.
  - exists acc. split; [reflexivity|]. split; [exact Hacc|].
    now rewrite app_nil_r.
  - inversion Hrest as [|? ? Hb Hrest']; subst.
    destruct (stereo_inv Hacc) as (n & l & -> & Hl).
    destruct (stereo_inv Hb) as (n' & l' & -> & Hl'). simpl.
    destruct (IH (mk_ndarray [n + n'; 2] (l ++ l'))) as (c & Hc & Hst & Hflat);
      [apply stereo_intro; rewrite length_app; lia | exact Hrest'|].
    exists c. unfold len. simpl. split; [exact Hc|]. split; [exact Hst|].
    rewrite Hflat. simpl. now rewrite <- app_assoc.
Qed.

(** [np.concatenate] of stereo arrays, at least one: a stereo array with
    their samples one after the other. *)
Lemma np_concatenate_stereo (arrays : list (ndarray sample)) :
  arrays <> [] -> Forall (@stereo sample) arrays ->
  exists combined,
    np_concatenate arrays = Ok combined
    /\ stereo combined
    /\ flat combined = samples_of arrays.
Proof.
  destruct arrays as [|a rest]; intros Hne Hst; [congruence|].
  inversion Hst as [|? ? Ha Hrest]; subst.
  destruct (concatenate_onto_stereo Ha Hrest) as (c & Hc & Hsc & Hflat).
  exists c. unfold np_concatenate.
  destruct (stereo_inv Ha) as (n & l & -> & _). simpl in *.
  split; [exact Hc|]. split; [exact Hsc | exact Hflat].
Qed.

Lemma assert_two_columns_stereo (a : ndarray sample) w :
  stereo a -> assert_two_columns a w = (Ok tt, w).
Proof.
  intros Ha. destruct (stereo_inv Ha) as (n & l & -> & _). reflexivity.
Qed.

(** One planar stereo frame more, the flag being clear. *)
Lemma frame_body_chunked f (seen : list (AudioFrame sample)) w :
  0 < CHUNK_SIZE ->
  exit_worker_at (reads w) = false ->
  planar_stereo f ->
  chunked CHUNK_SIZE seen w ->
  exists w',
    frame_body exit_worker_at CHUNK_SIZE f w = (Ok Continue, w')
    /\ chunked CHUNK_SIZE (seen ++ [f]) w'.
Proof.
  intros Hpos Hflag Hf (Hsent & Hchunk & Hsamples & Hcount & Hless).
  pose proof (frame_audio_stereo Hf) as Haudio.
  assert (Hchunk' : Forall (@stereo sample) (chunk w ++ [frame_audio f]))
    by (apply Forall_app; split; [exact Hchunk | now constructor]).
  assert (Hseen : flat_map (fun f0 => flat (frame_audio f0)) (seen ++ [f])
                  = (samples_of (sent w) ++ samples_of (chunk w))
                      ++ flat (frame_audio f)).
  { rewrite flat_map_app, Hsamples. simpl. now rewrite app_nil_r. }
  unfold frame_body, read_exit_worker, chunk_append, chunk_clear,
    player_add_audio. run_monad. rewrite Hflag. cbn [chunk sent reads].
  fold (frame_audio f).
  destruct (length (chunk w ++ [frame_audio f]) =? CHUNK_SIZE) eqn:Hfull.
  - apply Nat.eqb_eq in Hfull.
    destruct (@np_concatenate_stereo (chunk w ++ [frame_audio f]))
      as (c & Hc & Hsc & Hflat);
      [now destruct (chunk w) | exact Hchunk'|].
    rewrite Hc. rewrite (assert_two_columns_stereo _ Hsc). simpl.
    eexists. split; [reflexivity|]. unfold chunked. simpl.
    split; [apply Forall_app; split; [exact Hsent | now constructor]|].
    split; [constructor|]. split.
    { rewrite Hseen. unfold samples_of in *. rewrite flat_map_app. simpl.
      rewrite !app_nil_r, Hflat, flat_map_app. simpl.
      now rewrite app_nil_r, app_assoc. }
    rewrite !length_app in *. simpl in *. split; lia.
  - apply Nat.eqb_neq in Hfull.
    eexists. split; [reflexivity|]. unfold chunked. simpl.
    split; [exact Hsent|]. split; [exact Hchunk'|]. split.
    { rewrite Hseen. unfold samples_of in *. rewrite flat_map_app. simpl.
      now rewrite app_nil_r, app_assoc. }
    rewrite !length_app in *. simpl in *. split; lia.
Qed.

Lemma for_frames_chunked (frames : list (AudioFrame sample)) :
  0 < CHUNK_SIZE ->
  (forall k, exit_worker_at k = false) ->
  Forall (@planar_stereo sample) frames ->
  forall (seen : list (AudioFrame sample)) w,
    chunked CHUNK_SIZE seen w ->
    exists w',
      for_each (frame_body exit_worker_at CHUNK_SIZE) frames w = (Ok Continue, w')
      /\ chunked CHUNK_SIZE (seen ++ frames) w'.
Proof.
  intros Hpos Hflag. induction frames as [|f frames IH]; intros Hfs seen w Hw.
  - exists w. split; [reflexivity|]. now rewrite app_nil_r.
  - inversion Hfs as [|? ? Hf Hfs']; subst.
    destruct (@frame_body_chunked f seen w Hpos (Hflag _) Hf Hw) as (w1 & H1 & Hw1).
    destruct (IH Hfs' (seen ++ [f]) w1 Hw1) as (w' & H' & Hw').
    exists w'. simpl. unfold bind. rewrite H1. split; [exact H'|].
    now rewrite <- app_assoc in Hw'.
Qed.

Lemma for_packets_chunked (packs : list (list (AudioFrame sample))) :
  0 < CHUNK_SIZE ->
  (forall k, exit_worker_at k = false) ->
  Forall (Forall (@planar_stereo sample)) packs ->
  forall (seen : list (AudioFrame sample)) w,
    chunked CHUNK_SIZE seen w ->
    exists w',
      for_packets exit_worker_at CHUNK_SIZE (map Ok packs) w = (Ok Continue, w')
      /\ chunked CHUNK_SIZE (seen ++ concat packs) w'.
Proof.
  intros Hpos Hflag. unfold for_packets.
  induction packs as [|fs packs IH]; intros Hps seen w Hw.
  - exists w. split; [reflexivity|]. simpl. now rewrite app_nil_r.
  - inversion Hps as [|? ? Hfs Hps']; subst.
    destruct (@for_frames_chunked fs Hpos Hflag Hfs seen w Hw) as (w1 & H1 & Hw1).
    destruct (IH Hps' (seen ++ fs) w1 Hw1) as (w' & H' & Hw').
    exists w'. simpl. unfold bind, packet_body, lift. unfold bind.
    rewrite H1. split; [exact H'|]. now rewrite <- app_assoc in Hw'.
Qed.

(** X7.  On a stream of planar stereo frames that decodes to its end,
    with the flag never set and chunks of at least one frame, the loop
    ends by itself without raising.  Every chunk it has enqueued is a
    stereo array, so passes the assertion of [add_audio]; the chunks
    enqueued, followed by the frames still waiting in [chunk], hold the
    audio of all the frames in stream order; and the frames that wait,
    fewer than a chunk, have not been enqueued: the end of the stream
    does not flush them. *)
Theorem worker_enqueues_whole_chunks (packs : list (list (AudioFrame sample))) :
  0 < CHUNK_SIZE ->
  (forall k, exit_worker_at k = false) ->
  Forall (Forall (@planar_stereo sample)) packs ->
  exists w,
    _stream_and_play exit_worker_at CHUNK_SIZE (map Ok packs) = (Ok Continue, w)
    /\ Forall (@stereo sample) (sent w)
    /\ samples_of (sent w) ++ samples_of (chunk w)
       = flat_map (fun f => flat (frame_audio f)) (concat packs)
    /\ length (sent w) * CHUNK_SIZE + length (chunk w) = length (concat packs)
    /\ length (chunk w) < CHUNK_SIZE.
Proof.
  intros Hpos Hflag Hps.
  assert (H0 : chunked CHUNK_SIZE [] (mk_worker (sample:=sample) [] [] 0)).
  { unfold chunked. simpl. repeat split; try constructor. exact Hpos. }
  destruct (@for_packets_chunked packs Hpos Hflag Hps [] _ H0)
    as (w & Hrun & Hsent & _ & Hsamples & Hcount & Hless).
  exists w. split; [exact Hrun|]. split; [exact Hsent|].
  split; [exact Hsamples|]. split; [exact Hcount | exact Hless].
Qed.

End ChunkFacts.

(** ** The chunk size the constructor sets *)

Section OneFrameChunks.

Variable sample : Type.
Variable exit_worker_at : nat -> bool.

Implicit Types (w : worker sample) (f : AudioFrame sample).

Lemma frame_body_one f w :
  exit_worker_at (reads w) = false ->
  frame_rows f = 2 ->
  chunk w = [] ->
  frame_body exit_worker_at 1 f w
  = (Ok Continue, mk_worker [] (sent w ++ [frame_audio f]) (S (reads w))).
Proof.
  intros Hflag Hrows Hchunk.
  unfold frame_body, read_exit_worker, chunk_append, chunk_clear,
    player_add_audio, assert_two_columns. run_monad.
  rewrite Hflag, Hchunk. cbn [chunk sent reads app length Nat.eqb].
  unfold frame_audio, to_ndarray, transpose. simpl. rewrite Hrows.
  unfold ret. simpl. reflexivity.
Qed.

Lemma for_frames_one (frames : list (AudioFrame sample)) :
  (forall k, exit_worker_at k = false) ->
  Forall (fun f => frame_rows f = 2) frames ->
  forall w,
    chunk w = [] ->
    for_each (frame_body exit_worker_at 1) frames w
    = (Ok Continue,
       mk_worker [] (sent w ++ map (@frame_audio sample) frames)
                 (reads w + length frames)).
Proof.
  intros Hflag. induction frames as [|f frames IH]; intros Hfs w Hchunk.
  - simpl. rewrite app_nil_r, Nat.add_0_r. destruct w; simpl in *.
    now subst.
  - inversion Hfs as [|? ? Hf Hfs']; subst. simpl. unfold bind.
    rewrite (frame_body_one f w (Hflag _) Hf Hchunk).
    rewrite (IH Hfs') by reflexivity. simpl.
    rewrite <- app_assoc. simpl. do 2 f_equal. lia.
Qed.

Lemma for_packets_one_frame_chunks (packs : list (list (AudioFrame sample))) :
  (forall k, exit_worker_at k = false) ->
  Forall (Forall (fun f => frame_rows f = 2)) packs ->
  forall w,
    chunk w = [] ->
    for_packets exit_worker_at 1 (map Ok packs) w
    = (Ok Continue,
       mk_worker [] (sent w ++ map (@frame_audio sample) (concat packs))
                 (reads w + length (concat packs))).
Proof.
  intros Hflag. unfold for_packets.
  induction packs as [|fs packs IH]; intros Hps w Hchunk.
  - simpl. rewrite app_nil_r, Nat.add_0_r. destruct w; simpl in *.
    now subst.
  - inversion Hps as [|? ? Hfs Hps']; subst. simpl.
    unfold bind, packet_body, lift. unfold bind.
    rewrite (for_frames_one Hflag Hfs w Hchunk).
    rewrite (IH Hps') by reflexivity. simpl.
    rewrite map_app, length_app, <- app_assoc. do 2 f_equal. lia.
Qed.

(** X8.  With the chunk size that [YouTubeAudioPlayer.__init__] sets,
    which is one frame, and the flag never set, every frame with two
    planes is enqueued by itself, transposed, in stream order, as soon as
    it is decoded; when the stream ends nothing waits in [chunk]. *)
Theorem each_frame_is_enqueued_by_itself (rate : Z)
    (packs : list (list (AudioFrame sample))) :
  (forall k, exit_worker_at k = false) ->
  Forall (Forall (fun f => frame_rows f = 2)) packs ->
  _stream_and_play exit_worker_at
    (_CHUNK_SIZE (@YouTubeAudioPlayer_init sample rate)) (map Ok packs)
  = (Ok Continue,
     mk_worker [] (map (@frame_audio sample) (concat packs))
               (length (concat packs))).
Proof.
  intros Hflag Hps. unfold _stream_and_play. simpl _CHUNK_SIZE.
  now rewrite (for_packets_one_frame_chunks Hflag Hps (mk_worker [] [] 0) eq_refl).
Qed.

(** X9.  With that chunk size, a first frame that has not two planes (a
    mono stream, or a packed sample format, whose frames have one plane)
    ends the worker at once: its transposed array fails the assertion of
    [add_audio], the [AssertionError] is caught nowhere, and nothing was
    enqueued. *)
Theorem first_frame_of_other_width_ends_the_worker (rate : Z) f
    (fs : list (AudioFrame sample))
    (rest : list (outcome (list (AudioFrame sample)))) :
  frame_rows f <> 2 ->
  exit_worker_at 0 = false ->
  _stream_and_play exit_worker_at
    (_CHUNK_SIZE (@YouTubeAudioPlayer_init sample rate)) (Ok (f :: fs) :: rest)
  = (Raise AssertionError, mk_worker [frame_audio f] [] 1).
Proof.
  intros Hrows Hflag. unfold _stream_and_play, for_packets. simpl.
  unfold bind, packet_body, lift. unfold bind. simpl. unfold bind.
  unfold frame_body, read_exit_worker, chunk_append, chunk_clear,
    player_add_audio, assert_two_columns. run_monad. rewrite Hflag.
  cbn [chunk sent reads app length Nat.eqb].
  unfold frame_audio, to_ndarray, transpose. simpl.
  apply Nat.eqb_neq in Hrows. rewrite Hrows. unfold raise. simpl. reflexivity.
Qed.

End OneFrameChunks.

(** ** Frames that are not stereo *)

Section OtherWidths.

Variable sample : Type.
Variable exit_worker_at : nat -> bool.
Variable CHUNK_SIZE : nat.

Implicit Types (w : worker sample) (f : AudioFrame sample).

Lemma concatenate_onto_width (rest : list (ndarray sample)) :
  forall acc combined,
    concatenate_onto acc rest = Ok combined ->
    tl (shape combined) = tl (shape acc).
Proof.
  induction rest as [|b rest IH]; intros acc combined H; simpl in H.
  - now inversion H.
  - destruct (shape b); [discriminate|].
    destruct (shape_eqb _ _); [|discriminate].
    apply IH in H. exact H.
Qed.

(** What [np.concatenate] returns is as wide as its first array. *)
Lemma np_concatenate_width (a : ndarray sample) (rest : list (ndarray sample))
    (combined : ndarray sample) :
  np_concatenate (a :: rest) = Ok combined ->
  nth_error (shape combined) 1 = nth_error (shape a) 1.
Proof.
  unfold np_concatenate. destruct (shape a) as [|n t] eqn:Ha; [discriminate|].
  intros H. apply concatenate_onto_width in H. rewrite Ha in H. simpl in H.
  destruct (shape combined) as [|m t']; simpl in *; subst; reflexivity.
Qed.

Lemma frame_audio_not_two_wide f : frame_rows f <> 2 -> not_two_wide (frame_audio f).
Proof. intros H. exact H. Qed.

Lemma not_two_wide_fails_assertion (a : ndarray sample) (rest : list (ndarray sample))
    (combined : ndarray sample) w :
  not_two_wide a ->
  np_concatenate (a :: rest) = Ok combined ->
  assert_two_columns combined w = (Raise AssertionError, w).
Proof.
  intros Ha Hc. apply np_concatenate_width in Hc.
  unfold assert_two_columns, shape_at. run_monad. rewrite Hc.
  unfold not_two_wide in Ha.
  destruct (shape a) as [|n [|columns [|]]]; try contradiction. simpl.
  apply Nat.eqb_neq in Ha. rewrite Ha. reflexivity.
Qed.

(** While no frame is two planes high, a pass through the loop body
    enqueues nothing, however it ends. *)
Lemma frame_body_never_sends f w (r : outcome flow) w' :
  frame_rows f <> 2 ->
  sent w = [] ->
  Forall (@not_two_wide sample) (chunk w) ->
  frame_body exit_worker_at CHUNK_SIZE f w = (r, w') ->
  sent w' = [] /\ Forall (@not_two_wide sample) (chunk w').
Proof.
  intros Hrows Hsent Hchunk.
  assert (Hchunk' : Forall (@not_two_wide sample) (chunk w ++ [frame_audio f])).
  { apply Forall_app. split; [exact Hchunk|]. constructor; [|constructor].
    now apply frame_audio_not_two_wide. }
  unfold frame_body, read_exit_worker, chunk_append, chunk_clear,
    player_add_audio. run_monad.
  destruct (exit_worker_at (reads w)); simpl.
  { intros H; inversion H; subst; simpl. now split. }
  cbn [chunk sent reads]. fold (frame_audio f).
  destruct (length (chunk w ++ [frame_audio f]) =? CHUNK_SIZE).
  - destruct (np_concatenate (chunk w ++ [frame_audio f])) as [c|e] eqn:Hc.
    + destruct (chunk w ++ [frame_audio f]) as [|a rest] eqn:Hlist;
        [now destruct (chunk w)|].
      inversion Hchunk' as [|? ? Ha Hrest]; subst.
      rewrite (@not_two_wide_fails_assertion a rest c _ Ha Hc). simpl.
      intros H; inversion H; subst; simpl. split; [exact Hsent | exact Hchunk'].
    + intros H; inversion H; subst; simpl. split; [exact Hsent | exact Hchunk'].
  - intros H; inversion H; subst; simpl. split; [exact Hsent | exact Hchunk'].
Qed.

Lemma for_frames_never_send (frames : list (AudioFrame sample)) :
  Forall (fun f => frame_rows f <> 2) frames ->
  forall w (r : outcome flow) w',
    sent w = [] ->
    Forall (@not_two_wide sample) (chunk w) ->
    for_each (frame_body exit_worker_at CHUNK_SIZE) frames w = (r, w') ->
    sent w' = [] /\ Forall (@not_two_wide sample) (chunk w').
Proof.
  induction frames as [|f frames IH]; intros Hfs w r w' Hsent Hchunk H;
    simpl in H.
  - inversion H; subst. now split.
  - inversion Hfs as [|? ? Hf Hfs']; subst. unfold bind in H.
    destruct (frame_body exit_worker_at CHUNK_SIZE f w) as [[[|]|e] w1] eqn:H1;
      destruct (@frame_body_never_sends f w _ w1 Hf Hsent Hchunk H1)
        as [Hsent1 Hchunk1].
    + exact (IH Hfs' w1 r w' Hsent1 Hchunk1 H).
    + inversion H; subst. now split.
    + inversion H; subst. now split.
Qed.

Lemma for_packets_never_send (packets : list (outcome (list (AudioFrame sample)))) :
  Forall (fun f => frame_rows f <> 2) (frames_of packets) ->
  forall w (r : outcome flow) w',
    sent w = [] ->
    Forall (@not_two_wide sample) (chunk w) ->
    for_packets exit_worker_at CHUNK_SIZE packets w = (r, w') ->
    sent w' = [] /\ Forall (@not_two_wide sample) (chunk w').
Proof.
  unfold for_packets.
  induction packets as [|pk packets IH]; intros Hfs w r w' Hsent Hchunk H;
    simpl in H.
  - inversion H; subst. now split.
  - unfold bind, packet_body, lift in H. unfold bind in H.
    destruct pk as [frames|e].
    + simpl in Hfs. apply Forall_app in Hfs as [Hfs1 Hfs2].
      destruct (for_each (frame_body exit_worker_at CHUNK_SIZE) frames w)
        as [[[|]|e] w1] eqn:H1;
        destruct (@for_frames_never_send frames Hfs1 w _ w1 Hsent Hchunk H1)
          as [Hsent1 Hchunk1].
      * exact (IH Hfs2 w1 r w' Hsent1 Hchunk1 H).
      * inversion H; subst. now split.
      * inversion H; subst. now split.
    + inversion H; subst. now split.
Qed.

(** X10.  Whatever the chunk size, the flag and the stream, a worker
    whose frames never have two planes enqueues nothing, however and
    wherever it ends: a chunk that is not two columns wide never gets
    past the assertion of [add_audio]. *)
Theorem frames_of_other_width_are_never_enqueued
    (packets : list (outcome (list (AudioFrame sample)))) :
  Forall (fun f => frame_rows f <> 2) (frames_of packets) ->
  sent (snd (_stream_and_play exit_worker_at CHUNK_SIZE packets)) = [].
Proof.
  intros Hfs. unfold _stream_and_play.
  destruct (for_packets exit_worker_at CHUNK_SIZE packets (mk_worker [] [] 0))
    as [r w'] eqn:H.
  simpl. eapply for_packets_never_send; [exact Hfs | | | exact H].
  - reflexivity.
  - constructor.
Qed.

End OtherWidths.

(** ** More on play and stop *)

Section SessionFacts.

Variable sample : Type.

Implicit Types (p : program sample) (w : world).

Lemma do_calls_return (rate : Z) (cs : list call) :
  (0 < rate)%Z ->
  forall p, session_inv rate p -> exists p', do_calls cs p = (Ok tt, p').
Proof.
  intros Hrate. induction cs as [|c cs IH]; intros p Hinv; simpl.
  - exists p. reflexivity.
  - assert (Hc : exists p1, do_call c p = (Ok tt, p1)).
    { destruct c as [start| |]; simpl.
      - destruct (play_returns start Hrate Hinv) as (p1 & H & _). eauto.
      - destruct (stop_preserves Hinv) as (p1 & H & _). eauto.
      - destruct (worker_ends_returns Hinv) as (p1 & H & _). eauto. }
    destruct Hc as (p1 & Hc). unfold bind. rewrite Hc.
    apply IH. eapply do_call_preserves; eassumption.
Qed.

(** X11.  On a player whose decoder reports a positive sample rate, no
    sequence of [play] and [stop] calls, with workers ending in between
    or not, ever raises: by the time [stop()] reads [self._player] a
    [play()] has set it, and the constructor of the new player finds its
    assertions true. *)
Theorem play_and_stop_never_raise (rate : Z) (cs : list call) :
  (0 < rate)%Z ->
  exists p, do_calls cs (@program0 sample rate) = (Ok tt, p).
Proof.
  intros Hrate. apply (do_calls_return cs Hrate). apply session_inv_program0.
Qed.

(** X12.  From whatever state the calls so far have led to, [stop()]
    returns and leaves nothing behind: no worker thread is alive and no
    output stream is open or started. *)
Theorem stop_leaves_nothing_behind (rate : Z) (cs : list call)
    (r : outcome unit) p :
  do_calls cs (program0 rate) = (r, p) ->
  exists p',
    stop p = (Ok tt, p')
    /\ live_threads (hist (outside p')) = []
    /\ open_streams (hist (outside p')) = []
    /\ active_streams (hist (outside p')) = [].
Proof.
  intros Hreach.
  pose proof (do_calls_preserve cs (session_inv_program0 sample rate) Hreach)
    as Hinv.
  destruct (stop_preserves Hinv) as (p' & Hstop & _ & Hl & Ho & Ha & _).
  exists p'. repeat split; assumption.
Qed.

(** X13.  A decoder that reports a sample rate that is not positive makes
    every [play()] raise [AssertionError] before anything is created:
    whatever is called, the program stays in its first state, with an
    empty history. *)
Theorem no_session_without_a_sample_rate (rate : Z) :
  (rate <= 0)%Z ->
  (forall t, play t (@program0 sample rate) = (Raise AssertionError, program0 rate))
  /\ forall (cs : list call) (r : outcome unit) p,
       do_calls cs (program0 rate) = (r, p) -> p = program0 rate.
Proof.
  intros Hrate.
  assert (Hplay : forall t,
             play t (@program0 sample rate) = (Raise AssertionError, program0 rate)).
  { intros t. apply play_bad_rate; [apply stop_idle; reflexivity | exact Hrate]. }
  split; [exact Hplay|].
  assert (Hcall : forall c : call,
             do_call c (@program0 sample rate) = (Ok tt, program0 rate)
             \/ do_call c (@program0 sample rate)
                = (Raise AssertionError, program0 rate)).
  { intros [start| |]; simpl; [right; apply Hplay | now left | now left]. }
  induction cs as [|c cs IH]; intros r p H; cbn [do_calls] in H.
  - now inversion H.
  - unfold bind in H. destruct (Hcall c) as [E|E]; rewrite E in H.
    + exact (IH r p H).
    + now inversion H.
Qed.

Lemma flag_clear_while_alive_step (rate : Z) (c : call) p (r : outcome unit) p' :
  session_inv rate p ->
  (live_threads (hist (outside p)) <> [] -> _exit_worker (self_ p) = Some false) ->
  do_call c p = (r, p') ->
  live_threads (hist (outside p')) <> [] -> _exit_worker (self_ p') = Some false.
Proof.
  intros Hinv Hflag Hcall. destruct c as [start| |]; simpl in Hcall.
  - destruct (stop_preserves Hinv) as (p0 & Hstop & Hinv0 & Hl & _).
    destruct (Z.lt_ge_cases 0 (_sample_rate (self_ p0))) as [Hpos|Hneg].
    + erewrite play_after_stop in Hcall; [|exact Hstop|exact Hpos].
      inversion Hcall; subst. reflexivity.
    + erewrite play_bad_rate in Hcall; [|exact Hstop|exact Hneg].
      inversion Hcall; subst. congruence.
  - destruct (stop_preserves Hinv) as (p0 & Hstop & _ & Hl & _).
    rewrite Hstop in Hcall. inversion Hcall; subst. congruence.
  - destruct (worker_ends_returns Hinv) as (p1 & Hw & [Hl | ->]);
      rewrite Hw in Hcall; inversion Hcall; subst; [congruence | exact Hflag].
Qed.

Lemma flag_clear_while_alive_run (rate : Z) (cs : list call) :
  forall p (r : outcome unit) p',
    session_inv rate p ->
    (live_threads (hist (outside p)) <> [] -> _exit_worker (self_ p) = Some false) ->
    do_calls cs p = (r, p') ->
    live_threads (hist (outside p')) <> [] -> _exit_worker (self_ p') = Some false.
Proof.
  induction cs as [|c cs IH]; intros p r p' Hinv Hflag Hrun; simpl in Hrun.
  - inversion Hrun; subst. exact Hflag.
  - unfold bind in Hrun. destruct (do_call c p) as [[[]|e] p1] eqn:Hc.
    + eapply IH; [| |exact Hrun].
      * eapply do_call_preserves; eassumption.
      * eapply flag_clear_while_alive_step; eassumption.
    + inversion Hrun; subst. eapply flag_clear_while_alive_step; eassumption.
Qed.

(** X14.  Between calls a worker that is alive never has its flag set:
    [stop()] does not return before the worker it has cancelled has
    ended, and [play()] clears the flag before it starts the next one. *)
Theorem a_live_worker_is_not_cancelled (rate : Z) (cs : list call)
    (r : outcome unit) p :
  do_calls cs (program0 rate) = (r, p) ->
  live_threads (hist (outside p)) <> [] ->
  _exit_worker (self_ p) = Some false.
Proof.
  intros Hreach.
  apply (@flag_clear_while_alive_run rate cs (program0 rate) r p
           (session_inv_program0 sample rate)); [|exact Hreach].
  simpl. congruence.
Qed.

(** X15.  Building a [StreamingAudioPlayer] and closing it opens, starts,
    stops and closes one stream, in this order, and leaves the other
    streams as they were: the stream is a new one, and after [close()]
    it is neither open nor started. *)
Theorem player_built_then_closed (sample_rate queue_size : Z) w :
  (0 < sample_rate)%Z -> (0 < queue_size)%Z ->
  (forall s, In s (open_streams (hist w)) -> s < next_stream w) ->
  (forall s, In s (active_streams (hist w)) -> s < next_stream w) ->
  exists w1 w2,
    StreamingAudioPlayer_init sample_rate queue_size w
    = (Ok (fresh_player sample queue_size (next_stream w)), w1)
    /\ close (fresh_player sample queue_size (next_stream w)) w1 = (Ok tt, w2)
    /\ rev (hist w2)
       = rev (hist w) ++ [StreamOpened (next_stream w) sample_rate 2;
                          StreamStarted (next_stream w);
                          StreamStopped (next_stream w);
                          StreamClosed (next_stream w)]
    /\ open_streams (hist w2) = open_streams (hist w)
    /\ active_streams (hist w2) = active_streams (hist w).
Proof.
  intros Hr Hq Hopen Hact.
  rewrite (StreamingAudioPlayer_init_ok sample w Hr Hq).
  eexists _, _. split; [reflexivity|]. split; [reflexivity|]. simpl.
  assert (Ho : ~ In (next_stream w) (open_streams (hist w)))
    by (intros H; apply Hopen in H; lia).
  assert (Ha : ~ In (next_stream w) (active_streams (hist w)))
    by (intros H; apply Hact in H; lia).
  destruct (Nat.eq_dec (next_stream w) (next_stream w)) as [_|Hne];
    [|congruence].
  split; [now rewrite <- !app_assoc|].
  split.
  - now apply notin_remove.
  - rewrite (notin_remove Nat.eq_dec _ _ Ha). now apply notin_remove.
Qed.

End SessionFacts.

(** ** The prompt loop of manual_test.py *)

Section PromptFacts.

Variable sample : Type.
Variable float : string -> outcome QArith_base.Q.

Implicit Types (p : program sample).

(** Lines that are numbers are so many calls of [play]; the line [exit]
    is a call of [stop] and ends the loop, whatever follows it. *)
Lemma main_loop_until_exit (lines : list string) (times : list QArith_base.Q)
    (ignored : list string) :
  Forall2 (seeks float) lines times ->
  forall p0,
    main_loop float (lines ++ "exit"%string :: ignored) p0
    = match do_calls (map Play times ++ [Stop]) p0 with
      | (Ok _, p) => (Ok Exited, p)
      | (Raise e, p) => (Raise e, p)
      end.
Proof.
  induction 1 as [|l t lines times [Hl Ht] _ IH]; intros p0.
  - simpl. unfold bind. destruct (stop p0) as [[[]|e] p]; reflexivity.
  - simpl. apply String.eqb_neq in Hl. rewrite Hl. simpl.
    unfold bind at 1, lift. rewrite Ht. unfold bind.
    destruct (play t p0) as [[[]|e] p1]; [apply IH | reflexivity].
Qed.

(** Lines that are numbers, then one that is neither a number nor
    [exit]: the plays, then the exception of [float]. *)
Lemma main_loop_until_bad_line (lines : list string) (times : list QArith_base.Q)
    (bad : string) (e : exn) (rest : list string) :
  Forall2 (seeks float) lines times ->
  bad <> "exit"%string ->
  float bad = Raise e ->
  forall p0,
    main_loop float (lines ++ bad :: rest) p0
    = match do_calls (map Play times) p0 with
      | (Ok _, p) => (Raise e, p)
      | (Raise e', p) => (Raise e', p)
      end.
Proof.
  intros Hlines Hbad Hfloat.
  induction Hlines as [|l t lines times [Hl Ht] _ IH]; intros p0.
  - simpl. apply String.eqb_neq in Hbad. rewrite Hbad. simpl.
    unfold bind, lift. rewrite Hfloat. reflexivity.
  - simpl. apply String.eqb_neq in Hl. rewrite Hl. simpl.
    unfold bind at 1, lift. rewrite Ht. unfold bind.
    destruct (play t p0) as [[[]|e'] p1]; [apply IH | reflexivity].
Qed.

Lemma do_calls_app (cs1 cs2 : list call) : forall p0,
  do_calls (cs1 ++ cs2) p0
  = match do_calls cs1 p0 with
    | (Ok _, p1) => do_calls cs2 p1
    | (Raise e, p1) => (Raise e, p1)
    end.
Proof.
  induction cs1 as [|c cs1 IH]; intros p0; simpl; [reflexivity|].
  unfold bind. destruct (do_call c p0) as [[[]|e] p1]; [apply IH | reflexivity].
Qed.

(** After at least one [play], with a positive sample rate, one stream
    is open and started. *)
Lemma plays_leave_a_stream (rate : Z) (times : list QArith_base.Q) :
  (0 < rate)%Z ->
  times <> [] ->
  forall p0,
    session_inv rate p0 ->
    exists p h,
      do_calls (map Play times) p0 = (Ok tt, p)
      /\ open_streams (hist (outside p)) = [h]
      /\ active_streams (hist (outside p)) = [h].
Proof.
  intros Hrate. induction times as [|t times IH]; intros Hne p0 Hinv;
    [congruence|].
  destruct (@play_returns sample rate p0 t Hrate Hinv)
    as (p1 & Hplay & Hinv1 & _ & _ & (h & Ho & Ha)).
  simpl. unfold bind. rewrite Hplay.
  destruct times as [|t' times'].
  - exists p1, h. simpl. now split.
  - apply IH; [discriminate | exact Hinv1].
Qed.

(** X16.  Fed lines that are numbers and then the line [exit], the
    prompt loop calls [play] once per line, in order, then [stop], and
    ends by its [break] without looking at what follows.  With a positive
    sample rate nothing raises, and when the program ends no worker is
    alive and no stream is open or started. *)
Theorem prompt_loop_plays_each_line_then_stops (rate : Z) (lines : list string)
    (times : list QArith_base.Q) (ignored : list string) :
  (0 < rate)%Z ->
  Forall2 (seeks float) lines times ->
  exists p,
    @main sample float rate (lines ++ "exit"%string :: ignored) = (Ok Exited, p)
    /\ do_calls (map Play times ++ [Stop]) (@program0 sample rate) = (Ok tt, p)
    /\ live_threads (hist (outside p)) = []
    /\ open_streams (hist (outside p)) = []
    /\ active_streams (hist (outside p)) = [].
Proof.
  intros Hrate Hlines. unfold main.
  rewrite (main_loop_until_exit ignored Hlines).
  pose proof (session_inv_program0 sample rate) as Hinv0.
  destruct (@do_calls_return sample rate (map Play times) Hrate _ Hinv0)
    as (p1 & Hplays).
  pose proof (do_calls_preserve (map Play times) Hinv0 Hplays) as Hinv1.
  destruct (stop_preserves Hinv1) as (p & Hstop & _ & Hl & Ho & Ha & _).
  assert (Hall : do_calls (map Play times ++ [Stop]) (@program0 sample rate)
                 = (Ok tt, p)).
  { rewrite do_calls_app. rewrite Hplays. simpl. unfold bind.
    rewrite Hstop. reflexivity. }
  exists p. rewrite Hall. repeat split; assumption.
Qed.

(** X17.  A line that is neither a number nor [exit] ends the program
    with the exception that [float] raises, after the plays of the lines
    before it and without any [stop]: if there was a play, the output
    stream of the last session is still open and started when the
    program ends. *)
Theorem a_line_that_is_no_number_ends_the_program (rate : Z)
    (lines : list string) (times : list QArith_base.Q) (bad : string) (e : exn)
    (rest : list string) :
  (0 < rate)%Z ->
  Forall2 (seeks float) lines times ->
  bad <> "exit"%string ->
  float bad = Raise e ->
  exists p,
    @main sample float rate (lines ++ bad :: rest) = (Raise e, p)
    /\ do_calls (map Play times) (@program0 sample rate) = (Ok tt, p)
    /\ (times <> [] ->
        exists h, open_streams (hist (outside p)) = [h]
                  /\ active_streams (hist (outside p)) = [h]).
Proof.
  intros Hrate Hlines Hbad Hfloat. unfold main.
  rewrite (main_loop_until_bad_line rest Hlines Hbad Hfloat).
  pose proof (session_inv_program0 sample rate) as Hinv0.
  destruct (@do_calls_return sample rate (map Play times) Hrate _ Hinv0)
    as (p & Hplays).
  exists p. rewrite Hplays. split; [reflexivity|]. split; [reflexivity|].
  intros Hne.
  destruct (@plays_leave_a_stream rate times Hrate Hne _ Hinv0)
    as (p' & h & Hplays' & Ho & Ha).
  rewrite Hplays in Hplays'. inversion Hplays'; subst p'.
  exists h. now split.
Qed.

End PromptFacts.

(** ** Cancelling only cuts short *)

Section CutShort.

Variable sample : Type.
Variable exit_worker_at : nat -> bool.
Variable CHUNK_SIZE : nat.

Implicit Types (w : worker sample) (f : AudioFrame sample).

Lemma frame_body_agree f w :
  exit_worker_at (reads w) = false ->
  frame_body exit_worker_at CHUNK_SIZE f w = frame_body never_set CHUNK_SIZE f w.
Proof.
  intros H. unfold frame_body, read_exit_worker, never_set. run_monad.
  rewrite H. reflexivity.
Qed.

Lemma frame_body_grows (flag : nat -> bool) f w (r : outcome flow) w' :
  frame_body flag CHUNK_SIZE f w = (r, w') ->
  exists more, sent w' = sent w ++ more.
Proof.
  unfold frame_body, read_exit_worker, chunk_append, chunk_clear,
    player_add_audio, assert_two_columns. run_monad.
  destruct (flag (reads w)); simpl.
  { intros H; inversion H; subst; simpl. exists []. now rewrite app_nil_r. }
  cbn [chunk sent reads].
  destruct (length (chunk w ++ [transpose (to_ndarray f)]) =? CHUNK_SIZE).
  - destruct (np_concatenate _) as [c|e].
    + destruct (shape_at c 1) as [n|e].
      * destruct (n =? 2); unfold ret, raise; cbn; intros H; inversion H;
          subst; simpl; [now exists [c] | exists []; now rewrite app_nil_r].
      * intros H; inversion H; subst; simpl. exists []. now rewrite app_nil_r.
    + intros H; inversion H; subst; simpl. exists []. now rewrite app_nil_r.
  - intros H; inversion H; subst; simpl. exists []. now rewrite app_nil_r.
Qed.

Lemma for_frames_grow (flag : nat -> bool) (frames : list (AudioFrame sample)) :
  forall w (r : outcome flow) w',
    for_each (frame_body flag CHUNK_SIZE) frames w = (r, w') ->
    exists more, sent w' = sent w ++ more.
Proof.
  induction frames as [|f frames IH]; intros w r w' H; simpl in H.
  - inversion H; subst. exists []. now rewrite app_nil_r.
  - unfold bind in H.
    destruct (frame_body flag CHUNK_SIZE f w) as [[[|]|e] w1] eqn:H1;
      destruct (@frame_body_grows flag f w _ w1 H1) as (m1 & Hm1).
    + destruct (IH w1 r w' H) as (m2 & Hm2). exists (m1 ++ m2).
      now rewrite Hm2, Hm1, app_assoc.
    + inversion H; subst. now exists m1.
    + inversion H; subst. now exists m1.
Qed.

Lemma for_packets_grow (flag : nat -> bool)
    (packets : list (outcome (list (AudioFrame sample)))) :
  forall w (r : outcome flow) w',
    for_packets flag CHUNK_SIZE packets w = (r, w') ->
    exists more, sent w' = sent w ++ more.
Proof.
  unfold for_packets.
  induction packets as [|pk packets IH]; intros w r w' H; simpl in H.
  - inversion H; subst. exists []. now rewrite app_nil_r.
  - unfold bind, packet_body, lift in H. unfold bind in H.
    destruct pk as [frames|e].
    + destruct (for_each (frame_body flag CHUNK_SIZE) frames w)
        as [[[|]|e] w1] eqn:H1;
        destruct (@for_frames_grow flag frames w _ w1 H1) as (m1 & Hm1).
      * destruct (IH w1 r w' H) as (m2 & Hm2). exists (m1 ++ m2).
        now rewrite Hm2, Hm1, app_assoc.
      * inversion H; subst. now exists m1.
      * inversion H; subst. now exists m1.
    + inversion H; subst. exists []. now rewrite app_nil_r.
Qed.

(** Over the same frames and from the same state, the loop with the flag
    and the loop without go the same way until a read finds the flag set;
    from there only the second goes on. *)
Lemma for_frames_cut_short (frames : list (AudioFrame sample)) :
  forall w (r1 r2 : outcome flow) w1 w2,
    for_each (frame_body exit_worker_at CHUNK_SIZE) frames w = (r1, w1) ->
    for_each (frame_body never_set CHUNK_SIZE) frames w = (r2, w2) ->
    (exists more, sent w2 = sent w1 ++ more)
    /\ (r1 <> Ok Return -> r2 = r1 /\ w2 = w1).
Proof.
  induction frames as [|f frames IH]; intros w r1 r2 w1 w2 H1 H2;
    simpl in H1, H2.
  - inversion H1; inversion H2; subst. split; [|now split].
    exists []. now rewrite app_nil_r.
  - unfold bind in H1, H2.
    destruct (exit_worker_at (reads w)) eqn:Hflag.
    + rewrite (frame_body_return exit_worker_at CHUNK_SIZE f w Hflag) in H1.
      inversion H1; subst. simpl. split; [|congruence].
      destruct (frame_body never_set CHUNK_SIZE f w) as [[[|]|e] w3] eqn:H3;
        destruct (@frame_body_grows never_set f w _ w3 H3) as (m1 & Hm1).
      * destruct (@for_frames_grow never_set frames w3 r2 w2 H2) as (m2 & Hm2).
        exists (m1 ++ m2). now rewrite Hm2, Hm1, app_assoc.
      * inversion H2; subst. now exists m1.
      * inversion H2; subst. now exists m1.
    + rewrite (frame_body_agree f w Hflag) in H1.
      destruct (frame_body never_set CHUNK_SIZE f w) as [[[|]|e] w3].
      * exact (IH w3 r1 r2 w1 w2 H1 H2).
      * inversion H1; inversion H2; subst. split; [|now split].
        exists []. now rewrite app_nil_r.
      * inversion H1; inversion H2; subst. split; [|now split].
        exists []. now rewrite app_nil_r.
Qed.

Lemma for_packets_cut_short (packets : list (outcome (list (AudioFrame sample)))) :
  forall w (r1 r2 : outcome flow) w1 w2,
    for_packets exit_worker_at CHUNK_SIZE packets w = (r1, w1) ->
    for_packets never_set CHUNK_SIZE packets w = (r2, w2) ->
    exists more, sent w2 = sent w1 ++ more.
Proof.
  unfold for_packets.
  induction packets as [|pk packets IH]; intros w r1 r2 w1 w2 H1 H2;
    simpl in H1, H2.
  - inversion H1; inversion H2; subst. exists []. now rewrite app_nil_r.
  - unfold bind, packet_body, lift in H1, H2. unfold bind in H1, H2.
    destruct pk as [frames|e].
    + destruct (for_each (frame_body exit_worker_at CHUNK_SIZE) frames w)
        as [o1 w3] eqn:E1.
      destruct (for_each (frame_body never_set CHUNK_SIZE) frames w)
        as [o2 w4] eqn:E2.
      destruct (@for_frames_cut_short frames w o1 o2 w3 w4 E1 E2)
        as [(m & Hm) Hsame].
      destruct o1 as [[|]|e1].
      * destruct Hsame as [-> ->]; [discriminate|].
        exact (IH w3 r1 r2 w1 w2 H1 H2).
      * inversion H1; subst.
        destruct o2 as [[|]|e2].
        -- destruct (@for_packets_grow never_set packets w4 r2 w2 H2) as (m2 & Hm2).
           exists (m ++ m2). now rewrite Hm2, Hm, app_assoc.
        -- inversion H2; subst. now exists m.
        -- inversion H2; subst. now exists m.
      * destruct Hsame as [-> ->]; [discriminate|].
        inversion H1; inversion H2; subst. exists []. now rewrite app_nil_r.
    + inversion H1; inversion H2; subst. exists []. now rewrite app_nil_r.
Qed.

(** X18.  Setting the flag only cuts the work short: over the same
    stream, what a worker has enqueued when it ends, whenever its flag
    was set, is the beginning of what it enqueues when the flag is never
    set.  A cancelled worker has enqueued no chunk that differs from, or
    comes in another order than, those of the undisturbed one. *)
Theorem cancelling_only_cuts_short
    (packets : list (outcome (list (AudioFrame sample)))) :
  exists more,
    sent (snd (_stream_and_play never_set CHUNK_SIZE packets))
    = sent (snd (_stream_and_play exit_worker_at CHUNK_SIZE packets)) ++ more.
Proof.
  unfold _stream_and_play.
  destruct (for_packets exit_worker_at CHUNK_SIZE packets (mk_worker [] [] 0))
    as [r1 w1] eqn:H1.
  destruct (for_packets never_set CHUNK_SIZE packets (mk_worker [] [] 0))
    as [r2 w2] eqn:H2.
  simpl. eapply for_packets_cut_short; eassumption.
Qed.

End CutShort.

(** ** Producer and consumer *)

Section Throttle.

Variable sample : Type.
Variable zero : sample.

Implicit Types (self : StreamingAudioPlayer sample) (outdata c : ndarray sample).

(** X19.  The queue throttles the producer and the callback releases it.
    On a full queue [add_audio] of a two-column array waits and changes
    nothing; the next callback takes one chunk, and the same [add_audio]
    then returns, with its array last in the queue. *)
Theorem a_callback_releases_the_producer self outdata c :
  player_ok self ->
  shape outdata = [len outdata; 2] ->
  shape_at c 1 = Ok 2 ->
  (Z.of_nat (length (items (_queue self))) <= maxsize (_queue self))%Z ->
  full (_queue self) = true ->
  add_audio c self = (Ok Waiting, self)
  /\ exists out self' self'',
       _audio_callback zero outdata self = (Ok out, self')
       /\ add_audio c self' = (Ok Returned, self'')
       /\ items (_queue self'') = tl (items (_queue self)) ++ [c].
Proof.
  intros Hok Hout Hc Hbound Hfull.
  assert (Hadd : forall s : StreamingAudioPlayer sample,
             add_audio c s
             = if full (_queue s)
               then (Ok Waiting, s)
               else (Ok Returned,
                     set_queue (mk_Queue (maxsize (_queue s))
                                         (items (_queue s) ++ [c])) s)).
  { intros s. unfold add_audio, assert_two_columns, put. run_monad.
    rewrite Hc. simpl. destruct (full (_queue s)); reflexivity. }
  split; [rewrite Hadd, Hfull; reflexivity|].
  destruct (callback_total zero outdata Hok Hout)
    as (out & self' & Hcb & _ & _ & Hq & _).
  assert (Hroom : full (_queue self') = false).
  { rewrite Hq. unfold full in *. simpl.
    apply andb_prop in Hfull as [Hpos Hle]. rewrite Hpos. simpl.
    apply Z.leb_le in Hle. apply Z.leb_gt.
    destruct (items (_queue self)) as [|a rest]; simpl in *; [|lia].
    apply Z.ltb_lt in Hpos. lia. }
  exists out, self'. eexists. split; [exact Hcb|].
  rewrite Hadd, Hroom. split; [reflexivity|]. simpl. now rewrite Hq.
Qed.

(** *** Blocks are always whole *)

(** A callback that returns on a well-formed player was given a block of
    the stream's shape. *)
Lemma callback_block_shape self outdata out self' :
  player_ok self ->
  _audio_callback zero outdata self = (Ok out, self') ->
  shape outdata = [len outdata; 2].
Proof.
  intros Hok Hcb.
  destruct (accumulation_buffer_spec Hok) as (b & Hb & Hsb & _ & _).
  destruct (Nat.le_gt_cases (len outdata) (len b)) as [Hle|Hlt].
  - revert Hcb. unfold _audio_callback. run_monad. rewrite Hb.
    pose proof Hle as Hle'. apply Nat.leb_le in Hle'. rewrite Hle'.
    unfold assign_all.
    destruct (shape_eqb (shape outdata) (shape (rows_to b (len outdata)))) eqn:He;
      simpl; [|discriminate].
    intros _. apply shape_eqb_eq in He. rewrite He. unfold rows_to. simpl.
    rewrite Nat.min_l by exact Hle. destruct Hsb as [Hs _]. now rewrite Hs.
  - exact (@callback_underrun_shape sample zero self outdata b _ out self'
             Hb Hsb Hlt Hcb).
Qed.

Lemma step_keeps_ok (a : action sample) self (o : list (ndarray sample)) self' :
  player_ok self ->
  Forall (@stereo sample) (enqueued [a]) ->
  step zero a self = Some (o, self') ->
  player_ok self' /\ Forall (@stereo sample) o.
Proof.
  intros Hok Hst Hstep.
  destruct (@step_payload_conserves sample zero a self o self' Hok Hst Hstep)
    as [_ Hok'].
  split; [exact Hok'|].
  destruct a as [c|outdata]; simpl in Hstep.
  - destruct (add_audio c self) as [[[|]|] s2]; try discriminate.
    inversion Hstep; subst. constructor.
  - destruct (_audio_callback zero outdata self) as [[out|] s2] eqn:Hcb;
      try discriminate.
    inversion Hstep; subst o s2. clear Hstep.
    pose proof (@callback_block_shape self outdata out self' Hok Hcb) as Hout.
    destruct (callback_total zero outdata Hok Hout)
      as (out' & s' & Hcb' & Hshape & Hlen & _).
    rewrite Hcb in Hcb'. inversion Hcb'; subst out' s'.
    constructor; [|constructor]. split.
    + rewrite Hshape. unfold len. rewrite Hshape. exact Hout.
    + unfold len. rewrite Hshape. exact Hlen.
Qed.

Lemma run_keeps_ok (acts : list (action sample)) : forall self outs final,
  player_ok self ->
  Forall (@stereo sample) (enqueued acts) ->
  run zero acts self = Some (outs, final) ->
  player_ok final /\ Forall (@stereo sample) outs.
Proof.
  induction acts as [|a acts IH]; intros self outs final Hok Hst Hrun;
    simpl in Hrun.
  - inversion Hrun; subst. split; [exact Hok | constructor].
  - destruct (step zero a self) as [[o s1]|] eqn:Hstep; [|discriminate].
    destruct (run zero acts s1) as [[os fin]|] eqn:Hrest; [|discriminate].
    inversion Hrun; subst outs fin. clear Hrun.
    rewrite enqueued_cons in Hst. apply Forall_app in Hst as [Hsta Hstr].
    destruct (@step_keeps_ok a self o s1 Hok Hsta Hstep) as [Hok1 Ho].
    destruct (IH s1 os final Hok1 Hstr Hrest) as [Hokf Hos].
    split; [exact Hokf|]. apply Forall_app. now split.
Qed.

(** X20.  The callback raises in the constructor's window and not after
    it.  [__init__] starts the stream at line 43 and creates
    [_leftover_buffer] at line 46: a callback that comes in between
    raises [AttributeError], whatever block it is given, and changes
    nothing.  Once [__init__] has returned, and as long as the chunks
    enqueued are stereo arrays, every block a callback hands back is a
    whole stereo block, as many rows as were asked for and two samples in
    each; and after any run the next callback, asked for a block of the
    stream's shape, returns such a block. *)
Theorem blocks_are_whole_once_built (sample_rate queue_size : Z) (w : world)
    (acts : list (action sample))
    (outs : list (ndarray sample)) (final : StreamingAudioPlayer sample)
    outdata (early : ndarray sample) :
  (0 < sample_rate)%Z ->
  (0 < queue_size)%Z ->
  Forall (@stereo sample) (enqueued acts) ->
  run zero acts (fresh_player sample queue_size (next_stream w)) = Some (outs, final) ->
  shape outdata = [len outdata; 2] ->
  let started := Started (new_Queue queue_size) (next_stream w) in
  let built := fresh_player sample queue_size (next_stream w) in
  exists w',
    StreamingAudioPlayer_init_started sample_rate queue_size w = (Ok started, w')
    /\ In (next_stream w) (active_streams (hist w'))
    /\ _audio_callback_at zero early started = (Raise AttributeError, started)
    /\ create_leftover_buffer started = Built built
    /\ StreamingAudioPlayer_init sample_rate queue_size w = (Ok built, w')
    /\ Forall (@stereo sample) outs
    /\ exists out final',
         _audio_callback_at zero outdata (Built final) = (Ok out, Built final')
         /\ shape out = shape outdata
         /\ length (flat out) = len outdata * 2.
Proof.
  intros Hrate Hsize Hst Hrun Hout started built.
  exists (mk_world (StreamStarted (next_stream w)
                      :: StreamOpened (next_stream w) sample_rate 2 :: hist w)
                   (S (next_stream w)) (next_thread w)).
  split.
  { unfold StreamingAudioPlayer_init_started, sd_OutputStream, emit. run_monad.
    pose proof Hrate as Hr. pose proof Hsize as Hq.
    apply Z.ltb_lt in Hr, Hq. rewrite Hr, Hq. reflexivity. }
  split; [simpl; now left|].
  split; [reflexivity|]. split; [reflexivity|].
  split; [now apply StreamingAudioPlayer_init_ok|].
  assert (Hok : player_ok built) by (split; simpl; [trivial | constructor]).
  destruct (@run_keeps_ok acts _ outs final Hok Hst Hrun) as [Hokf Houts].
  split; [exact Houts|].
  destruct (callback_total zero outdata Hokf Hout)
    as (out & final' & Hcb & Hshape & Hlen & _).
  exists out, final'. simpl. rewrite Hcb. now split.
Qed.

(** *** What the assertion of add_audio lets through *)

(** X21.  The assertion of [add_audio] looks at the second dimension
    only.  An array of three or more dimensions whose second dimension is
    2 is enqueued; the callback that fetches it raises [ValueError] when
    it stacks it on its two-column buffer, and by then the chunk is off
    the queue.  An array of fewer than two dimensions does not reach the
    assertion: reading [shape[1]] raises [IndexError], and nothing is
    enqueued. *)
Theorem the_assertion_checks_one_dimension_only self outdata c
    (rows depth : nat) (more : list nat) :
  match _leftover_buffer self with Some l => stereo l | None => True end ->
  items (_queue self) = [] ->
  shape c = rows :: 2 :: depth :: more ->
  (exists self' self1,
      add_audio c self = (Ok Returned, self')
      /\ items (_queue self') = [c]
      /\ _audio_callback zero outdata self' = (Raise ValueError, self1)
      /\ items (_queue self1) = [])
  /\ (forall c1 : ndarray sample,
        length (shape c1) < 2 ->
        add_audio c1 self = (Raise IndexError, self)).
Proof.
  intros Hslot Hq Hshape. split.
  - destruct self as [[m its] h slot]. simpl in Hq, Hslot. subst its.
    destruct c as [sc fc]. simpl in Hshape. subst sc.
    assert (Hroom : full (mk_Queue m (@nil (ndarray sample))) = false).
    { unfold full. simpl. destruct (0 <? m)%Z eqn:Hm; simpl; [|reflexivity].
      apply Z.ltb_lt in Hm. apply Z.leb_gt. lia. }
    unfold add_audio, assert_two_columns, shape_at, put. run_monad.
    rewrite Hroom. simpl.
    assert (Hcb : exists self1,
               _audio_callback zero outdata
                 (mk_StreamingAudioPlayer
                    (mk_Queue m [mk_ndarray (rows :: 2 :: depth :: more) fc]) h slot)
               = (Raise ValueError, self1)
               /\ items (_queue self1) = []).
    { unfold _audio_callback, accumulation_buffer, try_except_Empty,
        queue_get_nowait, get_nowait, set_leftover_buffer, set_queue.
      run_monad.
      destruct slot as [l|].
      - destruct (stereo_inv Hslot) as (n & fl & -> & _). unfold len. simpl.
        destruct (0 <? n); simpl; eexists; split; reflexivity.
      - simpl. eexists; split; reflexivity. }
    destruct Hcb as (self1 & Hcb & Hq1).
    eexists _, self1. split; [reflexivity|]. split; [reflexivity|].
    split; [exact Hcb | exact Hq1].
  - intros c1 Hdim. unfold add_audio, assert_two_columns, shape_at. run_monad.
    destruct (shape c1) as [|n [|n' t]]; simpl in *; try reflexivity. lia.
Qed.

End Throttle.

(** * The further properties on concrete data *)

Lemma queue_never_exceeds_its_bound_witness :
  (0 < 200)%Z
  /\ run 0%Z demo_acts (fresh_player Z 200 0) = Some (demo_outs, demo_final)
  /\ maxsize (_queue demo_final) = 200%Z
  /\ (Z.of_nat (length (items (_queue demo_final))) <= 200)%Z.
Proof.
  assert (H1 : (0 < 200)%Z) by reflexivity.
  assert (H2 : run 0%Z demo_acts (fresh_player Z 200 0)
               = Some (demo_outs, demo_final)) by reflexivity.
  split; [exact H1|]. split; [exact H2|].
  exact (@queue_never_exceeds_its_bound Z 0%Z demo_acts 200%Z 0 demo_outs
           demo_final H1 H2).
Defined.

Lemma audio_is_never_lost_witness :
  Forall (@stereo Z) (enqueued demo_acts_short)
  /\ run 0%Z demo_acts_short (fresh_player Z 200 0)
     = Some (demo_outs_short, demo_player_taken)
  /\ audio_delivered 0%Z demo_acts_short (fresh_player Z 200 0)
       ++ pending demo_player_taken
     = samples_of (enqueued demo_acts_short).
Proof.
  assert (H1 : Forall (@stereo Z) (enqueued demo_acts_short)).
  { simpl. apply Forall_cons; [exact stereo_chunkA|].
    apply Forall_cons; [exact stereo_chunkB | apply Forall_nil]. }
  assert (H2 : run 0%Z demo_acts_short (fresh_player Z 200 0)
               = Some (demo_outs_short, demo_player_taken)) by reflexivity.
  split; [exact H1|]. split; [exact H2|].
  exact (@audio_is_never_lost Z 0%Z demo_acts_short 200%Z 0 demo_outs_short
           demo_player_taken H1 H2).
Defined.

Lemma callback_overwrites_the_block_witness :
  player_ok demo_player
  /\ shape (block 4) = [len (block 4); 2]
  /\ shape (tone 7 4) = shape (block 4)
  /\ _audio_callback 0%Z (block 4) demo_player
     = _audio_callback 0%Z (tone 7 4) demo_player.
Proof.
  assert (H2 : shape (block 4) = [len (block 4); 2]) by reflexivity.
  assert (H3 : shape (tone 7 4) = shape (block 4)) by reflexivity.
  split; [exact demo_player_ok|]. split; [exact H2|]. split; [exact H3|].
  exact (@callback_overwrites_the_block Z 0%Z demo_player (block 4) (tone 7 4)
           demo_player_ok H2 H3).
Defined.

Lemma demo_player2_ok : player_ok demo_player2.
Proof.
  split; simpl; [exact I|].
  apply Forall_cons; [exact stereo_chunkA|].
  apply Forall_cons; [exact stereo_chunkB | apply Forall_nil].
Defined.

Lemma short_chunks_underrun_one_by_one_witness :
  shape (block 4) = [len (block 4); 2]
  /\ player_ok demo_player2
  /\ holds_no_frames (_leftover_buffer demo_player2)
  /\ items (_queue demo_player2) = [chunkA; chunkB]
  /\ Forall (fun c => len c < len (block 4)) [chunkA; chunkB]
  /\ exists final,
       callbacks 0%Z (length [chunkA; chunkB]) (block 4) demo_player2
       = Some (map (padded 0%Z (block 4)) [chunkA; chunkB], final)
       /\ items (_queue final) = []
       /\ holds_no_frames (_leftover_buffer final).
Proof.
  assert (H1 : shape (block 4) = [len (block 4); 2]) by reflexivity.
  assert (H3 : holds_no_frames (_leftover_buffer demo_player2)) by exact I.
  assert (H4 : items (_queue demo_player2) = [chunkA; chunkB]) by reflexivity.
  assert (H5 : Forall (fun c => len c < len (block 4)) [chunkA; chunkB]).
  { apply Forall_cons; [unfold len; simpl; lia|].
    apply Forall_cons; [unfold len; simpl; lia | apply Forall_nil]. }
  split; [exact H1|]. split; [exact demo_player2_ok|]. split; [exact H3|].
  split; [exact H4|]. split; [exact H5|].
  exact (@short_chunks_underrun_one_by_one Z 0%Z (block 4) H1 [chunkA; chunkB]
           demo_player2 demo_player2_ok H3 H4 H5).
Defined.

Lemma long_chunks_pile_up_in_the_leftover_witness :
  shape (block 2) = [len (block 2); 2]
  /\ player_ok demo_player2
  /\ items (_queue demo_player2) = [chunkA; chunkB]
  /\ Forall (fun c => len (block 2) <= len c) [chunkA; chunkB]
  /\ exists outs final,
       callbacks 0%Z (length [chunkA; chunkB]) (block 2) demo_player2
       = Some (outs, final)
       /\ items (_queue final) = []
       /\ rows_of_slot (_leftover_buffer final)
          + length [chunkA; chunkB] * len (block 2)
          = rows_of_slot (_leftover_buffer demo_player2)
            + total_rows [chunkA; chunkB]
       /\ samples_of outs ++ leftover_samples final = pending demo_player2.
Proof.
  assert (H1 : shape (block 2) = [len (block 2); 2]) by reflexivity.
  assert (H3 : items (_queue demo_player2) = [chunkA; chunkB]) by reflexivity.
  assert (H4 : Forall (fun c => len (block 2) <= len c) [chunkA; chunkB]).
  { apply Forall_cons; [unfold len; simpl; lia|].
    apply Forall_cons; [unfold len; simpl; lia | apply Forall_nil]. }
  split; [exact H1|]. split; [exact demo_player2_ok|]. split; [exact H3|].
  split; [exact H4|].
  exact (@long_chunks_pile_up_in_the_leftover Z 0%Z (block 2) H1 [chunkA; chunkB]
           demo_player2 demo_player2_ok H3 H4).
Defined.

Lemma planar_frameA : planar_stereo frameA.
Proof. split; reflexivity. Defined.

Lemma planar_frameB : planar_stereo frameB.
Proof. split; reflexivity. Defined.

Lemma planar_frame_becomes_rows_of_left_and_right_witness :
  planar_stereo frameA
  /\ frame_audio frameA
     = mk_ndarray [frame_columns frameA; 2]
         (interleave (firstn (frame_columns frameA) (frame_data frameA))
                     (skipn (frame_columns frameA) (frame_data frameA)))
  /\ stereo (frame_audio frameA)
  /\ len (frame_audio frameA) = frame_columns frameA.
Proof.
  split; [exact planar_frameA|].
  exact (@planar_frame_becomes_rows_of_left_and_right Z frameA planar_frameA).
Defined.

Lemma demo_packs_planar :
  Forall (Forall (@planar_stereo Z)) [[frameA; frameB]; [frameA]].
Proof.
  apply Forall_cons.
  - apply Forall_cons; [exact planar_frameA|].
    apply Forall_cons; [exact planar_frameB | apply Forall_nil].
  - apply Forall_cons; [|apply Forall_nil].
    apply Forall_cons; [exact planar_frameA | apply Forall_nil].
Defined.

Lemma worker_enqueues_whole_chunks_witness :
  0 < 2
  /\ (forall k, never_set k = false)
  /\ Forall (Forall (@planar_stereo Z)) [[frameA; frameB]; [frameA]]
  /\ exists w,
       _stream_and_play never_set 2 (map Ok [[frameA; frameB]; [frameA]])
       = (Ok Continue, w)
       /\ Forall (@stereo Z) (sent w)
       /\ samples_of (sent w) ++ samples_of (chunk w)
          = flat_map (fun f => flat (frame_audio f))
                     (concat [[frameA; frameB]; [frameA]])
       /\ length (sent w) * 2 + length (chunk w)
          = length (concat [[frameA; frameB]; [frameA]])
       /\ length (chunk w) < 2.
Proof.
  assert (H1 : 0 < 2) by lia.
  assert (H2 : forall k, never_set k = false) by (intros k; reflexivity).
  split; [exact H1|]. split; [exact H2|]. split; [exact demo_packs_planar|].
  exact (@worker_enqueues_whole_chunks Z never_set 2 [[frameA; frameB]; [frameA]]
           H1 H2 demo_packs_planar).
Defined.

Lemma demo_packs_two_planes :
  Forall (Forall (fun f : AudioFrame Z => frame_rows f = 2))
         [[frameA; frameB]; [frameA]].
Proof.
  apply Forall_cons.
  - apply Forall_cons; [reflexivity|].
    apply Forall_cons; [reflexivity | apply Forall_nil].
  - apply Forall_cons; [|apply Forall_nil].
    apply Forall_cons; [reflexivity | apply Forall_nil].
Defined.

Lemma each_frame_is_enqueued_by_itself_witness :
  (forall k, never_set k = false)
  /\ Forall (Forall (fun f : AudioFrame Z => frame_rows f = 2))
            [[frameA; frameB]; [frameA]]
  /\ _stream_and_play never_set
       (_CHUNK_SIZE (@YouTubeAudioPlayer_init Z 44100))
       (map Ok [[frameA; frameB]; [frameA]])
     = (Ok Continue,
        mk_worker [] (map (@frame_audio Z) (concat [[frameA; frameB]; [frameA]]))
                  (length (concat [[frameA; frameB]; [frameA]]))).
Proof.
  assert (H1 : forall k, never_set k = false) by (intros k; reflexivity).
  split; [exact H1|]. split; [exact demo_packs_two_planes|].
  exact (@each_frame_is_enqueued_by_itself Z never_set 44100%Z
           [[frameA; frameB]; [frameA]] H1 demo_packs_two_planes).
Defined.

Lemma first_frame_of_other_width_ends_the_worker_witness :
  frame_rows frameMono <> 2
  /\ never_set 0 = false
  /\ _stream_and_play never_set
       (_CHUNK_SIZE (@YouTubeAudioPlayer_init Z 44100))
       (Ok (frameMono :: [frameMono]) :: [Ok [frameMono]])
     = (Raise AssertionError, mk_worker [frame_audio frameMono] [] 1).
Proof.
  assert (H1 : frame_rows frameMono <> 2) by (simpl; lia).
  assert (H2 : never_set 0 = false) by reflexivity.
  split; [exact H1|]. split; [exact H2|].
  exact (@first_frame_of_other_width_ends_the_worker Z never_set 44100%Z
           frameMono [frameMono] [Ok [frameMono]] H1 H2).
Defined.

Lemma frames_of_other_width_are_never_enqueued_witness :
  Forall (fun f : AudioFrame Z => frame_rows f <> 2)
         (frames_of [Ok [frameMono; frameMono]; Raise (AVError 1); Ok [frameMono]])
  /\ sent (snd (_stream_and_play never_set 2
                  [Ok [frameMono; frameMono]; Raise (AVError 1); Ok [frameMono]]))
     = [].
Proof.
  assert (H1 : Forall (fun f : AudioFrame Z => frame_rows f <> 2)
                 (frames_of [Ok [frameMono; frameMono]; Raise (AVError 1);
                             Ok [frameMono]])).
  { simpl. repeat (apply Forall_cons; [simpl; lia|]). apply Forall_nil. }
  split; [exact H1|].
  exact (@frames_of_other_width_are_never_enqueued Z never_set 2
           [Ok [frameMono; frameMono]; Raise (AVError 1); Ok [frameMono]] H1).
Defined.

Lemma play_and_stop_never_raise_witness :
  (0 < 44100)%Z
  /\ exists p : program Z,
       do_calls [Play (QArith_base.Qmake 0 1); Stop; Stop; WorkerEnds;
                 Play (QArith_base.Qmake 50 1)] (program0 44100)
       = (Ok tt, p).
Proof.
  assert (H1 : (0 < 44100)%Z) by reflexivity.
  split; [exact H1|].
  exact (@play_and_stop_never_raise Z 44100%Z
           [Play (QArith_base.Qmake 0 1); Stop; Stop; WorkerEnds;
            Play (QArith_base.Qmake 50 1)] H1).
Defined.

Lemma stop_leaves_nothing_behind_witness :
  do_calls [Play (QArith_base.Qmake 0 1)] (program0 44100) = (Ok tt, playing)
  /\ exists p',
       stop playing = (Ok tt, p')
       /\ live_threads (hist (outside p')) = []
       /\ open_streams (hist (outside p')) = []
       /\ active_streams (hist (outside p')) = [].
Proof.
  assert (H1 : do_calls [Play (QArith_base.Qmake 0 1)] (program0 44100)
               = (Ok tt, playing)) by reflexivity.
  split; [exact H1|].
  exact (@stop_leaves_nothing_behind Z 44100%Z [Play (QArith_base.Qmake 0 1)]
           (Ok tt) playing H1).
Defined.

Lemma no_session_without_a_sample_rate_witness :
  (0 <= 0)%Z
  /\ (forall t, play t (@program0 Z 0) = (Raise AssertionError, program0 0))
  /\ forall (cs : list call) (r : outcome unit) (p : program Z),
       do_calls cs (program0 0) = (r, p) -> p = program0 0.
Proof.
  assert (H1 : (0 <= 0)%Z) by lia.
  split; [exact H1|].
  exact (@no_session_without_a_sample_rate Z 0%Z H1).
Defined.

Lemma a_live_worker_is_not_cancelled_witness :
  do_calls [Play (QArith_base.Qmake 0 1)] (program0 44100) = (Ok tt, playing)
  /\ live_threads (hist (outside playing)) <> []
  /\ _exit_worker (self_ playing) = Some false.
Proof.
  assert (H1 : do_calls [Play (QArith_base.Qmake 0 1)] (program0 44100)
               = (Ok tt, playing)) by reflexivity.
  assert (H2 : live_threads (hist (outside playing)) <> [])
    by (simpl; discriminate).
  split; [exact H1|]. split; [exact H2|].
  exact (@a_live_worker_is_not_cancelled Z 44100%Z [Play (QArith_base.Qmake 0 1)]
           (Ok tt) playing H1 H2).
Defined.

Lemma player_built_then_closed_witness :
  (0 < 44100)%Z /\ (0 < 200)%Z
  /\ (forall s, In s (open_streams (hist world0)) -> s < next_stream world0)
  /\ (forall s, In s (active_streams (hist world0)) -> s < next_stream world0)
  /\ exists w1 w2,
       StreamingAudioPlayer_init 44100 200 world0
       = (Ok (fresh_player Z 200 (next_stream world0)), w1)
       /\ close (fresh_player Z 200 (next_stream world0)) w1 = (Ok tt, w2)
       /\ rev (hist w2)
          = rev (hist world0)
              ++ [StreamOpened (next_stream world0) 44100 2;
                  StreamStarted (next_stream world0);
                  StreamStopped (next_stream world0);
                  StreamClosed (next_stream world0)]
       /\ open_streams (hist w2) = open_streams (hist world0)
       /\ active_streams (hist w2) = active_streams (hist world0).
Proof.
  assert (H1 : (0 < 44100)%Z) by reflexivity.
  assert (H2 : (0 < 200)%Z) by reflexivity.
  assert (H3 : forall s, In s (open_streams (hist world0)) -> s < next_stream world0)
    by (intros s Hs; destruct Hs).
  assert (H4 : forall s, In s (active_streams (hist world0)) -> s < next_stream world0)
    by (intros s Hs; destruct Hs).
  split; [exact H1|]. split; [exact H2|]. split; [exact H3|]. split; [exact H4|].
  exact (@player_built_then_closed Z 44100%Z 200%Z world0 H1 H2 H3 H4).
Defined.

Lemma demo_lines_seek :
  Forall2 (seeks demo_float) ["0"%string; "50"%string]
          [QArith_base.Qmake 0 1; QArith_base.Qmake 50 1].
Proof.
  apply Forall2_cons; [split; [discriminate | reflexivity]|].
  apply Forall2_cons; [split; [discriminate | reflexivity]|].
  apply Forall2_nil.
Defined.

Lemma prompt_loop_plays_each_line_then_stops_witness :
  (0 < 44100)%Z
  /\ Forall2 (seeks demo_float) ["0"%string; "50"%string]
             [QArith_base.Qmake 0 1; QArith_base.Qmake 50 1]
  /\ exists p,
       @main Z demo_float 44100
         (["0"%string; "50"%string] ++ "exit"%string :: ["7"%string])
       = (Ok Exited, p)
       /\ do_calls (map Play [QArith_base.Qmake 0 1; QArith_base.Qmake 50 1] ++ [Stop])
                   (@program0 Z 44100)
          = (Ok tt, p)
       /\ live_threads (hist (outside p)) = []
       /\ open_streams (hist (outside p)) = []
       /\ active_streams (hist (outside p)) = [].
Proof.
  assert (H1 : (0 < 44100)%Z) by reflexivity.
  split; [exact H1|]. split; [exact demo_lines_seek|].
  exact (@prompt_loop_plays_each_line_then_stops Z demo_float 44100%Z
           ["0"%string; "50"%string]
           [QArith_base.Qmake 0 1; QArith_base.Qmake 50 1] ["7"%string]
           H1 demo_lines_seek).
Defined.

Lemma a_line_that_is_no_number_ends_the_program_witness :
  (0 < 44100)%Z
  /\ Forall2 (seeks demo_float) ["0"%string; "50"%string]
             [QArith_base.Qmake 0 1; QArith_base.Qmake 50 1]
  /\ "quit"%string <> "exit"%string
  /\ demo_float "quit"%string = Raise ValueError
  /\ exists p,
       @main Z demo_float 44100
         (["0"%string; "50"%string] ++ "quit"%string :: ["exit"%string])
       = (Raise ValueError, p)
       /\ do_calls (map Play [QArith_base.Qmake 0 1; QArith_base.Qmake 50 1])
                   (@program0 Z 44100)
          = (Ok tt, p)
       /\ ([QArith_base.Qmake 0 1; QArith_base.Qmake 50 1] <> [] ->
           exists h, open_streams (hist (outside p)) = [h]
                     /\ active_streams (hist (outside p)) = [h]).
Proof.
  assert (H1 : (0 < 44100)%Z) by reflexivity.
  assert (H3 : "quit"%string <> "exit"%string) by discriminate.
  assert (H4 : demo_float "quit"%string = Raise ValueError) by reflexivity.
  split; [exact H1|]. split; [exact demo_lines_seek|]. split; [exact H3|].
  split; [exact H4|].
  exact (@a_line_that_is_no_number_ends_the_program Z demo_float 44100%Z
           ["0"%string; "50"%string]
           [QArith_base.Qmake 0 1; QArith_base.Qmake 50 1]
           "quit"%string ValueError ["exit"%string]
           H1 demo_lines_seek H3 H4).
Defined.

Lemma a_callback_releases_the_producer_witness :
  player_ok demo_player_full
  /\ shape (block 2) = [len (block 2); 2]
  /\ shape_at chunkB 1 = Ok 2
  /\ (Z.of_nat (length (items (_queue demo_player_full)))
      <= maxsize (_queue demo_player_full))%Z
  /\ full (_queue demo_player_full) = true
  /\ add_audio chunkB demo_player_full = (Ok Waiting, demo_player_full)
  /\ exists out self' self'',
       _audio_callback 0%Z (block 2) demo_player_full = (Ok out, self')
       /\ add_audio chunkB self' = (Ok Returned, self'')
       /\ items (_queue self'') = tl (items (_queue demo_player_full)) ++ [chunkB].
Proof.
  assert (H1 : player_ok demo_player_full) by exact demo_player2_ok.
  assert (H2 : shape (block 2) = [len (block 2); 2]) by reflexivity.
  assert (H3 : shape_at chunkB 1 = Ok 2) by reflexivity.
  assert (H4 : (Z.of_nat (length (items (_queue demo_player_full)))
                <= maxsize (_queue demo_player_full))%Z) by (simpl; lia).
  assert (H5 : full (_queue demo_player_full) = true) by reflexivity.
  split; [exact H1|]. split; [exact H2|]. split; [exact H3|].
  split; [exact H4|]. split; [exact H5|].
  exact (@a_callback_releases_the_producer Z 0%Z demo_player_full (block 2) chunkB
           H1 H2 H3 H4 H5).
Defined.

(** A callback for four frames before line 46, and the run with two
    underruns on the player that [__init__] returns. *)
Lemma blocks_are_whole_once_built_witness :
  (0 < 44100)%Z
  /\ (0 < 200)%Z
  /\ Forall (@stereo Z) (enqueued demo_acts_short)
  /\ run 0%Z demo_acts_short (fresh_player Z 200 (next_stream world0))
     = Some (demo_outs_short, demo_player_taken)
  /\ shape (block 4) = [len (block 4); 2]
  /\ exists w',
       StreamingAudioPlayer_init_started (sample:=Z) 44100 200 world0
       = (Ok (Started (new_Queue (sample:=Z) 200) 0), w')
       /\ In 0 (active_streams (hist w'))
       /\ _audio_callback_at 0%Z (block 4) (Started (new_Queue (sample:=Z) 200) 0)
          = (Raise AttributeError, Started (new_Queue (sample:=Z) 200) 0)
       /\ create_leftover_buffer (Started (new_Queue (sample:=Z) 200) 0)
          = Built (fresh_player Z 200 0)
       /\ StreamingAudioPlayer_init (sample:=Z) 44100 200 world0
          = (Ok (fresh_player Z 200 0), w')
       /\ Forall (@stereo Z) demo_outs_short
       /\ exists out final',
            _audio_callback_at 0%Z (block 4) (Built demo_player_taken)
            = (Ok out, Built final')
            /\ shape out = shape (block 4)
            /\ length (flat out) = len (block 4) * 2.
Proof.
  assert (H1 : Forall (@stereo Z) (enqueued demo_acts_short)).
  { simpl. apply Forall_cons; [exact stereo_chunkA|].
    apply Forall_cons; [exact stereo_chunkB | apply Forall_nil]. }
  assert (H2 : run 0%Z demo_acts_short (fresh_player Z 200 (next_stream world0))
               = Some (demo_outs_short, demo_player_taken)) by reflexivity.
  assert (H3 : shape (block 4) = [len (block 4); 2]) by reflexivity.
  assert (Hr : (0 < 44100)%Z) by lia.
  assert (Hq : (0 < 200)%Z) by lia.
  split; [exact Hr|]. split; [exact Hq|].
  split; [exact H1|]. split; [exact H2|]. split; [exact H3|].
  exact (@blocks_are_whole_once_built Z 0%Z 44100%Z 200%Z world0 demo_acts_short
           demo_outs_short demo_player_taken (block 4) (block 4) Hr Hq H1 H2 H3).
Defined.

Lemma the_assertion_checks_one_dimension_only_witness :
  match _leftover_buffer demo_player_taken with
  | Some l => stereo l
  | None => True
  end
  /\ items (_queue demo_player_taken) = []
  /\ shape cube = 1 :: 2 :: 2 :: []
  /\ (exists self' self1,
        add_audio cube demo_player_taken = (Ok Returned, self')
        /\ items (_queue self') = [cube]
        /\ _audio_callback 0%Z (block 2) self' = (Raise ValueError, self1)
        /\ items (_queue self1) = [])
  /\ (forall c1 : ndarray Z,
        length (shape c1) < 2 ->
        add_audio c1 demo_player_taken = (Raise IndexError, demo_player_taken)).
Proof.
  assert (H1 : match _leftover_buffer demo_player_taken with
               | Some l => stereo l
               | None => True
               end) by exact I.
  assert (H2 : items (_queue demo_player_taken) = []) by reflexivity.
  assert (H3 : shape cube = 1 :: 2 :: 2 :: []) by reflexivity.
  split; [exact H1|]. split; [exact H2|]. split; [exact H3|].
  exact (@the_assertion_checks_one_dimension_only Z 0%Z demo_player_taken (block 2)
           cube 1 2 [] H1 H2 H3).
Defined.
